(** * Neural style transfer: the converter engine

    A shallow embedding of [server/converter_engine/image_converter.py]
    (class [ImageConverter]) and the properties its specification states.

    Conventions of the embedding.
    - The program is read with Python 3 semantics: [/] on integers is true
      division and [round] rounds half to even and returns an integer.
    - A Python [float] is an IEEE binary64 number and every NumPy or
      TensorFlow tensor of the program holds binary32 numbers
      ([img_to_array] yields float32, the trainable image is a float32
      variable).  Both are values of [spec_float], computed with the
      operations of [SpecFloat] at precision 53 or 24.
    - An n-dimensional array is its shape and its row-major buffer.
    - What the program calls but does not define (PIL, the pretrained
      network, automatic differentiation, the Adam update) is a field of
      the record [Backend]; each call may raise.
    - The methods run in a state-and-exception monad over a [world]: the
      attribute [self.cur_iter], the store of [tfe.Variable] objects, and
      the trace of file openings and printed lines. *)

From Stdlib Require Import String ZArith List Bool Lia.
From Stdlib Require Import Floats.SpecFloat.
Import ListNotations.
Local Open Scope Z_scope.

(** ** Floating point *)

Module Float.

Section Format.
Variables prec emax : Z.

(** An integer converted to the format, rounded to nearest even. *)
Definition of_Z (z : Z) : spec_float := binary_normalize prec emax z 0 false.

(** A number of a wider format cast to this one. *)
Definition cast (x : spec_float) : spec_float :=
  match x with
  | S754_finite s m e => binary_normalize prec emax (cond_Zopp s (Zpos m)) e s
  | _ => x
  end.

End Format.

Definition is_nan (x : spec_float) : bool :=
  match x with S754_nan => true | _ => false end.

(** Zero, or a nonzero number that is not an infinity. *)
Definition is_finite (x : spec_float) : bool :=
  match x with S754_zero _ | S754_finite _ _ _ => true | _ => false end.

(** The integer part of a number, truncated towards zero. *)
Definition trunc (x : spec_float) : Z :=
  match x with
  | S754_finite s m (Zneg p) => cond_Zopp s (Z.shiftr (Zpos m) (Zpos p))
  | S754_finite s m e => cond_Zopp s (Z.shiftl (Zpos m) e)
  | _ => 0
  end.

End Float.

(** Python floats. *)
Module F64.
Definition prec : Z := 53.
Definition emax : Z := 1024.
Definition of_Z : Z -> spec_float := Float.of_Z prec emax.
Definition mul : spec_float -> spec_float -> spec_float := SFmul prec emax.
Definition div : spec_float -> spec_float -> spec_float := SFdiv prec emax.
Definition sub : spec_float -> spec_float -> spec_float := SFsub prec emax.
(** The decimal literal [n / d], for integers the format holds exactly. *)
Definition lit (n d : Z) : spec_float := div (of_Z n) (of_Z d).
End F64.

(** float32 tensors. *)
Definition float32 := spec_float.

Module F32.
Definition prec : Z := 24.
Definition emax : Z := 128.
Definition zero : float32 := S754_zero false.
Definition inf : float32 := S754_infinity false.
Definition nan : float32 := S754_nan.
Definition of_Z : Z -> float32 := Float.of_Z prec emax.
Definition of_float : spec_float -> float32 := Float.cast prec emax.
Definition add : float32 -> float32 -> float32 := SFadd prec emax.
Definition sub : float32 -> float32 -> float32 := SFsub prec emax.
Definition mul : float32 -> float32 -> float32 := SFmul prec emax.
Definition div : float32 -> float32 -> float32 := SFdiv prec emax.
Definition ltb : float32 -> float32 -> bool := SFltb.
Definition leb : float32 -> float32 -> bool := SFleb.
End F32.

(** ** Exceptions *)

Inductive exn : Type :=
| IOError            (* PIL cannot open or decode the file *)
| ZeroDivisionError
| OverflowError
| ValueError
| AssertionError
| IndexError
| BackendError.      (* a failure of the tensor backend *)

Inductive result (A : Type) : Type :=
| Ok (a : A)
| Raise (e : exn).

Arguments Ok {A} a.
Arguments Raise {A} e.

Definition rbind {A B : Type} (c : result A) (k : A -> result B) : result B :=
  match c with
  | Ok a => k a
  | Raise e => Raise e
  end.

Notation "'let?' x ':=' c 'in' k" := (rbind c (fun x => k))
  (at level 10, x pattern, c at level 100, k at level 200).

Fixpoint mapM {A B : Type} (f : A -> result B) (l : list A) : result (list B) :=
  match l with
  | [] => Ok []
  | a :: l' =>
      let? b := f a in
      let? bs := mapM f l' in
      Ok (b :: bs)
  end.

(** ** Arrays and images *)

(** A float32 array: shape and row-major buffer. *)
Record ndarray : Type := { shape : list nat; data : list float32 }.

(** An array of dtype uint8; every element is its value. *)
Record uint8_array : Type := { ushape : list nat; udata : list Z }.

(** A decoded PIL image: [size] is (width, height), the buffer holds
    [bands] values in 0..255 per pixel, rows first. *)
Record pil_image : Type :=
  { width : nat; height : nat; bands : nat; pixels : list Z }.

Definition numel (s : list nat) : nat := fold_right Nat.mul 1%nat s.

Definition wf_image (img : pil_image) : Prop :=
  length (pixels img) = (height img * width img * bands img)%nat /\
  Forall (fun p => 0 <= p <= 255) (pixels img).

(** The size of the last axis, [x.shape[-1]]. *)
Definition last_axis (x : ndarray) : nat := last (shape x) 0%nat.

(** The buffer cut into runs of [C] consecutive elements: the vectors
    along the last axis of an array whose last axis has size [C]. *)
Fixpoint chunks_fuel (fuel C : nat) (d : list float32) : list (list float32) :=
  match fuel with
  | O => []
  | S k =>
      match d with
      | [] => []
      | _ => firstn C d :: chunks_fuel k C (skipn C d)
      end
  end.

Definition chunks (C : nat) (d : list float32) : list (list float32) :=
  chunks_fuel (length d) C d.

(** [f] applied to every vector along the last axis. *)
Definition map_pixels (C : nat) (f : list float32 -> list float32)
  (d : list float32) : list float32 :=
  concat (map f (chunks C d)).

Fixpoint on_nth {A : Type} (c : nat) (f : A -> A) (l : list A) : list A :=
  match l, c with
  | [], _ => []
  | a :: r, O => f a :: r
  | a :: r, S c' => a :: on_nth c' f r
  end.

(** [x[..., c] = f(x[..., c])]; an index outside the last axis raises. *)
Definition on_channel (c : nat) (f : float32 -> float32) (x : ndarray)
  : result ndarray :=
  if (c <? last_axis x)%nat
  then Ok {| shape := shape x;
             data := map_pixels (last_axis x) (on_nth c f) (data x) |}
  else Raise IndexError.

(** [x[..., ::-1]]. *)
Definition flip_channels (x : ndarray) : ndarray :=
  {| shape := shape x; data := map_pixels (last_axis x) (@rev float32) (data x) |}.

(** [np.expand_dims(x, axis=0)]. *)
Definition expand_dims0 (x : ndarray) : ndarray :=
  {| shape := 1%nat :: shape x; data := data x |}.

(** [np.squeeze(x, 0)]: the first axis must have size one. *)
Definition squeeze0 (x : ndarray) : result ndarray :=
  match shape x with
  | 1%nat :: s => Ok {| shape := s; data := data x |}
  | _ => Raise ValueError
  end.

(** [np.maximum] and [np.minimum]; a NaN operand is the result. *)
Definition np_maximum (a b : float32) : float32 :=
  if Float.is_nan a then a else if Float.is_nan b then b
  else if F32.ltb a b then b else a.

Definition np_minimum (a b : float32) : float32 :=
  if Float.is_nan a then a else if Float.is_nan b then b
  else if F32.ltb b a then b else a.

(** [np.clip(x, lo, hi)] on one element. *)
Definition np_clip (lo hi : float32) (a : float32) : float32 :=
  np_minimum (np_maximum a lo) hi.

(** [astype('uint8')] on one element: the fraction is dropped and the
    integer wraps modulo 256; a NaN or an infinity is taken to 0 (C leaves
    that conversion undefined, the usual platforms give 0). *)
Definition to_uint8 (a : float32) : Z := (Float.trunc a) mod 256.

(** The per-channel means of the network's preprocessing, as the Python
    literals 103.939, 116.779 and 123.68. *)
Definition mean_literals : list spec_float :=
  [F64.lit 103939 1000; F64.lit 116779 1000; F64.lit 12368 100].

Definition mean32 (c : nat) : float32 :=
  F32.of_float (nth c mean_literals (S754_zero false)).

(** ** Python arithmetic used by the program *)

(** An integer as an operand of a division: the integer itself, with
    all its digits, however many. *)
Definition int_operand (z : Z) : spec_float :=
  match z with
  | 0 => S754_zero false
  | Zpos p => S754_finite false p 0
  | Zneg p => S754_finite true p 0
  end.

(** [a / b] on integers: the quotient of the two integers rounded once,
    to the nearest float; [OverflowError] when that quotient is beyond
    the floats. *)
Definition py_truediv (a b : Z) : result spec_float :=
  if b =? 0 then Raise ZeroDivisionError
  else
    match F64.div (int_operand a) (int_operand b) with
    | S754_infinity _ => Raise OverflowError
    | q => Ok q
    end.

(** [m * 2^e] rounded to the nearest integer, ties to the even one. *)
Definition round_half_even (m : positive) (e : Z) : Z :=
  match e with
  | Zneg p =>
      let q := Z.shiftr (Zpos m) (Zpos p) in
      let r := Zpos m - Z.shiftl q (Zpos p) in
      let half := Z.shiftl 1 (Zpos p - 1) in
      if r <? half then q
      else if half <? r then q + 1
      else if Z.even q then q else q + 1
  | _ => Z.shiftl (Zpos m) e
  end.

(** [round(x)] on a float. *)
Definition py_round (x : spec_float) : result Z :=
  match x with
  | S754_zero _ => Ok 0
  | S754_infinity _ => Raise OverflowError
  | S754_nan => Raise ValueError
  | S754_finite s m e => Ok (cond_Zopp s (round_half_even m e))
  end.

(** [i % d == 0] for an integer [i >= 0] and a float [d]: the remainder
    of a float division is exact, so the test holds when [i] is a whole
    multiple of [d]. *)
Definition py_mod_is_zero (i : Z) (d : spec_float) : result bool :=
  match d with
  | S754_zero _ => Raise ZeroDivisionError
  | S754_nan => Ok false
  | S754_infinity _ => Ok (i =? 0)
  | S754_finite _ m (Zneg p) => Ok (Z.shiftl i (Zpos p) mod Zpos m =? 0)
  | S754_finite _ m e => Ok (i mod Z.shiftl (Zpos m) e =? 0)
  end.

(** ** The world the methods run in *)

Inductive event : Type :=
| EvOpen (path : string)     (* [Image.open(path)] *)
| EvPrint (i : nat).         (* the line "Cur iteration: i" *)

(** A [tfe.Variable] is a cell of the store, named by its index. *)
Definition variable := nat.

Record world : Type :=
  { cur_iter : Z;                  (* [self.cur_iter] *)
    variables : list ndarray;
    events : list event }.

Definition M (A : Type) : Type := world -> result A * world.

Definition ret {A : Type} (a : A) : M A := fun w => (Ok a, w).

Definition bind {A B : Type} (c : M A) (k : A -> M B) : M B :=
  fun w =>
    match c w with
    | (Ok a, w') => k a w'
    | (Raise e, w') => (Raise e, w')
    end.

Definition lift {A : Type} (r : result A) : M A := fun w => (r, w).

Notation "x <- c ;; k" := (bind c (fun x => k))
  (at level 61, c at next level, right associativity).

Definition emit (e : event) : M unit :=
  fun w => (Ok tt, {| cur_iter := cur_iter w; variables := variables w;
                      events := events w ++ [e] |}).

Definition set_cur_iter (i : Z) : M unit :=
  fun w => (Ok tt, {| cur_iter := i; variables := variables w;
                      events := events w |}).

(** [tfe.Variable(value, dtype=tf.float32)]. *)
Definition tfe_Variable (value : ndarray) : M variable :=
  fun w => (Ok (length (variables w)),
            {| cur_iter := cur_iter w; variables := variables w ++ [value];
               events := events w |}).

(** The current value of a variable ([v.numpy()], or [v] used as a
    tensor). *)
Definition read_value (v : variable) : M ndarray :=
  fun w =>
    match nth_error (variables w) v with
    | Some x => (Ok x, w)
    | None => (Raise BackendError, w)
    end.

Fixpoint set_nth {A : Type} (n : nat) (a : A) (l : list A) : list A :=
  match l, n with
  | [], _ => []
  | _ :: r, O => a :: r
  | b :: r, S n' => b :: set_nth n' a r
  end.

(** The buffer of a variable overwritten in place; its shape is fixed at
    creation. *)
Definition write_buffer (v : variable) (d : list float32) : M unit :=
  fun w =>
    match nth_error (variables w) v with
    | Some x =>
        (Ok tt, {| cur_iter := cur_iter w;
                   variables := set_nth v {| shape := shape x; data := d |}
                                  (variables w);
                   events := events w |})
    | None => (Raise BackendError, w)
    end.

Fixpoint list_eqb {A : Type} (eqb : A -> A -> bool) (l1 l2 : list A) : bool :=
  match l1, l2 with
  | [], [] => true
  | a :: r1, b :: r2 => eqb a b && list_eqb eqb r1 r2
  | _, _ => false
  end.

(** [v.assign(value)]: the value must have the shape of the variable. *)
Definition assign (v : variable) (value : ndarray) : M unit :=
  x <- read_value v ;;
  if list_eqb Nat.eqb (shape x) (shape value)
  then write_buffer v (data value)
  else lift (Raise BackendError).

(** The statements of [for i in range(n)], in order. *)
Fixpoint for_each {S : Type} (body : nat -> S -> M S) (range : list nat)
  (s : S) : M S :=
  match range with
  | [] => ret s
  | i :: rest => s' <- body i s ;; for_each body rest s'
  end.

(** ** The collaborators *)

(** The hyperparameters given to [tf.compat.v1.train.AdamOptimizer]. *)
Record AdamOptimizer : Type :=
  { learning_rate : spec_float; beta1 : spec_float; epsilon : spec_float }.

Record Backend : Type :=
  { (** Python's [__debug__]: [assert] statements are executed. *)
    py_debug : bool;
    (** [Image.open] and the decoding of the file. *)
    Image_open : string -> result pil_image;
    (** The buffer of [img.resize((w, h), Image.ANTIALIAS)]. *)
    Image_resize : pil_image -> Z -> Z -> result (list Z);
    (** [VGG19(include_top=False, weights='imagenet')]: the activation of
        the named layer on a batch of images. *)
    VGG19 : result (string -> ndarray -> result ndarray);
    (** [tape.gradient(loss, x)] for the loss recorded as a function of
        the watched variable. *)
    tape_gradient : (ndarray -> result float32) -> ndarray -> result ndarray;
    (** The state an Adam optimizer keeps between steps. *)
    slots : Type;
    new_slots : AdamOptimizer -> slots;
    (** One Adam step: new state and new buffer of the variable. *)
    adam_step : slots -> ndarray -> ndarray -> result (slots * list float32) }.

(** ** ImagePreprocessor and ImagePostprocessor *)

(** The attributes [__init__] sets; [cur_iter], the one the program
    reassigns, lives in the [world]. *)
Record ImageConverter : Type :=
  { content_path : string;
    style_path : string;
    iteration : Z;
    max_dim : Z;
    content_layers : list string;
    style_layers : list string;
    num_content_layers : nat;
    num_style_layers : nat }.

Definition __init__ (content_path style_path : string) (iteration max_dim : Z)
  : ImageConverter :=
  let content_layers := ["block5_conv2"%string] in
  let style_layers := ["block1_conv1"; "block2_conv1"; "block3_conv1";
                       "block4_conv1"; "block5_conv1"]%string in
  {| content_path := content_path;
     style_path := style_path;
     iteration := iteration;
     max_dim := max_dim;
     content_layers := content_layers;
     style_layers := style_layers;
     num_content_layers := length content_layers;
     num_style_layers := length style_layers |}.

(** [kp_image.img_to_array]: a float32 array of shape
    [height, width, bands]. *)
Definition img_to_array (img : pil_image) : ndarray :=
  {| shape := [height img; width img; bands img];
     data := map F32.of_Z (pixels img) |}.

(** Modelled from the spec: [tf.keras.applications.vgg19.preprocess_input]
    is a Keras function, absent from the repository.  The data model gives
    its effect: channel order reversed relative to the source, then the
    per-channel means 103.939, 116.779, 123.68 subtracted, channel by
    channel, in float32. *)
Definition preprocess_input (x : ndarray) : result ndarray :=
  let x := flip_channels x in
  let? x := on_channel 0 (fun a => F32.sub a (mean32 0)) x in
  let? x := on_channel 1 (fun a => F32.sub a (mean32 1)) x in
  let? x := on_channel 2 (fun a => F32.sub a (mean32 2)) x in
  Ok x.

(** Lines 29-34 of [_load_and_process_img]: the image opened and resized
    so that its longer side is [max_dim]. *)
Definition load_resized (B : Backend) (self : ImageConverter)
  (img_path : string) : result pil_image :=
  let? img := Image_open B img_path in
  let long := Nat.max (width img) (height img) in
  let? scale := py_truediv (max_dim self) (Z.of_nat long) in
  let? w := py_round (F64.mul (F64.of_Z (Z.of_nat (width img))) scale) in
  let? h := py_round (F64.mul (F64.of_Z (Z.of_nat (height img))) scale) in
  let? px := Image_resize B img w h in
  Ok {| width := Z.to_nat w; height := Z.to_nat h; bands := bands img;
        pixels := px |}.

(** Lines 35-41: the resized image as a preprocessed batch of one. *)
Definition process_img (img : pil_image) : result ndarray :=
  let img := img_to_array img in
  let img := expand_dims0 img in
  preprocess_input img.

Definition _load_and_process_img (B : Backend) (self : ImageConverter)
  (img_path : string) : M ndarray :=
  _ <- emit (EvOpen img_path) ;;
  lift (let? img := load_resized B self img_path in process_img img).

(** Lines 45-56 of [_deprocess_img]: the checks on the shape, the means
    added back and the channels put in display order. *)
Definition deprocess_unclipped (debug : bool) (processed_img : ndarray)
  : result ndarray :=
  let x := processed_img in
  let? x := if (length (shape x) =? 4)%nat then squeeze0 x else Ok x in
  let? _ := if debug && negb (length (shape x) =? 3)%nat
            then Raise AssertionError else Ok tt in
  let? _ := if negb (length (shape x) =? 3)%nat
            then Raise ValueError else Ok tt in
  (* perform the inverse of the pre-processing step *)
  let? x := on_channel 0 (fun a => F32.add a (mean32 0)) x in
  let? x := on_channel 1 (fun a => F32.add a (mean32 1)) x in
  let? x := on_channel 2 (fun a => F32.add a (mean32 2)) x in
  Ok (flip_channels x).

(** Line 57: [np.clip(x, 0, 255).astype('uint8')]. *)
Definition clip_to_uint8 (x : ndarray) : uint8_array :=
  {| ushape := shape x;
     udata := map (fun a => to_uint8 (np_clip (F32.of_Z 0) (F32.of_Z 255) a))
                (data x) |}.

Definition _deprocess_img (debug : bool) (processed_img : ndarray)
  : result uint8_array :=
  let? x := deprocess_unclipped debug processed_img in
  Ok (clip_to_uint8 x).

(** ** FeatureExtractionModel *)

(** What [_get_model] returns: a function from a batch to the list of
    the activations of the chosen layers. *)
Definition keras_model : Type := ndarray -> result (list ndarray).

Definition _get_model (B : Backend) (self : ImageConverter) : result keras_model :=
  let? vgg := VGG19 B in
  let style_outputs := map vgg (style_layers self) in
  let content_outputs := map vgg (content_layers self) in
  let model_outputs := style_outputs ++ content_outputs in
  Ok (fun x => mapM (fun layer => layer x) model_outputs).

(** [t[0]]: the first slice along the first axis. *)
Definition index0 (t : ndarray) : result ndarray :=
  match shape t with
  | S _ :: s => Ok {| shape := s; data := firstn (numel s) (data t) |}
  | _ => Raise BackendError
  end.

(** ** LossComputer *)

(** The shape of an operation on two tensors whose shapes differ: the
    shapes are aligned at their last axes, an axis missing in one or of
    size one takes the size of the other, and two sizes that differ and
    are both not one are incompatible.  On the reversed shapes. *)
Fixpoint broadcast_rev (ra rb : list nat) : option (list nat) :=
  match ra, rb with
  | [], r | r, [] => Some r
  | da :: ra', db :: rb' =>
      match broadcast_rev ra' rb' with
      | Some r =>
          if (da =? db)%nat then Some (da :: r)
          else if (da =? 1)%nat then Some (db :: r)
          else if (db =? 1)%nat then Some (da :: r)
          else None
      | None => None
      end
  end.

Definition broadcast_shape (sa sb : list nat) : option (list nat) :=
  option_map (@rev nat) (broadcast_rev (rev sa) (rev sb)).

(** The first [k] runs of [size] consecutive elements. *)
Fixpoint slices (k size : nat) (d : list float32) : list (list float32) :=
  match k with
  | O => []
  | S k' => firstn size d :: slices k' size (skipn size d)
  end.

(** The buffer of a tensor of shape [sa] repeated to the shape [s]:
    along an axis that [sa] lacks, or has with size one where [s] has
    more, the tensor is repeated. *)
Fixpoint broadcast_to (s sa : list nat) (d : list float32) : list float32 :=
  match s with
  | [] => d
  | n :: s' =>
      if (length sa <? length s)%nat
      then concat (repeat (broadcast_to s' sa d) n)
      else
        match sa with
        | [] => d
        | k :: sa' =>
            if (k =? n)%nat
            then concat (map (broadcast_to s' sa') (slices k (numel sa') d))
            else concat (repeat (broadcast_to s' sa' d) n)
        end
  end.

(** [a - b]: element by element for tensors of one shape, as all the
    tensors are that the program subtracts; for shapes that differ and
    are compatible, on the two tensors broadcast to their common
    shape. *)
Definition tensor_sub (a b : ndarray) : result ndarray :=
  if list_eqb Nat.eqb (shape a) (shape b)
  then Ok {| shape := shape a;
             data := map (fun p => F32.sub (fst p) (snd p))
                       (combine (data a) (data b)) |}
  else
    match broadcast_shape (shape a) (shape b) with
    | Some s =>
        Ok {| shape := s;
              data := map (fun p => F32.sub (fst p) (snd p))
                        (combine (broadcast_to s (shape a) (data a))
                           (broadcast_to s (shape b) (data b))) |}
    | None => Raise BackendError
    end.

(** [tf.square]. *)
Definition square (x : ndarray) : ndarray :=
  {| shape := shape x; data := map (fun a => F32.mul a a) (data x) |}.

(** A float32 sum, accumulated from the left.  (The backend does not fix
    the order of a reduction; the theorems below use of a sum only facts
    that hold in every order.) *)
Definition sum32 (l : list float32) : float32 := fold_left F32.add l F32.zero.

(** [tf.reduce_mean] over all elements. *)
Definition reduce_mean (x : ndarray) : float32 :=
  F32.div (sum32 (data x)) (F32.of_Z (Z.of_nat (length (data x)))).

Definition content_loss (base_content target : ndarray) : result float32 :=
  let? d := tensor_sub base_content target in
  Ok (reduce_mean (square d)).

(** The inner product of two columns. *)
Definition dot (xs ys : list float32) : float32 :=
  sum32 (map (fun p => F32.mul (fst p) (snd p)) (combine xs ys)).

Definition gram_matrix (input_tensor : ndarray) : result ndarray :=
  match shape input_tensor with
  | [] => Raise IndexError
  | _ =>
      let channels := last_axis input_tensor in
      let a := chunks channels (data input_tensor) in
      let n := length a in
      let column i := map (fun row => nth i row F32.zero) a in
      let gram :=
        flat_map (fun i => map (fun j => dot (column i) (column j))
                             (seq 0 channels))
          (seq 0 channels) in
      Ok {| shape := [channels; channels];
            data := map (fun g => F32.div g (F32.of_Z (Z.of_nat n))) gram |}
  end.

Definition style_loss (base_style gram_target : ndarray) : result float32 :=
  let? gram_style := gram_matrix base_style in
  let? d := tensor_sub gram_style gram_target in
  Ok (reduce_mean (square d)).

(** One of the two accumulation loops of [compute_loss]:
    [for target, comb in zip(targets, outputs): score += weight * loss(comb[0], target)]. *)
Fixpoint accumulate (weight : float32)
  (loss : ndarray -> ndarray -> result float32)
  (pairs : list (ndarray * ndarray)) (score : float32) : result float32 :=
  match pairs with
  | [] => Ok score
  | (target, comb) :: rest =>
      let? comb0 := index0 comb in
      let? l := loss comb0 target in
      accumulate weight loss rest (F32.add score (F32.mul weight l))
  end.

(** [1.0 / float(n)]. *)
Definition weight_per_layer (n : nat) : result spec_float :=
  if (n =? 0)%nat then Raise ZeroDivisionError
  else Ok (F64.div (F64.of_Z 1) (F64.of_Z (Z.of_nat n))).

Definition compute_loss (self : ImageConverter) (model : keras_model)
  (loss_weights : spec_float * spec_float) (init_image : ndarray)
  (gram_style_features content_features : list ndarray)
  : result (float32 * float32 * float32) :=
  let (style_weight, content_weight) := loss_weights in
  let? model_outputs := model init_image in
  let style_output_features := firstn (num_style_layers self) model_outputs in
  let content_output_features := skipn (num_style_layers self) model_outputs in
  let style_score := F32.of_Z 0 in
  let content_score := F32.of_Z 0 in
  (* Accumulate style losses from all layers *)
  let? weight_per_style_layer := weight_per_layer (num_style_layers self) in
  let? style_score :=
    accumulate (F32.of_float weight_per_style_layer) style_loss
      (combine gram_style_features style_output_features) style_score in
  (* Accumulate content losses from all layers *)
  let? weight_per_content_layer := weight_per_layer (num_content_layers self) in
  let? content_score :=
    accumulate (F32.of_float weight_per_content_layer) content_loss
      (combine content_features content_output_features) content_score in
  let style_score := F32.mul style_score (F32.of_float style_weight) in
  let content_score := F32.mul content_score (F32.of_float content_weight) in
  (* Get total loss *)
  let loss := F32.add style_score content_score in
  Ok (loss, style_score, content_score).

(** ** GradientDescentEngine *)

Definition run_gradient_descent (B : Backend) (self : ImageConverter)
  (model : keras_model) (content_path style_path : string)
  : M (list ndarray * list ndarray) :=
  (* Load our images in *)
  content_image <- _load_and_process_img B self content_path ;;
  style_image <- _load_and_process_img B self style_path ;;
  (* batch compute content and style features *)
  style_outputs <- lift (model style_image) ;;
  content_outputs <- lift (model content_image) ;;
  style_features <-
    lift (mapM index0 (firstn (num_style_layers self) style_outputs)) ;;
  content_features <-
    lift (mapM index0 (skipn (num_style_layers self) content_outputs)) ;;
  ret (style_features, content_features).

(** The dictionary [cfg]: [init_image] is the variable itself, shared
    with the loop that updates it. *)
Record cfg : Type :=
  { model : keras_model;
    loss_weights : spec_float * spec_float;
    init_image : variable;
    gram_style_features : list ndarray;
    content_features : list ndarray }.

(** The total loss as a function of the value of the watched variable:
    what the gradient tape records in [compute_grads]. *)
Definition total_loss_of (self : ImageConverter) (c : cfg) (x : ndarray)
  : result float32 :=
  let? all_loss := compute_loss self (model c) (loss_weights c) x
                     (gram_style_features c) (content_features c) in
  Ok (fst (fst all_loss)).

Definition compute_grads (B : Backend) (self : ImageConverter) (c : cfg)
  : M (ndarray * (float32 * float32 * float32)) :=
  x <- read_value (init_image c) ;;
  all_loss <- lift (compute_loss self (model c) (loss_weights c) x
                      (gram_style_features c) (content_features c)) ;;
  (* Compute gradients wrt input image *)
  grads <- lift (tape_gradient B (total_loss_of self c) x) ;;
  ret (grads, all_loss).

(** [opt.apply_gradients([(grads, v)])]: the variable is updated in
    place. *)
Definition apply_gradients (B : Backend) (opt : slots B) (grads : ndarray)
  (v : variable) : M (slots B) :=
  x <- read_value v ;;
  r <- lift (adam_step B opt grads x) ;;
  _ <- write_buffer v (snd r) ;;
  ret (fst r).

(** [x < y ? x : y] and [x < y ? y : x] as the backend evaluates
    [tf.minimum] and [tf.maximum] on an element [x] and a bound [y] that
    is a number: a NaN element stays. *)
Definition tf_minimum (x y : float32) : float32 := if F32.ltb y x then y else x.
Definition tf_maximum (x y : float32) : float32 := if F32.ltb x y then y else x.

(** [tf.clip_by_value(t, lo, hi)] for bounds along the last axis; the
    result must have the shape of [t]. *)
Definition clip_by_value (t : ndarray) (clip_value_min clip_value_max : list spec_float)
  : result ndarray :=
  if ((last_axis t =? length clip_value_min) &&
      (last_axis t =? length clip_value_max))%nat
  then
    let bounds := combine (map F32.of_float clip_value_min)
                    (map F32.of_float clip_value_max) in
    Ok {| shape := shape t;
          data := map_pixels (last_axis t)
                    (fun px => map (fun p => tf_maximum
                                               (tf_minimum (fst p) (snd (snd p)))
                                               (fst (snd p)))
                                 (combine px bounds))
                    (data t) |}
  else Raise BackendError.

(** The local variables of [run_style_transfer] that the loop reads. *)
Record locals : Type :=
  { l_cfg : cfg;
    display_interval : spec_float;
    min_vals : list spec_float;
    max_vals : list spec_float }.

(** The local variables the loop reassigns. *)
Record loop_state (B : Backend) : Type :=
  { opt : slots B;
    best_loss : float32;
    best_img : option uint8_array;
    imgs : list uint8_array }.

Arguments opt {B} _.
Arguments best_loss {B} _.
Arguments best_img {B} _.
Arguments imgs {B} _.

Definition content_weight_default : spec_float := F64.of_Z 1000.
Definition style_weight_default : spec_float := F64.lit 1 100.

Definition norm_means : list spec_float := mean_literals.

(** Lines 172-204 of [run_style_transfer]: everything before the loop. *)
Definition run_style_transfer_setup (B : Backend) (self : ImageConverter)
  (content_weight style_weight : spec_float) : M (locals * loop_state B) :=
  model <- lift (_get_model B self) ;;
  (* Get the style and content feature representations *)
  features <- run_gradient_descent B self model (content_path self)
                (style_path self) ;;
  gram_style_features <- lift (mapM gram_matrix (fst features)) ;;
  (* Set initial image *)
  init_image <- _load_and_process_img B self (content_path self) ;;
  init_image <- tfe_Variable init_image ;;
  (* Create our optimizer *)
  let opt := new_slots B {| learning_rate := F64.of_Z 5;
                            beta1 := F64.lit 99 100;
                            epsilon := F64.lit 1 10 |} in
  (* Store our best result *)
  let best_loss := F32.inf in
  let best_img := None in
  let loss_weights := (style_weight, content_weight) in
  let cfg := {| model := model;
                loss_weights := loss_weights;
                init_image := init_image;
                gram_style_features := gram_style_features;
                content_features := snd features |} in
  (* For displaying *)
  let num_rows := 2 in
  let num_cols := 5 in
  display_interval <- lift (py_truediv (iteration self) (num_rows * num_cols)) ;;
  let min_vals := map (SFopp) norm_means in
  let max_vals := map (F64.sub (F64.of_Z 255)) norm_means in
  let imgs := [] in
  ret ({| l_cfg := cfg; display_interval := display_interval;
          min_vals := min_vals; max_vals := max_vals |},
       {| opt := opt; best_loss := best_loss; best_img := best_img;
          imgs := imgs |}).

(** Lines 206-223: the body of [for i in range(self.iteration)]. *)
Definition run_style_transfer_iteration (B : Backend) (self : ImageConverter)
  (L : locals) (i : nat) (s : loop_state B) : M (loop_state B) :=
  let init_image := init_image (l_cfg L) in
  _ <- set_cur_iter (Z.of_nat i) ;;
  _ <- emit (EvPrint i) ;;
  r <- compute_grads B self (l_cfg L) ;;
  let grads := fst r in
  let loss := fst (fst (snd r)) in
  opt <- apply_gradients B (opt s) grads init_image ;;
  x <- read_value init_image ;;
  clipped <- lift (clip_by_value x (min_vals L) (max_vals L)) ;;
  _ <- assign init_image clipped ;;
  best <-
    (if F32.ltb loss (best_loss s)
     then
       (* Update best loss and best image from total loss. *)
       x <- read_value init_image ;;
       img <- lift (_deprocess_img (py_debug B) x) ;;
       ret (loss, Some img)
     else ret (best_loss s, best_img s)) ;;
  due <- lift (py_mod_is_zero (Z.of_nat i) (display_interval L)) ;;
  imgs <-
    (if due : bool
     then
       plot_img <- read_value init_image ;;
       plot_img <- lift (_deprocess_img (py_debug B) plot_img) ;;
       ret (imgs s ++ [plot_img])
     else ret (imgs s)) ;;
  ret {| opt := opt; best_loss := fst best; best_img := snd best;
         imgs := imgs |}.

(** The loop run for the indices of [range(n)]. *)
Definition run_style_transfer_loop (B : Backend) (self : ImageConverter)
  (L : locals) (n : nat) (s : loop_state B) : M (loop_state B) :=
  for_each (run_style_transfer_iteration B self L) (seq 0 n) s.

Definition run_style_transfer (B : Backend) (self : ImageConverter)
  (content_weight style_weight : spec_float) : M (option uint8_array) :=
  r <- run_style_transfer_setup B self content_weight style_weight ;;
  s <- run_style_transfer_loop B self (fst r) (Z.to_nat (iteration self)) (snd r) ;;
  ret (best_img s).

(** ** Observations used in the statements *)

(** The total loss of the iteration that starts in world [w]: the loss
    of the current value of the trainable image. *)
Definition iteration_loss (self : ImageConverter) (L : locals) (w : world)
  : result float32 :=
  match nth_error (variables w) (init_image (l_cfg L)) with
  | Some x => total_loss_of self (l_cfg L) x
  | None => Raise BackendError
  end.

(** The bounds of the clip for channel [c], as the float32 numbers the
    backend compares with. *)
Definition clip_lo (c : nat) : float32 :=
  F32.of_float (SFopp (nth c norm_means F32.zero)).

Definition clip_hi (c : nat) : float32 :=
  F32.of_float (F64.sub (F64.of_Z 255) (nth c norm_means F32.zero)).

(** The errors that report a tensor of the wrong shape. *)
Definition shape_error (e : exn) : Prop := e = AssertionError \/ e = ValueError.

(** The total loss as the specification words it: the losses of the
    layers, one per pair of a target and an output of the network. *)
Definition layer_losses (loss : ndarray -> ndarray -> result float32)
  (targets outputs : list ndarray) : result (list float32) :=
  mapM (fun p => let? out0 := index0 (snd p) in loss out0 (fst p))
    (combine targets outputs).

(** The sum of the losses, each with the same weight, added from the
    left. *)
Definition weighted_average (weight : float32) (losses : list float32) : float32 :=
  fold_left (fun acc l => F32.add acc (F32.mul weight l)) losses (F32.of_Z 0).

(** The equal weight of each of [num_layers] layers: the float
    [1/num_layers], as a float32 tensor. *)
Definition equal_weight (num_layers : nat) : float32 :=
  F32.of_float (F64.lit 1 (Z.of_nat num_layers)).

(** The total loss in the words of the specification: the style losses
    of the first [num_style_layers] outputs, each weighted
    [1/num_style_layers], times [style_weight], plus the content losses
    of the other outputs, each weighted [1/num_content_layers], times
    [content_weight]. *)
Definition total_loss (self : ImageConverter) (model : keras_model)
  (loss_weights : spec_float * spec_float) (init_image : ndarray)
  (gram_style_features content_features : list ndarray)
  : result (float32 * float32 * float32) :=
  let? outputs := model init_image in
  let? style_losses :=
    layer_losses style_loss gram_style_features
      (firstn (num_style_layers self) outputs) in
  let? content_losses :=
    layer_losses content_loss content_features
      (skipn (num_style_layers self) outputs) in
  let style_component :=
    F32.mul (weighted_average (equal_weight (num_style_layers self)) style_losses)
      (F32.of_float (fst loss_weights)) in
  let content_component :=
    F32.mul
      (weighted_average (equal_weight (num_content_layers self)) content_losses)
      (F32.of_float (snd loss_weights)) in
  Ok (F32.add style_component content_component, style_component,
      content_component).

(** Whether a float is a zero, of either sign. *)
Definition is_zero (x : spec_float) : bool :=
  match x with
  | S754_zero _ => true
  | _ => false
  end.

(** The magnitude of a number [m * 2^e]: the exponent [k] of the least
    power of two above it, [2^(k-1) <= m * 2^e < 2^k]; for a zero, the
    smallest exponent of float32, below the magnitude of every
    number. *)
Definition magnitude (x : spec_float) : Z :=
  match x with
  | S754_finite _ m e => Zpos (digits2_pos m) + e
  | _ => emin F32.prec F32.emax
  end.

(** A zero, or a number below [2^k] in magnitude. *)
Definition below_pow2 (k : Z) (x : spec_float) : Prop :=
  match x with
  | S754_zero _ => True
  | S754_finite _ m e => Zpos (digits2_pos m) + e <= k
  | _ => False
  end.

(** A float32 number whose exponent is not below the smallest one of
    the format, as every result of a float32 operation is. *)
Definition above_emin (x : float32) : Prop :=
  match x with
  | S754_finite _ _ e => emin F32.prec F32.emax <= e
  | _ => True
  end.

(** The squares [(a - b)^2] of the differences of the entries of two
    arrays, in float32: what [style_loss] and [content_loss] average. *)
Definition squared_differences (a b : ndarray) : list float32 :=
  map (fun p => F32.mul (F32.sub (fst p) (snd p)) (F32.sub (fst p) (snd p)))
    (combine (data a) (data b)).

(** The squares add up to a positive number whose quotient by their
    count is too small for float32 and rounds to zero. *)
Definition mean_underflows (squares : list float32) : Prop :=
  exists m e,
    sum32 squares = S754_finite false m e /\
    F32.div (S754_finite false m e) (F32.of_Z (Z.of_nat (length squares)))
    = F32.zero.

(** What the program needs of the network: on every batch of one image
    of [h] rows, [w] columns and three channels, each of the layers
    [names] returns an activation with a batch axis of one followed by
    the axes [feature_shape] of that layer, at least one. *)
Definition regular_network (vgg : string -> ndarray -> result ndarray)
  (names : list string) (h w : nat) (feature_shape : string -> list nat) : Prop :=
  forall (name : string) (x : ndarray),
    In name names -> shape x = [1; h; w; 3]%nat ->
    feature_shape name <> [] /\
    exists y, vgg name x = Ok y /\ shape y = 1%nat :: feature_shape name.

(** For a network that is regular on [names]: an activation of the
    layer [name], a feature map of it (the activation without its batch
    axis) and a Gram matrix of it, each by its shape. *)
Definition is_activation (names : list string)
  (feature_shape : string -> list nat) (name : string) (y : ndarray) : Prop :=
  In name names /\ shape y = 1%nat :: feature_shape name.

Definition is_feature (names : list string)
  (feature_shape : string -> list nat) (name : string) (y : ndarray) : Prop :=
  In name names /\ shape y = feature_shape name.

Definition is_gram (feature_shape : string -> list nat) (name : string)
  (y : ndarray) : Prop :=
  shape y = [last (feature_shape name) 0%nat; last (feature_shape name) 0%nat].

(** The value [e] that the clip to [lo, hi] gives for the element [a]:
    the upper bound for an element above it, the lower bound for an
    element below it, the element itself in every other case (a NaN is
    neither above nor below a bound). *)
Definition clipped_to (lo hi a e : float32) : Prop :=
  (F32.ltb hi a = true -> e = hi) /\
  (F32.ltb a lo = true -> e = lo) /\
  (F32.ltb hi a = false -> F32.ltb a lo = false -> e = a).

(** The side of length [side] after the resize to [max_dim], for an image
    whose longer side is [long]. *)
Definition scaled_side (side long max_dim : Z) : result Z :=
  let? scale := py_truediv max_dim long in
  py_round (F64.mul (F64.of_Z side) scale).

(** A number that is positive or negative as [s] says: not a zero and not
    a NaN. *)
Definition is_number_of_sign (s : bool) (x : spec_float) : Prop :=
  match x with
  | S754_finite s' _ _ | S754_infinity s' => s' = s
  | _ => False
  end.

(** A key that orders the numbers as [SFcompare] does. *)
Definition key (x : spec_float) : Z * Z * Z :=
  match x with
  | S754_nan => (0, 0, 0)
  | S754_infinity true => (-2, 0, 0)
  | S754_infinity false => (2, 0, 0)
  | S754_zero _ => (0, 0, 0)
  | S754_finite true m e => (-1, - e, Zneg m)
  | S754_finite false m e => (1, e, Zpos m)
  end.

Definition lex3 (a b : Z * Z * Z) : comparison :=
  match fst (fst a) ?= fst (fst b) with
  | Eq => match snd (fst a) ?= snd (fst b) with
          | Eq => snd a ?= snd b
          | c => c
          end
  | c => c
  end.

(** Structural equality of two numbers. *)
Definition same_float (x y : spec_float) : bool :=
  match x, y with
  | S754_zero s, S754_zero s' => Bool.eqb s s'
  | S754_infinity s, S754_infinity s' => Bool.eqb s s'
  | S754_nan, S754_nan => true
  | S754_finite s m e, S754_finite s' m' e' =>
      Bool.eqb s s' && Pos.eqb m m' && Z.eqb e e'
  | _, _ => false
  end.

(** The paths opened, in order. *)
Definition opened (l : list event) : list string :=
  flat_map (fun e => match e with EvOpen p => [p] | EvPrint _ => [] end) l.

(** One pixel through preprocessing and through postprocessing. *)
Definition sub_means (px : list float32) : list float32 :=
  on_nth 2 (fun a => F32.sub a (mean32 2))
    (on_nth 1 (fun a => F32.sub a (mean32 1))
       (on_nth 0 (fun a => F32.sub a (mean32 0)) px)).

Definition add_means (px : list float32) : list float32 :=
  on_nth 2 (fun a => F32.add a (mean32 2))
    (on_nth 1 (fun a => F32.add a (mean32 1))
       (on_nth 0 (fun a => F32.add a (mean32 0)) px)).

Definition is_pixel_value (a : float32) : Prop :=
  exists z, 0 <= z <= 255 /\ a = F32.of_Z z.

Definition channel_round_trip (c : nat) (z : nat) : bool :=
  same_float
    (F32.add (F32.sub (F32.of_Z (Z.of_nat z)) (mean32 c)) (mean32 c))
    (F32.of_Z (Z.of_nat z)).

Definition cast_round_trip (z : nat) : bool :=
  let a := F32.of_Z (Z.of_nat z) in
  same_float (np_clip (F32.of_Z 0) (F32.of_Z 255) a) a &&
  (to_uint8 a =? Z.of_nat z).

(** 64 as a Python float. *)
Definition f64_64 : spec_float := S754_finite false 4503599627370496 (-46).

(** ** Further observations *)

(** NaN, or a number or a zero whose sign bit is clear. *)
Definition not_negative (x : spec_float) : bool :=
  match x with
  | S754_nan => true
  | S754_zero s | S754_infinity s | S754_finite s _ _ => negb s
  end.

(** Equal up to the sign. *)
Definition same_magnitude (x y : spec_float) : Prop := SFabs x = SFabs y.

(** A computation whose final world, whatever the outcome, is related to
    the initial one. *)
Definition respects (R : world -> world -> Prop) {A : Type} (c : M A) : Prop :=
  forall w, R w (snd (c w)).

(** The attribute [cur_iter] and the trace are as they were. *)
Definition same_trace (w w' : world) : Prop :=
  cur_iter w' = cur_iter w /\ events w' = events w.

(** The loss of iteration [j] is defined and is [lj]. *)
Definition loss_at (B : Backend) (self : ImageConverter) (L : locals)
  (s0 : loop_state B) (w0 : world) (j : nat) (lj : float32) : Prop :=
  exists sj wj,
    run_style_transfer_loop B self L j s0 w0 = (Ok sj, wj) /\
    iteration_loss self L wj = Ok lj.

(** Iteration [i] has the loss [loss] and leaves a trainable image whose
    postprocessing is [img]. *)
Definition stored_at (B : Backend) (self : ImageConverter) (L : locals)
  (s0 : loop_state B) (w0 : world) (i : nat) (loss : float32)
  (img : uint8_array) : Prop :=
  exists si wi si' wi' x,
    run_style_transfer_loop B self L i s0 w0 = (Ok si, wi) /\
    run_style_transfer_loop B self L (S i) s0 w0 = (Ok si', wi') /\
    iteration_loss self L wi = Ok loss /\
    nth_error (variables wi') (init_image (l_cfg L)) = Some x /\
    _deprocess_img (py_debug B) x = Ok img.

(** One pixel of the network's tensor, [b; g; r] less the means, as the
    bytes of the image. *)
Definition decode_pixel (px : list float32) : list Z :=
  map (fun a => to_uint8 (np_clip (F32.of_Z 0) (F32.of_Z 255) a))
    (rev (add_means px)).

(** 1.0 as a Python float. *)
Definition f64_1 : spec_float := S754_finite false 4503599627370496 (-52).

(** ** A small executable backend

    Used to run the program on concrete inputs: three files, a resize
    that fills the requested size with the top-left pixel, a network whose
    every layer returns the first two values of its input, a constant
    gradient and an optimizer that takes a plain gradient step. *)

Module Toy.

Definition solid (w h : nat) (px : list Z) : pil_image :=
  {| width := w; height := h; bands := length px;
     pixels := concat (repeat px (h * w)) |}.

Definition checkerboard (w h : nat) : pil_image :=
  {| width := w; height := h; bands := 3;
     pixels :=
       flat_map (fun y =>
         flat_map (fun x =>
           if Nat.even (x / 8 + y / 8) then [255; 255; 255] else [0; 0; 0])
           (seq 0 w))
         (seq 0 h) |}.

Definition open (path : string) : result pil_image :=
  if String.eqb path "content.png" then Ok (solid 64 64 [200; 100; 50])
  else if String.eqb path "style.png" then Ok (checkerboard 64 64)
  else if String.eqb path "pixel.png" then Ok (solid 1 1 [10; 20; 30])
  else Raise IOError.

Definition resize (img : pil_image) (w h : Z) : result (list Z) :=
  if (w <=? 0) || (h <=? 0) then Raise ValueError
  else Ok (concat (repeat (firstn (bands img) (pixels img))
                     (Z.to_nat h * Z.to_nat w))).

Definition layer (features : list float32) (name : string) (x : ndarray)
  : result ndarray :=
  Ok {| shape := [1; 1; 1; 2]%nat;
        data := match features with
                | [] => firstn 2 (data x)
                | _ => features
                end |}.

Definition gradient (f : ndarray -> result float32) (x : ndarray)
  : result ndarray :=
  Ok {| shape := shape x; data := map (fun _ => F32.of_Z 1) (data x) |}.

Definition step (t : nat) (grads x : ndarray) : result (nat * list float32) :=
  Ok (S t, map (fun p => F32.sub (fst p) (snd p))
             (combine (data x) (data grads))).

(** The backend whose layers return [features] when that list is not
    empty. *)
Definition backend_with (features : list float32) : Backend :=
  {| py_debug := true;
     Image_open := open;
     Image_resize := resize;
     VGG19 := Ok (layer features);
     tape_gradient := gradient;
     slots := nat;
     new_slots := fun _ => O;
     adam_step := step |}.

Definition backend : Backend := backend_with [].

(** A backend on which every loss is NaN. *)
Definition nan_backend : Backend := backend_with [F32.nan; F32.nan].

Definition start : world := {| cur_iter := 0; variables := []; events := [] |}.

(** The value of a call known to return. *)
Definition get {A : Type} (default : A) (r : result A) : A :=
  match r with
  | Ok a => a
  | Raise _ => default
  end.

(** Whether a call returned. *)
Definition returns {A : Type} (r : result A) : bool :=
  match r with
  | Ok _ => true
  | Raise _ => false
  end.

Definition no_locals : locals :=
  {| l_cfg := {| model := fun _ => Raise BackendError;
                 loss_weights := (F32.zero, F32.zero);
                 init_image := O;
                 gram_style_features := [];
                 content_features := [] |};
     display_interval := F32.zero;
     min_vals := [];
     max_vals := [] |}.

Definition no_state (B : Backend) : loop_state B :=
  {| opt := new_slots B {| learning_rate := F32.zero; beta1 := F32.zero;
                           epsilon := F32.zero |};
     best_loss := F32.inf; best_img := None; imgs := [] |}.

(** The conversions run below: a one-pixel image resized to 2x2, for
    three iterations and for none, the two 64x64 images kept at their
    size and resized to 128x128, and two different files. *)
Definition small : ImageConverter := __init__ "pixel.png" "pixel.png" 3 2.
Definition idle : ImageConverter := __init__ "pixel.png" "pixel.png" 0 2.
Definition square64 : ImageConverter := __init__ "content.png" "style.png" 5 64.
Definition upscaled : ImageConverter := __init__ "content.png" "style.png" 5 128.
Definition mixed : ImageConverter := __init__ "pixel.png" "style.png" 1 2.

(** The run of a conversion from the empty world, with the default
    weights, and what its setup leaves. *)
Definition run (B : Backend) (self : ImageConverter)
  : result (option uint8_array) * world :=
  run_style_transfer B self content_weight_default style_weight_default start.

Definition setup (B : Backend) (self : ImageConverter)
  : result (locals * loop_state B) * world :=
  run_style_transfer_setup B self content_weight_default style_weight_default
    start.

Definition locals_of (B : Backend) (self : ImageConverter) : locals :=
  fst (get (no_locals, no_state B) (fst (setup B self))).

Definition state_of (B : Backend) (self : ImageConverter) : loop_state B :=
  snd (get (no_locals, no_state B) (fst (setup B self))).

Definition world_of (B : Backend) (self : ImageConverter) : world :=
  snd (setup B self).

(** The loop after [k] iterations. *)
Definition after (B : Backend) (self : ImageConverter) (k : nat)
  : result (loop_state B) * world :=
  run_style_transfer_loop B self (locals_of B self) k (state_of B self)
    (world_of B self).

Definition state_after (B : Backend) (self : ImageConverter) (k : nat)
  : loop_state B :=
  get (no_state B) (fst (after B self k)).

Definition world_after (B : Backend) (self : ImageConverter) (k : nat) : world :=
  snd (after B self k).

(** The trainable image in a world. *)
Definition candidate (self : ImageConverter) (B : Backend) (w : world) : ndarray :=
  nth (init_image (l_cfg (locals_of B self))) (variables w)
    {| shape := []; data := [] |}.

(** What the network returns on the trainable image after the setup. *)
Definition outputs (B : Backend) (self : ImageConverter) : list ndarray :=
  get [] (model (l_cfg (locals_of B self)) (candidate self B (world_of B self))).

(** A feature map of one zero, and a Gram matrix that holds 2^-100. *)
Definition tiny : float32 := S754_finite false 8388608 (-123).
Definition zero_feature : ndarray := {| shape := [1; 1; 1]%nat; data := [F32.zero] |}.
Definition tiny_gram : ndarray := {| shape := [1; 1]%nat; data := [tiny] |}.

(** A feature map of one value, 2^100, whose square overflows. *)
Definition huge_feature : ndarray :=
  {| shape := [1; 1; 1]%nat; data := [S754_finite false 8388608 77] |}.

(** The image a call returned. *)
Definition image (r : result (option uint8_array)) : uint8_array :=
  match r with
  | Ok (Some img) => img
  | _ => {| ushape := []; udata := [] |}
  end.

Definition has_image (r : result (option uint8_array)) : bool :=
  match r with
  | Ok (Some _) => true
  | _ => false
  end.

(** A backend whose files all hold one grey pixel. *)
Definition grey_backend : Backend :=
  {| py_debug := true;
     Image_open := fun _ => Ok (solid 1 1 [128]);
     Image_resize := resize;
     VGG19 := Ok (layer []);
     tape_gradient := gradient;
     slots := nat;
     new_slots := fun _ => O;
     adam_step := step |}.

(** A backend whose optimizer fails at its second step. *)
Definition stalling_backend : Backend :=
  {| py_debug := true;
     Image_open := open;
     Image_resize := resize;
     VGG19 := Ok (layer []);
     tape_gradient := gradient;
     slots := nat;
     new_slots := fun _ => O;
     adam_step := fun t grads x =>
                    if (t =? 1)%nat then Raise BackendError else step t grads x |}.

(** Conversions of files that do not exist, and one with a negative
    number of iterations. *)
Definition no_content : ImageConverter := __init__ "missing.png" "style.png" 1 2.
Definition no_style : ImageConverter := __init__ "pixel.png" "missing.png" 1 2.
Definition backwards : ImageConverter := __init__ "pixel.png" "pixel.png" (-1) 2.

(** Two feature maps of one position and two channels, a feature map of
    two positions, and one pixel of a network tensor. *)
Definition features_a : ndarray :=
  {| shape := [1; 1; 2]%nat; data := [F32.of_Z 1; F32.of_Z 2] |}.
Definition features_b : ndarray :=
  {| shape := [1; 1; 2]%nat; data := [F32.of_Z 3; F32.of_Z 5] |}.
Definition features_c : ndarray :=
  {| shape := [1; 2; 2]%nat;
     data := [F32.of_Z 1; F32.of_Z 2; F32.of_Z 3; F32.of_Z 4] |}.
Definition grey : ndarray :=
  {| shape := [1; 2; 1]%nat; data := [F32.of_Z 1; F32.of_Z 2] |}.
Definition bgr : list float32 := [F32.of_Z 10; F32.of_Z (-200); F32.of_Z 200].

(** A network of six layers that all return their input. *)
Definition echo : keras_model := fun x => Ok (repeat x 6).

(** A feature map without channels. *)
Definition no_channels : ndarray := {| shape := [1; 1; 0]%nat; data := [] |}.

(** A feature map of one position whose two channels hold 1, and a
    matrix of one entry, 1. *)
Definition ones_feature : ndarray :=
  {| shape := [1; 1; 2]%nat; data := [F32.of_Z 1; F32.of_Z 1] |}.
Definition one_gram : ndarray := {| shape := [1; 1]%nat; data := [F32.of_Z 1] |}.

(** A backend whose optimizer writes NaN into the image. *)
Definition diverging_backend : Backend :=
  {| py_debug := true;
     Image_open := open;
     Image_resize := resize;
     VGG19 := Ok (layer []);
     tape_gradient := gradient;
     slots := nat;
     new_slots := fun _ => O;
     adam_step := fun t grads x => Ok (S t, map (fun _ => F32.nan) (data x)) |}.

(** A backend whose files all hold a greyscale image of 64x64. *)
Definition grey64_backend : Backend :=
  {| py_debug := true;
     Image_open := fun _ => Ok (solid 64 64 [128]);
     Image_resize := resize;
     VGG19 := Ok (layer []);
     tape_gradient := gradient;
     slots := nat;
     new_slots := fun _ => O;
     adam_step := step |}.

(** The loss of the first iteration of a conversion. *)
Definition first_loss (B : Backend) (self : ImageConverter)
  : result (float32 * float32 * float32) :=
  compute_loss self (model (l_cfg (locals_of B self)))
    (loss_weights (l_cfg (locals_of B self)))
    (candidate self B (world_of B self))
    (gram_style_features (l_cfg (locals_of B self)))
    (content_features (l_cfg (locals_of B self))).

End Toy.

(** * Properties *)

(** ** Order of floating-point numbers *)

Lemma compare_cont_Eq (a b : positive) :
  PosDef.Pos.compare_cont Eq a b = Pos.compare a b.
Proof. reflexivity. Qed.

Lemma SFcompare_antisym (x y : spec_float) :
  SFcompare y x = option_map CompOpp (SFcompare x y).
Proof.
  destruct x as [sx|sx| |sx mx ex], y as [sy|sy| |sy my ey]; simpl;
    try reflexivity;
    try (destruct sx; reflexivity); try (destruct sy; reflexivity);
    try (destruct sx, sy; reflexivity).
  rewrite !compare_cont_Eq.
  destruct sx, sy; simpl; try reflexivity;
    rewrite (Z.compare_antisym ey ex);
    destruct (ey ?= ex); simpl; try reflexivity;
    rewrite ?(Pos.compare_antisym mx my), ?CompOpp_involutive; reflexivity.
Qed.

Lemma SFcompare_key (x y : spec_float) :
  Float.is_nan x = false -> Float.is_nan y = false ->
  SFcompare x y = Some (lex3 (key x) (key y)).
Proof.
  destruct x as [sx|sx| |sx mx ex], y as [sy|sy| |sy my ey]; simpl;
    intros Hx Hy; try discriminate;
    try (destruct sx; reflexivity); try (destruct sy; reflexivity);
    try (destruct sx, sy; reflexivity).
  rewrite compare_cont_Eq.
  destruct sx, sy; unfold lex3; simpl; try reflexivity.
  rewrite Z.compare_opp, (Z.compare_antisym ex ey).
  destruct (ex ?= ey); reflexivity.
Qed.

Lemma lex3_le_trans (a b c : Z * Z * Z) :
  lex3 a b <> Gt -> lex3 b c <> Gt -> lex3 a c <> Gt.
Proof.
  destruct a as [[a1 a2] a3], b as [[b1 b2] b3], c as [[c1 c2] c3].
  unfold lex3; simpl.
  destruct (Z.compare_spec a1 b1), (Z.compare_spec b1 c1), (Z.compare_spec a1 c1);
    try lia; try congruence;
  destruct (Z.compare_spec a2 b2), (Z.compare_spec b2 c2), (Z.compare_spec a2 c2);
    try lia; try congruence;
  destruct (Z.compare_spec a3 b3), (Z.compare_spec b3 c3), (Z.compare_spec a3 c3);
    try lia; try congruence.
Qed.

Lemma SFleb_key (x y : spec_float) :
  SFleb x y = true <->
  Float.is_nan x = false /\ Float.is_nan y = false /\ lex3 (key x) (key y) <> Gt.
Proof.
  unfold SFleb. split.
  - intros H. destruct (Float.is_nan x) eqn:Hx.
    { destruct x; discriminate. }
    destruct (Float.is_nan y) eqn:Hy.
    { destruct y; try discriminate. destruct x as [ | [] | | ]; discriminate. }
    rewrite (SFcompare_key x y Hx Hy) in H.
    repeat split; trivial. destruct (lex3 (key x) (key y)); congruence.
  - intros (Hx & Hy & H). rewrite (SFcompare_key x y Hx Hy).
    destruct (lex3 (key x) (key y)); congruence.
Qed.

Lemma SFleb_trans (x y z : spec_float) :
  SFleb x y = true -> SFleb y z = true -> SFleb x z = true.
Proof.
  rewrite !SFleb_key. intros (Hx & Hy & H1) (_ & Hz & H2).
  repeat split; trivial. eapply lex3_le_trans; eassumption.
Qed.

Lemma SFleb_refl (x : spec_float) : Float.is_nan x = false -> SFleb x x = true.
Proof.
  intros H. apply SFleb_key. repeat split; trivial.
  destruct (key x) as [[a b] c]. unfold lex3; simpl. rewrite !Z.compare_refl. congruence.
Qed.

Lemma SFltb_leb (x y : spec_float) : SFltb x y = true -> SFleb x y = true.
Proof. unfold SFltb, SFleb. destruct (SFcompare x y) as [[]|]; congruence. Qed.

Lemma SFltb_not_nan (x y : spec_float) :
  SFltb x y = true -> Float.is_nan x = false /\ Float.is_nan y = false.
Proof.
  intros H. apply SFltb_leb in H. apply SFleb_key in H. tauto.
Qed.

Lemma SFltb_false_leb (x y : spec_float) :
  Float.is_nan x = false -> Float.is_nan y = false ->
  SFltb x y = false -> SFleb y x = true.
Proof.
  intros Hx Hy. unfold SFltb, SFleb. rewrite (SFcompare_antisym x y).
  rewrite (SFcompare_key x y Hx Hy). simpl.
  destruct (lex3 (key x) (key y)); simpl; congruence.
Qed.

(** ** Rounding never turns a positive integer into zero *)

Lemma digits2_lower (m : positive) : 2 ^ (Zpos (digits2_pos m) - 1) <= Zpos m.
Proof.
  induction m as [m IH|m IH|]; simpl digits2_pos; try (simpl; lia);
    rewrite Pos2Z.inj_succ;
    replace (Z.succ (Zpos (digits2_pos m)) - 1) with (Z.succ (Zpos (digits2_pos m) - 1)) by lia;
    rewrite Z.pow_succ_r by lia; lia.
Qed.

Lemma shr_1_m (mrs : shr_record) :
  0 <= shr_m mrs -> shr_m (shr_1 mrs) = shr_m mrs / 2.
Proof.
  destruct mrs as [m r s]. cbn [shr_m]. intros H.
  destruct m as [|[p|p|]|p]; unfold shr_1; cbn [shr_m]; try lia; try reflexivity.
  - apply Z.div_unique with (r := 1); lia.
  - apply Z.div_unique with (r := 0); lia.
Qed.

Lemma pow2_xO (n : positive) : 2 ^ Zpos n~0 = 2 ^ Zpos n * 2 ^ Zpos n.
Proof. rewrite <- Z.pow_add_r by lia. f_equal. lia. Qed.

Lemma pow2_xI (n : positive) : 2 ^ Zpos n~1 = 2 * (2 ^ Zpos n * 2 ^ Zpos n).
Proof.
  rewrite <- Z.pow_add_r, <- Z.pow_succ_r by lia. f_equal. lia.
Qed.

Lemma iter_shr_1_m (n : positive) :
  forall mrs, 0 <= shr_m mrs ->
    shr_m (iter_pos shr_1 n mrs) = shr_m mrs / 2 ^ Zpos n.
Proof.
  assert (Hnn : forall mrs, 0 <= shr_m mrs -> 0 <= shr_m (shr_1 mrs)).
  { intros mrs H. rewrite shr_1_m by trivial. apply Z.div_pos; lia. }
  induction n as [n IH|n IH|]; intros mrs H; simpl iter_pos;
    [assert (Hp : 0 < 2 ^ Zpos n) by (apply Z.pow_pos_nonneg; lia) ..|].
  - assert (H1 := Hnn mrs H).
    assert (H2 : 0 <= shr_m (iter_pos shr_1 n (shr_1 mrs))).
    { rewrite IH by trivial. apply Z.div_pos; lia. }
    rewrite IH, IH, shr_1_m by trivial.
    rewrite pow2_xI, !Z.div_div by lia. reflexivity.
  - assert (H2 : 0 <= shr_m (iter_pos shr_1 n mrs)).
    { rewrite IH by trivial. apply Z.div_pos; lia. }
    rewrite IH, IH by trivial.
    rewrite pow2_xO, !Z.div_div by lia. reflexivity.
  - rewrite shr_1_m by trivial. reflexivity.
Qed.

Lemma shr_record_of_loc_m (m : Z) (l : location) : shr_m (shr_record_of_loc m l) = m.
Proof. destruct l as [|[]]; reflexivity. Qed.

Lemma round_nearest_even_ge (m : Z) (l : location) : m <= round_nearest_even m l.
Proof. destruct l as [|[]]; simpl; try lia. destruct (Z.even m); lia. Qed.

Section Rounding.
Variables prec emax : Z.
Hypothesis prec_pos : 1 <= prec.

(** Shifting a mantissa to its format exponent leaves it positive when
    the number is not below the smallest exponent. *)
Lemma shr_fexp_pos (m : positive) (e : Z) (l : location) :
  emin prec emax < e + Zpos (digits2_pos m) ->
  0 < shr_m (fst (shr_fexp prec emax (Zpos m) e l)) /\
  emin prec emax <= snd (shr_fexp prec emax (Zpos m) e l).
Proof.
  intros He. unfold shr_fexp, shr. simpl Zdigits2.
  assert (Hd := digits2_lower m).
  set (d := Zpos (digits2_pos m)) in *.
  assert (Hf : emin prec emax <= fexp prec emax (d + e)) by (unfold fexp; lia).
  destruct (fexp prec emax (d + e) - e) as [|n|n] eqn:Hn; simpl fst; simpl snd.
  - rewrite shr_record_of_loc_m. lia.
  - rewrite iter_shr_1_m by (rewrite shr_record_of_loc_m; lia).
    rewrite shr_record_of_loc_m. split; [|lia].
    apply Z.div_str_pos. split; [apply Z.pow_pos_nonneg; lia|].
    apply Z.le_trans with (2 ^ (d - 1)); trivial.
    apply Z.pow_le_mono_r; [lia|]. unfold fexp in Hn. lia.
  - rewrite shr_record_of_loc_m. lia.
Qed.

Lemma binary_round_aux_number (s : bool) (m : positive) (e : Z) (l : location) :
  emin prec emax < e + Zpos (digits2_pos m) ->
  is_number_of_sign s (binary_round_aux prec emax s (Zpos m) e l).
Proof.
  intros He. unfold binary_round_aux.
  destruct (shr_fexp_pos m e l He) as [H1 H2].
  destruct (shr_fexp prec emax (Zpos m) e l) as [mrs' e']. simpl in H1, H2.
  assert (H3 := round_nearest_even_ge (shr_m mrs') (loc_of_shr_record mrs')).
  destruct (round_nearest_even (shr_m mrs') (loc_of_shr_record mrs')) as [|q|q]; try lia.
  assert (H4 : emin prec emax < e' + Zpos (digits2_pos q)) by lia.
  destruct (shr_fexp_pos q e' loc_Exact H4) as [H5 _].
  destruct (shr_fexp prec emax (Zpos q) e' loc_Exact) as [mrs'' e''].
  simpl in H5. destruct (shr_m mrs''); try lia.
  destruct (e'' <=? emax - prec); reflexivity.
Qed.

Lemma binary_round_number (s : bool) (m : positive) (e : Z) :
  emin prec emax < e + Zpos (digits2_pos m) ->
  is_number_of_sign s (binary_round prec emax s m e).
Proof.
  intros He. unfold binary_round, shl_align.
  set (f := fexp prec emax (Zpos (digits2_pos m) + e)).
  assert (Hf : emin prec emax <= f) by (unfold f, fexp; lia).
  destruct (f - e) eqn:Hfe; apply binary_round_aux_number; lia.
Qed.

End Rounding.

(** A positive count converted to float32 is a positive number. *)
Lemma F32_of_pos_number (n : nat) :
  (0 < n)%nat -> is_number_of_sign false (F32.of_Z (Z.of_nat n)).
Proof.
  intros H. unfold F32.of_Z, Float.of_Z, binary_normalize.
  destruct (Z.of_nat n) eqn:E; try lia.
  apply binary_round_number; [unfold F32.prec; lia|].
  unfold emin, F32.emax, F32.prec. lia.
Qed.

(** ** Running the methods *)

(** *** Inversion of monadic code *)

Lemma bind_ok_inv {A B : Type} (c : M A) (k : A -> M B) (w w' : world) (b : B) :
  bind c k w = (Ok b, w') ->
  exists a w1, c w = (Ok a, w1) /\ k a w1 = (Ok b, w').
Proof.
  unfold bind. destruct (c w) as [[a|e] w1]; intros H; [eauto|discriminate].
Qed.

Lemma rbind_ok_inv {A B : Type} (c : result A) (k : A -> result B) (b : B) :
  rbind c k = Ok b -> exists a, c = Ok a /\ k a = Ok b.
Proof. destruct c as [a|e]; simpl; intros H; [eauto|discriminate]. Qed.

Lemma ret_inv {A : Type} (a b : A) (w w' : world) :
  ret a w = (Ok b, w') -> b = a /\ w' = w.
Proof. unfold ret. intros H. inversion H. auto. Qed.

Lemma lift_inv {A : Type} (r : result A) (a : A) (w w' : world) :
  lift r w = (Ok a, w') -> r = Ok a /\ w' = w.
Proof. unfold lift. intros H. inversion H. auto. Qed.

Lemma read_value_inv (v : variable) (x : ndarray) (w w' : world) :
  read_value v w = (Ok x, w') -> nth_error (variables w) v = Some x /\ w' = w.
Proof.
  unfold read_value. destruct (nth_error (variables w) v); intros H; inversion H; auto.
Qed.

Lemma write_buffer_inv (v : variable) (d : list float32) (u : unit) (w w' : world) :
  write_buffer v d w = (Ok u, w') ->
  exists x, nth_error (variables w) v = Some x /\
    w' = {| cur_iter := cur_iter w;
            variables := set_nth v {| shape := shape x; data := d |} (variables w);
            events := events w |}.
Proof.
  unfold write_buffer. destruct (nth_error (variables w) v) as [x|]; intros H;
    inversion H. eauto.
Qed.

Tactic Notation "bind_inv" hyp(H) "as" ident(a) ident(w) ident(E) :=
  apply bind_ok_inv in H; destruct H as (a & w & E & H).

Tactic Notation "rbind_inv" hyp(H) "as" ident(a) ident(E) :=
  apply rbind_ok_inv in H; destruct H as (a & E & H).

Lemma nth_error_set_nth {A : Type} (l : list A) (n : nat) (a b : A) :
  nth_error l n = Some b -> nth_error (set_nth n a l) n = Some a.
Proof.
  revert n. induction l as [|c l IH]; intros [|n]; simpl; try discriminate; auto.
Qed.

Lemma set_nth_set_nth {A : Type} (l : list A) (n : nat) (a b : A) :
  set_nth n a (set_nth n b l) = set_nth n a l.
Proof.
  revert n. induction l as [|c l IH]; intros [|n]; simpl; try reflexivity.
  rewrite IH. reflexivity.
Qed.

Lemma list_eqb_nat_eq (l1 l2 : list nat) :
  list_eqb Nat.eqb l1 l2 = true -> l1 = l2.
Proof.
  revert l2. induction l1 as [|a l1 IH]; intros [|b l2]; simpl; try discriminate; auto.
  intros H. apply andb_prop in H. destruct H as [H1 H2].
  apply Nat.eqb_eq in H1. f_equal; auto.
Qed.

Lemma list_eqb_nat_refl (l : list nat) : list_eqb Nat.eqb l l = true.
Proof. induction l; simpl; rewrite ?Nat.eqb_refl; auto. Qed.

Lemma clip_by_value_shape (t c : ndarray) (lo hi : list spec_float) :
  clip_by_value t lo hi = Ok c ->
  shape c = shape t /\ last_axis t = length lo /\ last_axis t = length hi.
Proof.
  unfold clip_by_value.
  destruct ((last_axis t =? length lo)%nat && (last_axis t =? length hi)%nat) eqn:E;
    intros H; inversion H. simpl.
  apply andb_prop in E. destruct E as [E1 E2].
  apply Nat.eqb_eq in E1, E2. auto.
Qed.

(** What one completed iteration did. *)
Lemma iteration_inv (B : Backend) (self : ImageConverter) (L : locals) (i : nat)
  (s s' : loop_state B) (w w' : world) :
  run_style_transfer_iteration B self L i s w = (Ok s', w') ->
  exists x all_loss grads o d clipped,
    nth_error (variables w) (init_image (l_cfg L)) = Some x /\
    compute_loss self (model (l_cfg L)) (loss_weights (l_cfg L)) x
      (gram_style_features (l_cfg L)) (content_features (l_cfg L)) = Ok all_loss /\
    tape_gradient B (total_loss_of self (l_cfg L)) x = Ok grads /\
    adam_step B (opt s) grads x = Ok (o, d) /\
    clip_by_value {| shape := shape x; data := d |} (min_vals L) (max_vals L)
      = Ok clipped /\
    w' = {| cur_iter := Z.of_nat i;
            variables := set_nth (init_image (l_cfg L)) clipped (variables w);
            events := events w ++ [EvPrint i] |} /\
    opt s' = o /\
    (if F32.ltb (fst (fst all_loss)) (best_loss s)
     then exists img, _deprocess_img (py_debug B) clipped = Ok img /\
            best_loss s' = fst (fst all_loss) /\ best_img s' = Some img
     else best_loss s' = best_loss s /\ best_img s' = best_img s).
Proof.
  intros H. unfold run_style_transfer_iteration in H.
  set (v := init_image (l_cfg L)) in *.
  bind_inv H as u1 w1 E1. unfold set_cur_iter in E1. inversion E1; subst u1 w1; clear E1.
  bind_inv H as u2 w2 E2. unfold emit in E2. inversion E2; subst u2 w2; clear E2.
  cbn [cur_iter variables events] in H.
  bind_inv H as ga w3 E3. unfold compute_grads in E3. fold v in E3.
  bind_inv E3 as x w4 E4. apply read_value_inv in E4. destruct E4 as [Hx ->].
  cbn [variables] in Hx.
  bind_inv E3 as all_loss w5 E5. apply lift_inv in E5. destruct E5 as [Hloss ->].
  bind_inv E3 as grads w6 E6. apply lift_inv in E6. destruct E6 as [Hgrad ->].
  apply ret_inv in E3. destruct E3 as [-> ->].
  cbn [fst snd] in H.
  bind_inv H as o w7 E7. unfold apply_gradients in E7.
  bind_inv E7 as x' w8 E8. apply read_value_inv in E8. destruct E8 as [Hx' ->].
  cbn [variables] in Hx'. rewrite Hx in Hx'. inversion Hx'; subst x'; clear Hx'.
  bind_inv E7 as od w9 E9. apply lift_inv in E9. destruct E9 as [Hadam ->].
  bind_inv E7 as u3 w10 E10. apply write_buffer_inv in E10.
  destruct E10 as (x' & Hx' & ->).
  cbn [variables cur_iter events] in Hx'. rewrite Hx in Hx'.
  inversion Hx'; subst x'; clear Hx'.
  apply ret_inv in E7. destruct E7 as [-> ->].
  cbn [variables cur_iter events] in H.
  bind_inv H as y w11 E11. apply read_value_inv in E11. destruct E11 as [Hy ->].
  cbn [variables] in Hy. rewrite (nth_error_set_nth _ _ _ _ Hx) in Hy.
  inversion Hy; subst y; clear Hy.
  bind_inv H as clipped w12 E12. apply lift_inv in E12. destruct E12 as [Hclip ->].
  bind_inv H as u4 w13 E13. unfold assign in E13.
  bind_inv E13 as y w14 E14. apply read_value_inv in E14. destruct E14 as [Hy ->].
  cbn [variables] in Hy. rewrite (nth_error_set_nth _ _ _ _ Hx) in Hy.
  inversion Hy; subst y; clear Hy. cbn [shape] in E13.
  destruct (clip_by_value_shape _ _ _ _ Hclip) as (Hshape & _).
  cbn [shape] in Hshape. rewrite Hshape, list_eqb_nat_refl in E13.
  apply write_buffer_inv in E13. destruct E13 as (y & Hy & ->).
  cbn [variables cur_iter events] in Hy, H.
  rewrite (nth_error_set_nth _ _ _ _ Hx) in Hy.
  inversion Hy; subst y; clear Hy. cbn [shape] in H.
  rewrite set_nth_set_nth in H.
  replace {| shape := shape x; data := data clipped |} with clipped in H
    by (destruct clipped; simpl in *; congruence).
  destruct od as [o d]. cbn [fst snd] in *.
  exists x, all_loss, grads, o, d, clipped.
  repeat (split; [eassumption || reflexivity|]).
  set (w1 := {| cur_iter := Z.of_nat i;
                variables := set_nth v clipped (variables w);
                events := events w ++ [EvPrint i] |}) in *.
  assert (Hvar : nth_error (variables w1) v = Some clipped)
    by (eapply nth_error_set_nth; eassumption).
  bind_inv H as best w2 E2.
  assert (Hw : w2 = w1 /\
               (if F32.ltb (fst (fst all_loss)) (best_loss s)
                then exists img, _deprocess_img (py_debug B) clipped = Ok img /\
                       best = (fst (fst all_loss), Some img)
                else best = (best_loss s, best_img s))).
  { destruct (F32.ltb (fst (fst all_loss)) (best_loss s)).
    - bind_inv E2 as y w3 E3. apply read_value_inv in E3. destruct E3 as [Hy ->].
      rewrite Hvar in Hy. inversion Hy; subst y.
      bind_inv E2 as img w4 E4. apply lift_inv in E4. destruct E4 as [Hd ->].
      apply ret_inv in E2. destruct E2 as [-> ->]. eauto.
    - apply ret_inv in E2. destruct E2 as [-> ->]. auto. }
  destruct Hw as [-> Hbest]. clear E2.
  bind_inv H as due w3 E3. apply lift_inv in E3. destruct E3 as [_ ->].
  bind_inv H as imgs' w4 E4.
  assert (Hw : w4 = w1).
  { destruct due.
    - bind_inv E4 as y w5 E5. apply read_value_inv in E5. destruct E5 as [_ ->].
      bind_inv E4 as img w6 E6. apply lift_inv in E6. destruct E6 as [_ ->].
      apply ret_inv in E4. tauto.
    - apply ret_inv in E4. tauto. }
  subst w4. apply ret_inv in H. destruct H as [-> ->].
  cbn [opt best_loss best_img].
  repeat (split; [reflexivity|]).
  destruct (F32.ltb (fst (fst all_loss)) (best_loss s)).
  - destruct Hbest as (img & Hd & ->). eauto.
  - subst best. auto.
Qed.

Lemma iteration_loss_eq (self : ImageConverter) (L : locals) (w : world)
  (x : ndarray) (all_loss : float32 * float32 * float32) :
  nth_error (variables w) (init_image (l_cfg L)) = Some x ->
  compute_loss self (model (l_cfg L)) (loss_weights (l_cfg L)) x
    (gram_style_features (l_cfg L)) (content_features (l_cfg L)) = Ok all_loss ->
  iteration_loss self L w = Ok (fst (fst all_loss)).
Proof.
  intros Hx Hl. unfold iteration_loss, total_loss_of. rewrite Hx, Hl. reflexivity.
Qed.

(** *** The loop *)

Lemma for_each_app {S : Type} (body : nat -> S -> M S) (l1 l2 : list nat) :
  forall (s : S) (w : world),
    for_each body (l1 ++ l2) s w =
    bind (for_each body l1 s) (for_each body l2) w.
Proof.
  induction l1 as [|i l1 IH]; intros s w; simpl.
  - reflexivity.
  - unfold bind in *. destruct (body i s w) as [[s1|e] w1]; [apply IH|reflexivity].
Qed.

Lemma for_each_invariant {S : Type} (body : nat -> S -> M S)
  (P : S -> world -> Prop) :
  (forall i s w s' w', P s w -> body i s w = (Ok s', w') -> P s' w') ->
  forall (range : list nat) (s : S) (w : world) (s' : S) (w' : world),
    P s w -> for_each body range s w = (Ok s', w') -> P s' w'.
Proof.
  intros Hstep range. induction range as [|i range IH]; intros s w s' w' HP H.
  - apply ret_inv in H. destruct H as [-> ->]. exact HP.
  - simpl in H. bind_inv H as s1 w1 E. eauto.
Qed.

Lemma loop_split (B : Backend) (self : ImageConverter) (L : locals)
  (j k : nat) (s sk : loop_state B) (w wk : world) :
  (j <= k)%nat ->
  run_style_transfer_loop B self L k s w = (Ok sk, wk) ->
  exists sj wj,
    run_style_transfer_loop B self L j s w = (Ok sj, wj) /\
    for_each (run_style_transfer_iteration B self L) (seq j (k - j)) sj wj
      = (Ok sk, wk).
Proof.
  intros Hjk H. unfold run_style_transfer_loop in *.
  replace k with (j + (k - j))%nat in H at 1 by lia.
  rewrite seq_app, for_each_app in H. simpl in H.
  bind_inv H as sj wj E. eauto.
Qed.

Lemma loop_events (B : Backend) (self : ImageConverter) (L : locals)
  (range : list nat) :
  forall (s s' : loop_state B) (w w' : world),
    for_each (run_style_transfer_iteration B self L) range s w = (Ok s', w') ->
    events w' = events w ++ map EvPrint range.
Proof.
  induction range as [|i range IH]; intros s s' w w' H.
  - apply ret_inv in H. destruct H as [_ ->]. simpl. rewrite app_nil_r. reflexivity.
  - simpl in H. bind_inv H as s1 w1 E.
    apply IH in H. rewrite H.
    apply iteration_inv in E.
    destruct E as (x & al & g & o & d & c & _ & _ & _ & _ & _ & -> & _).
    simpl. rewrite <- app_assoc. reflexivity.
Qed.

(** *** The setup *)

Lemma load_inv (B : Backend) (self : ImageConverter) (p : string)
  (x : ndarray) (w w' : world) :
  _load_and_process_img B self p w = (Ok x, w') ->
  exists img, load_resized B self p = Ok img /\ process_img img = Ok x /\
    w' = {| cur_iter := cur_iter w; variables := variables w;
            events := events w ++ [EvOpen p] |}.
Proof.
  intros H. unfold _load_and_process_img in H.
  bind_inv H as u w1 E. unfold emit in E. inversion E; subst u w1; clear E.
  apply lift_inv in H. destruct H as [H ->].
  rbind_inv H as img E. eauto.
Qed.

Lemma setup_inv (B : Backend) (self : ImageConverter) (cw sw : spec_float)
  (w w0 : world) (L : locals) (s0 : loop_state B) :
  run_style_transfer_setup B self cw sw w = (Ok (L, s0), w0) ->
  exists img x0,
    load_resized B self (content_path self) = Ok img /\
    process_img img = Ok x0 /\
    init_image (l_cfg L) = length (variables w) /\
    loss_weights (l_cfg L) = (sw, cw) /\
    min_vals L = map SFopp norm_means /\
    max_vals L = map (F64.sub (F64.of_Z 255)) norm_means /\
    py_truediv (iteration self) 10 = Ok (display_interval L) /\
    best_loss s0 = F32.inf /\ best_img s0 = None /\ imgs s0 = [] /\
    w0 = {| cur_iter := cur_iter w;
            variables := variables w ++ [x0];
            events := events w ++ [EvOpen (content_path self);
                                   EvOpen (style_path self);
                                   EvOpen (content_path self)] |}.
Proof.
  intros H. unfold run_style_transfer_setup in H.
  bind_inv H as model w1 E1. apply lift_inv in E1. destruct E1 as [_ ->].
  bind_inv H as features w2 E2. unfold run_gradient_descent in E2.
  bind_inv E2 as ci w3 E3. apply load_inv in E3. destruct E3 as (i1 & _ & _ & ->).
  bind_inv E2 as si w4 E4. apply load_inv in E4. destruct E4 as (i2 & _ & _ & ->).
  cbn [cur_iter variables events] in E2.
  bind_inv E2 as so w5 E5. apply lift_inv in E5. destruct E5 as [_ ->].
  bind_inv E2 as co w6 E6. apply lift_inv in E6. destruct E6 as [_ ->].
  bind_inv E2 as sf w7 E7. apply lift_inv in E7. destruct E7 as [_ ->].
  bind_inv E2 as cf w8 E8. apply lift_inv in E8. destruct E8 as [_ ->].
  apply ret_inv in E2. destruct E2 as [-> ->].
  bind_inv H as grams w9 E9. apply lift_inv in E9. destruct E9 as [_ ->].
  bind_inv H as x0 w10 E10. apply load_inv in E10. destruct E10 as (img & Hl & Hp & ->).
  cbn [cur_iter variables events] in H.
  bind_inv H as v w11 E11. unfold tfe_Variable in E11.
  inversion E11; subst v w11; clear E11.
  cbn [cur_iter variables events] in H.
  bind_inv H as di w12 E12. apply lift_inv in E12. destruct E12 as [Hdi ->].
  apply ret_inv in H. destruct H as [H ->].
  pose proof (f_equal fst H) as HL. pose proof (f_equal snd H) as Hs.
  cbn [fst snd] in HL, Hs. subst L s0. clear H.
  exists img, x0.
  cbn [l_cfg init_image loss_weights min_vals max_vals display_interval
       best_loss best_img imgs].
  repeat (split; [assumption || reflexivity|]).
  rewrite <- !app_assoc. reflexivity.
Qed.

Lemma nth_error_snoc {A : Type} (l : list A) (a : A) :
  nth_error (l ++ [a]) (length l) = Some a.
Proof. induction l; simpl; auto. Qed.

(** *** Vectors along the last axis *)

Lemma chunks_fuel_irrelevant (C : nat) :
  (0 < C)%nat ->
  forall (fuel1 fuel2 : nat) (d : list float32),
    (length d <= fuel1)%nat -> (length d <= fuel2)%nat ->
    chunks_fuel fuel1 C d = chunks_fuel fuel2 C d.
Proof.
  intros HC. induction fuel1 as [|fuel1 IH]; intros fuel2 d H1 H2.
  - destruct d; [destruct fuel2; reflexivity|simpl in H1; lia].
  - destruct d as [|a d]; [destruct fuel2; reflexivity|].
    destruct fuel2 as [|fuel2]; [simpl in H2; lia|].
    cbn [chunks_fuel]. f_equal.
    assert (Hs : (length (skipn C (a :: d)) <= length d)%nat).
    { rewrite length_skipn. cbn [length]. lia. }
    cbn [length] in H1, H2. apply IH; lia.
Qed.

Lemma chunks_fuel_enough (C : nat) (fuel : nat) (d : list float32) :
  (0 < C)%nat -> (length d <= fuel)%nat -> chunks_fuel fuel C d = chunks C d.
Proof.
  intros HC H. unfold chunks. apply chunks_fuel_irrelevant; trivial.
Qed.

Lemma chunks_nil (C : nat) : chunks C [] = [].
Proof. reflexivity. Qed.

Lemma chunks_cons (C : nat) (a : float32) (d : list float32) :
  (0 < C)%nat ->
  chunks C (a :: d) = firstn C (a :: d) :: chunks C (skipn C (a :: d)).
Proof.
  intros HC. unfold chunks at 1. cbn [length chunks_fuel]. f_equal.
  apply chunks_fuel_enough; trivial. rewrite length_skipn. cbn [length]. lia.
Qed.

Lemma map_pixels_nth (C : nat) (f : list float32 -> list float32)
  (g : nat -> float32 -> float32) :
  (0 < C)%nat ->
  (forall px, (length px <= C)%nat -> length (f px) = length px) ->
  (forall px t e, (length px <= C)%nat -> nth_error (f px) t = Some e ->
                  exists a, nth_error px t = Some a /\ e = g t a) ->
  forall (d : list float32) (k : nat) (e : float32),
    nth_error (map_pixels C f d) k = Some e ->
    exists a, nth_error d k = Some a /\ e = g (k mod C)%nat a.
Proof.
  intros HC Hlen Hf d.
  remember (length d) as n eqn:Hn. revert d Hn.
  induction n as [n IH] using lt_wf_ind. intros d Hn k e H.
  destruct d as [|a d].
  - unfold map_pixels in H. rewrite chunks_nil in H. destruct k; discriminate.
  - unfold map_pixels in H. rewrite chunks_cons in H by trivial.
    cbn [map concat] in H.
    fold (map_pixels C f (skipn C (a :: d))) in H.
    set (px := firstn C (a :: d)) in *.
    assert (Hpx : (length px <= C)%nat) by (unfold px; rewrite length_firstn; lia).
    destruct (Nat.lt_ge_cases k (length (f px))) as [Hk|Hk].
    + rewrite nth_error_app1 in H by trivial.
      destruct (Hf px k e Hpx H) as (b & Hb & ->).
      rewrite Hlen in Hk by trivial.
      exists b. split.
      * unfold px in Hb. rewrite nth_error_firstn in Hb.
        destruct (k <? C)%nat eqn:E; [exact Hb|discriminate].
      * rewrite Nat.mod_small by lia. reflexivity.
    + rewrite nth_error_app2 in H by trivial.
      rewrite Hlen in H, Hk by trivial.
      assert (Hfull : length px = C).
      { unfold px in *. rewrite length_firstn in *.
        destruct (Nat.le_gt_cases C (length (a :: d))) as [Hc|Hc]; [lia|].
        rewrite skipn_all2 in H by lia.
        unfold map_pixels in H. rewrite chunks_nil in H.
        destruct (k - Nat.min C (length (a :: d)))%nat; discriminate. }
      rewrite Hfull in H, Hk.
      assert (Hshort : (length (skipn C (a :: d)) < n)%nat).
      { rewrite length_skipn. subst n. cbn [length]. lia. }
      destruct (IH _ Hshort (skipn C (a :: d)) eq_refl (k - C)%nat e H)
        as (b & Hb & ->).
      exists b. split.
      * rewrite nth_error_skipn in Hb. replace (C + (k - C))%nat with k in Hb by lia.
        exact Hb.
      * f_equal. replace k with ((k - C) + 1 * C)%nat at 2 by lia.
        rewrite Nat.Div0.mod_add. reflexivity.
Qed.

(** *** Clipping *)

Lemma clip_element_range (lo hi a : float32) :
  Float.is_nan lo = false -> Float.is_nan hi = false -> F32.leb lo hi = true ->
  let e := tf_maximum (tf_minimum a hi) lo in
  Float.is_nan e = true \/ (F32.leb lo e = true /\ F32.leb e hi = true).
Proof.
  intros Hlo Hhi Hle. unfold tf_maximum, tf_minimum, F32.ltb, F32.leb in *. cbv zeta.
  destruct (Float.is_nan a) eqn:Ha.
  - destruct a; try discriminate. left.
    replace (SFltb hi S754_nan) with false by (destruct hi as [| | |[]]; reflexivity).
    reflexivity.
  - right.
    assert (Hy : Float.is_nan (if SFltb hi a then hi else a) = false /\
                 SFleb (if SFltb hi a then hi else a) hi = true).
    { destruct (SFltb hi a) eqn:E.
      - split; [trivial|apply SFleb_refl; trivial].
      - split; [trivial|apply SFltb_false_leb; trivial]. }
    destruct Hy as [Hy1 Hy2].
    set (y := if SFltb hi a then hi else a) in *.
    destruct (SFltb y lo) eqn:E.
    + split; [apply SFleb_refl; trivial|trivial].
    + split; [apply SFltb_false_leb; trivial|trivial].
Qed.

Lemma clip_bounds_ordered (c : nat) :
  (c < 3)%nat ->
  Float.is_nan (clip_lo c) = false /\ Float.is_nan (clip_hi c) = false /\
  F32.leb (clip_lo c) (clip_hi c) = true.
Proof.
  intros Hc. destruct c as [|[|[|c]]]; try lia; vm_compute; auto.
Qed.

Lemma nth_error_combine {A B : Type} (l1 : list A) (l2 : list B) (n : nat)
  (a : A) (b : B) :
  nth_error (combine l1 l2) n = Some (a, b) ->
  nth_error l1 n = Some a /\ nth_error l2 n = Some b.
Proof.
  revert l2 n. induction l1 as [|x l1 IH]; intros [|y l2] [|n] E; simpl in *;
    try discriminate.
  - inversion E; auto.
  - apply IH; trivial.
Qed.

Lemma clip_by_value_nth (t c : ndarray) (lo hi : list spec_float) :
  (0 < length lo)%nat ->
  clip_by_value t lo hi = Ok c ->
  forall (k : nat) (e : float32),
    nth_error (data c) k = Some e ->
    exists a l h,
      nth_error (data t) k = Some a /\
      nth_error lo (k mod length lo) = Some l /\
      nth_error hi (k mod length lo) = Some h /\
      e = tf_maximum (tf_minimum a (F32.of_float h)) (F32.of_float l).
Proof.
  intros Hpos H k e He.
  destruct (clip_by_value_shape _ _ _ _ H) as (_ & Hlo & Hhi).
  unfold clip_by_value in H.
  rewrite <- Hlo, <- Hhi, !Nat.eqb_refl in H. cbn [andb] in H.
  assert (Hc : data c = map_pixels (last_axis t)
                 (fun px => map (fun p => tf_maximum (tf_minimum (fst p) (snd (snd p)))
                                            (fst (snd p)))
                              (combine px (combine (map F32.of_float lo)
                                             (map F32.of_float hi))))
                 (data t)) by (injection H as H; rewrite <- H; reflexivity).
  rewrite Hc in He. clear H Hc.
  set (bounds := combine (map F32.of_float lo) (map F32.of_float hi)) in He.
  assert (Hb : length bounds = last_axis t).
  { unfold bounds. rewrite length_combine, !length_map. lia. }
  pose (g := fun (t : nat) (a : float32) =>
               match nth_error bounds t with
               | Some b => tf_maximum (tf_minimum a (snd b)) (fst b)
               | None => a
               end).
  apply map_pixels_nth with (g := g) in He.
  - destruct He as (a & Ha & ->). unfold g.
    rewrite <- Hlo.
    assert (Hk : (k mod last_axis t < length bounds)%nat).
    { rewrite Hb. apply Nat.mod_upper_bound. lia. }
    destruct (nth_error bounds (k mod last_axis t)) as [[l h]|] eqn:E.
    + apply nth_error_combine in E. destruct E as [El Eh].
      rewrite nth_error_map in El, Eh.
      destruct (nth_error lo (k mod last_axis t)) as [l'|]; [|discriminate].
      destruct (nth_error hi (k mod last_axis t)) as [h'|]; [|discriminate].
      exists a, l', h'. cbn [fst snd option_map] in *.
      repeat split; congruence.
    + apply nth_error_None in E. lia.
  - lia.
  - intros px Hpx. rewrite length_map, length_combine. lia.
  - intros px i e' Hpx He'. rewrite nth_error_map in He'.
    destruct (nth_error (combine px bounds) i) as [[a b]|] eqn:E; [|discriminate].
    apply nth_error_combine in E. destruct E as [Ea Eb].
    exists a. split; [exact Ea|]. unfold g. rewrite Eb.
    cbn [option_map fst snd] in He'. congruence.
Qed.

Lemma clip_by_value_range (t c : ndarray) :
  clip_by_value t (map SFopp norm_means)
    (map (F64.sub (F64.of_Z 255)) norm_means) = Ok c ->
  forall (k : nat) (e : float32),
    nth_error (data c) k = Some e ->
    exists a, nth_error (data t) k = Some a /\
      e = tf_maximum (tf_minimum a (clip_hi (k mod 3))) (clip_lo (k mod 3)) /\
      (Float.is_nan e = true \/
       (F32.leb (clip_lo (k mod 3)) e = true /\ F32.leb e (clip_hi (k mod 3)) = true)).
Proof.
  intros H k e He.
  assert (Hlen : length (map SFopp norm_means) = 3%nat) by reflexivity.
  destruct (clip_by_value_nth _ _ _ _ ltac:(rewrite Hlen; lia) H k e He)
    as (a & l & h & Ha & Hl & Hh & ->).
  rewrite Hlen in Hl, Hh.
  assert (Hk : (k mod 3 < 3)%nat) by (apply Nat.mod_upper_bound; lia).
  assert (El : F32.of_float l = clip_lo (k mod 3)).
  { unfold clip_lo. rewrite nth_error_map in Hl.
    destruct (nth_error norm_means (k mod 3)) as [m|] eqn:E; [|discriminate].
    assert (En : nth (k mod 3) norm_means F32.zero = m)
      by (apply nth_error_nth; exact E).
    rewrite En. cbn [option_map] in Hl. congruence. }
  assert (Eh : F32.of_float h = clip_hi (k mod 3)).
  { unfold clip_hi. rewrite nth_error_map in Hh.
    destruct (nth_error norm_means (k mod 3)) as [m|] eqn:E; [|discriminate].
    assert (En : nth (k mod 3) norm_means F32.zero = m)
      by (apply nth_error_nth; exact E).
    rewrite En. cbn [option_map] in Hh. congruence. }
  rewrite El, Eh. exists a. split; [exact Ha|]. split; [reflexivity|].
  destruct (clip_bounds_ordered _ Hk) as (H1 & H2 & H3).
  apply clip_element_range; trivial.
Qed.

(** *** Postprocessing *)

Lemma on_channel_shape (c : nat) (f : float32 -> float32) (x y : ndarray) :
  on_channel c f x = Ok y -> shape y = shape x /\ (c < last_axis x)%nat.
Proof.
  unfold on_channel. destruct (c <? last_axis x)%nat eqn:E; intros H; [|discriminate].
  apply Nat.ltb_lt in E. injection H as <-. auto.
Qed.

Lemma deprocess_unclipped_rank (debug : bool) (x : ndarray) :
  length (shape x) <> 3%nat -> length (shape x) <> 4%nat ->
  deprocess_unclipped debug x = Raise (if debug then AssertionError else ValueError).
Proof.
  intros H3 H4. unfold deprocess_unclipped.
  apply Nat.eqb_neq in H3, H4. rewrite H4. cbn [rbind]. rewrite H3.
  destruct debug; reflexivity.
Qed.

Lemma deprocess_unclipped_shape (debug : bool) (x y : ndarray) :
  deprocess_unclipped debug x = Ok y ->
  length (shape y) = 3%nat /\
  (3 <= last_axis y)%nat /\
  (shape x = shape y \/ shape x = 1%nat :: shape y).
Proof.
  unfold deprocess_unclipped. intros H.
  rbind_inv H as x1 E1. rbind_inv H as u1 E2. rbind_inv H as u2 E3.
  rbind_inv H as x2 E4. rbind_inv H as x3 E5. rbind_inv H as x4 E6.
  injection H as <-. cbn [flip_channels shape].
  apply on_channel_shape in E4, E5, E6.
  destruct E4 as [S2 _], E5 as [S3 _], E6 as [S4 L4].
  destruct (length (shape x1) =? 3)%nat eqn:R; [|discriminate E3].
  apply Nat.eqb_eq in R.
  assert (Hs : shape x4 = shape x1) by congruence.
  rewrite Hs.
  split; [exact R|]. split.
  { unfold last_axis in L4. rewrite S3, S2 in L4.
    unfold last_axis, flip_channels. cbn [shape]. rewrite Hs. lia. }
  destruct (length (shape x) =? 4)%nat.
  - unfold squeeze0 in E1. destruct (shape x) as [|[|[|n]] sh]; try discriminate.
    injection E1 as <-. right. reflexivity.
  - injection E1 as <-. left. reflexivity.
Qed.

Lemma deprocess_inv (debug : bool) (x : ndarray) (y : uint8_array) :
  _deprocess_img debug x = Ok y ->
  length (ushape y) = 3%nat /\
  (shape x = ushape y \/ shape x = 1%nat :: ushape y) /\
  last (ushape y) 0%nat = last_axis x /\ (3 <= last_axis x)%nat /\
  Forall (fun z => 0 <= z <= 255) (udata y).
Proof.
  unfold _deprocess_img. intros H. rbind_inv H as u E. injection H as <-.
  apply deprocess_unclipped_shape in E. destruct E as (E1 & E2 & E3).
  cbn [clip_to_uint8 ushape udata].
  assert (El : last (shape u) 0%nat = last_axis x).
  { unfold last_axis. destruct E3 as [->| ->]; [reflexivity|].
    destruct (shape u); [discriminate|reflexivity]. }
  repeat split; auto.
  - unfold last_axis in E2. rewrite <- El. exact E2.
  - apply Forall_forall. intros z Hz. apply in_map_iff in Hz.
    destruct Hz as (a & <- & _). unfold to_uint8.
    pose proof (Z.mod_pos_bound (Float.trunc (np_clip (F32.of_Z 0) (F32.of_Z 255) a)) 256).
    lia.
Qed.

(** Claim C8.  Postprocessing a tensor of rank 2 or of rank 5 raises a
    shape error; more generally every rank other than 3 and 4 raises the
    assertion error (the [ValueError] of line 51 when assertions are
    off), and a call that returns had rank 3, its shape kept, or rank 4
    with a leading axis of size one, which is the only axis removed. *)
Theorem deprocess_rejects_other_ranks (debug : bool) (x : ndarray) :
  ((length (shape x) = 2%nat \/ length (shape x) = 5%nat) ->
   exists e, _deprocess_img debug x = Raise e /\ shape_error e) /\
  (length (shape x) <> 3%nat -> length (shape x) <> 4%nat ->
   _deprocess_img debug x = Raise (if debug then AssertionError else ValueError)) /\
  (forall y, _deprocess_img debug x = Ok y ->
     (length (shape x) = 3%nat /\ ushape y = shape x) \/
     (length (shape x) = 4%nat /\ shape x = 1%nat :: ushape y)).
Proof.
  assert (Hr : length (shape x) <> 3%nat -> length (shape x) <> 4%nat ->
               _deprocess_img debug x
               = Raise (if debug then AssertionError else ValueError)).
  { intros H3 H4. unfold _deprocess_img.
    rewrite deprocess_unclipped_rank by trivial. reflexivity. }
  split; [|split; [exact Hr|]].
  - intros H. exists (if debug then AssertionError else ValueError). split.
    + apply Hr; lia.
    + unfold shape_error. destruct debug; auto.
  - intros y H. apply deprocess_inv in H. destruct H as (H3 & [E|E] & _).
    + left. rewrite E. auto.
    + right. rewrite E. simpl. auto.
Qed.

(** *** The loss *)

Lemma accumulate_spec (weight : float32)
  (loss : ndarray -> ndarray -> result float32)
  (pairs : list (ndarray * ndarray)) :
  forall score,
    accumulate weight loss pairs score =
    let? losses := mapM (fun p => let? out0 := index0 (snd p) in loss out0 (fst p))
                     pairs in
    Ok (fold_left (fun acc l => F32.add acc (F32.mul weight l)) losses score).
Proof.
  induction pairs as [|[target comb] pairs IH]; intros score; simpl.
  - reflexivity.
  - destruct (index0 comb) as [c0|e]; [|reflexivity]. simpl.
    destruct (loss c0 target) as [l|e]; [|reflexivity]. simpl.
    rewrite IH.
    destruct (mapM _ pairs); reflexivity.
Qed.

(** Claim C6.  [compute_loss] returns the triple (total, style
    component, content component) that the specification describes: the
    per-layer style losses, each weighted [1/num_style_layers], added up
    and multiplied by [style_weight]; the per-layer content losses, each
    weighted [1/num_content_layers], added up and multiplied by
    [content_weight]; and their sum.  With at least one layer of each
    kind the two functions agree on every input, errors included; when
    the network returns one output per layer and one target is given per
    layer, the two sums run over all style layers and all content
    layers. *)
Theorem compute_loss_is_weighted_total (self : ImageConverter)
  (model : keras_model) (loss_weights : spec_float * spec_float)
  (init_image : ndarray) (gram_style_features content_features : list ndarray) :
  (1 <= num_style_layers self)%nat ->
  (1 <= num_content_layers self)%nat ->
  compute_loss self model loss_weights init_image gram_style_features
    content_features
  = total_loss self model loss_weights init_image gram_style_features
      content_features /\
  (forall outputs,
      model init_image = Ok outputs ->
      length outputs = (num_style_layers self + num_content_layers self)%nat ->
      length gram_style_features = num_style_layers self ->
      length content_features = num_content_layers self ->
      length (combine gram_style_features
                (firstn (num_style_layers self) outputs))
      = num_style_layers self /\
      length (combine content_features
                (skipn (num_style_layers self) outputs))
      = num_content_layers self).
Proof.
  intros Hs Hc. split.
  - unfold compute_loss, total_loss, layer_losses, weighted_average, equal_weight,
      weight_per_layer, F64.lit.
    destruct loss_weights as [style_weight content_weight]. cbn [fst snd].
    destruct (model init_image) as [outputs|e]; [|reflexivity]. cbn [rbind].
    destruct (num_style_layers self) as [|ns] eqn:Ens; [lia|].
    destruct (num_content_layers self) as [|nc] eqn:Enc; [lia|].
    cbn [Nat.eqb rbind]. rewrite accumulate_spec.
    destruct (mapM _ (combine gram_style_features _)) as [sl|e]; [|reflexivity].
    cbn [rbind]. rewrite accumulate_spec.
    destruct (mapM _ (combine content_features _)) as [cl|e]; reflexivity.
  - intros outputs _ Ho Hg Hcf.
    rewrite !length_combine, length_firstn, length_skipn. lia.
Qed.

(** *** Exact zeros *)

Lemma sub_diag (x : float32) : Float.is_finite x = true -> F32.sub x x = F32.zero.
Proof.
  destruct x as [[]| | |s m e]; intros H; try discriminate; try reflexivity.
  unfold F32.sub, SFsub. rewrite Z.sub_diag. reflexivity.
Qed.

Lemma sum32_zeros (l : list float32) :
  Forall (fun a => a = F32.zero) l -> sum32 l = F32.zero.
Proof.
  unfold sum32. induction 1 as [|a l Ha _ IH]; simpl; [reflexivity|].
  subst a. exact IH.
Qed.

Lemma div_zero_count (n : nat) :
  (0 < n)%nat -> F32.div F32.zero (F32.of_Z (Z.of_nat n)) = F32.zero.
Proof.
  intros H. apply F32_of_pos_number in H.
  destruct (F32.of_Z (Z.of_nat n)) as [| | |s m e]; simpl in H; try contradiction;
    subst; reflexivity.
Qed.

Lemma mean_square_diag (t : ndarray) :
  data t <> [] ->
  Forall (fun a => Float.is_finite a = true) (data t) ->
  (let? d := tensor_sub t t in Ok (reduce_mean (square d))) = Ok F32.zero.
Proof.
  intros Hne Hfin. unfold tensor_sub. rewrite list_eqb_nat_refl. cbn [rbind].
  unfold reduce_mean, square. cbn [data].
  rewrite !length_map, length_combine, Nat.min_id.
  rewrite sum32_zeros.
  - rewrite div_zero_count; [reflexivity|].
    destruct (data t); [congruence|simpl; lia].
  - clear Hne. induction Hfin as [|a l Ha _ IH]; simpl; constructor.
    + cbn [fst snd]. rewrite sub_diag by trivial. reflexivity.
    + apply IH.
Qed.

(** *** The round trip of a pixel *)

Lemma chunks_concat (C : nat) (pxs : list (list float32)) :
  (0 < C)%nat -> Forall (fun px => length px = C) pxs ->
  chunks C (concat pxs) = pxs.
Proof.
  intros HC H. induction H as [|px pxs Hpx _ IH]; [reflexivity|].
  simpl concat. destruct px as [|a px]; [simpl in Hpx; lia|].
  cbn [app]. rewrite chunks_cons by trivial.
  change (a :: px ++ concat pxs) with ((a :: px) ++ concat pxs).
  rewrite firstn_app, skipn_app, Hpx, Nat.sub_diag, firstn_O, skipn_O, app_nil_r.
  rewrite <- Hpx, firstn_all, skipn_all. cbn [app]. rewrite Hpx, IH. reflexivity.
Qed.

Lemma chunks_wf (C n : nat) :
  (0 < C)%nat ->
  forall d : list float32,
    length d = (n * C)%nat ->
    concat (chunks C d) = d /\ Forall (fun px => length px = C) (chunks C d).
Proof.
  intros HC. induction n as [|n IH]; intros d Hd.
  - destruct d; [split; [reflexivity|constructor]|simpl in Hd; lia].
  - destruct d as [|a d]; [simpl in Hd; lia|].
    rewrite chunks_cons by trivial.
    assert (Hs : length (skipn C (a :: d)) = (n * C)%nat).
    { rewrite length_skipn, Hd. simpl. lia. }
    destruct (IH _ Hs) as [H1 H2]. split.
    + cbn [concat]. rewrite H1. apply firstn_skipn.
    + constructor; [|exact H2]. rewrite length_firstn, Hd. simpl. lia.
Qed.

Lemma map_pixels_concat (C : nat) (f : list float32 -> list float32)
  (pxs : list (list float32)) :
  (0 < C)%nat -> Forall (fun px => length px = C) pxs ->
  map_pixels C f (concat pxs) = concat (map f pxs).
Proof. intros HC H. unfold map_pixels. rewrite chunks_concat; trivial. Qed.

Lemma on_nth_length {A : Type} (c : nat) (f : A -> A) (l : list A) :
  length (on_nth c f l) = length l.
Proof. revert c. induction l as [|a l IH]; intros [|c]; simpl; auto. Qed.

Lemma same_float_eq (x y : spec_float) : same_float x y = true -> x = y.
Proof.
  destruct x as [s|s| |s m e], y as [s'|s'| |s' m' e']; simpl; intros H;
    try discriminate; try reflexivity.
  - apply Bool.eqb_prop in H. congruence.
  - apply Bool.eqb_prop in H. congruence.
  - apply andb_prop in H. destruct H as [H He]. apply andb_prop in H.
    destruct H as [Hs Hm]. apply Bool.eqb_prop in Hs. apply Pos.eqb_eq in Hm.
    apply Z.eqb_eq in He. congruence.
Qed.

Lemma round_trips_checked :
  forallb (fun c => forallb (channel_round_trip c) (seq 0 256)) (seq 0 3) = true /\
  forallb cast_round_trip (seq 0 256) = true.
Proof. split; vm_compute; reflexivity. Qed.

Lemma byte_in_range (z : Z) :
  0 <= z <= 255 -> In (Z.to_nat z) (seq 0 256) /\ Z.of_nat (Z.to_nat z) = z.
Proof. intros H. split; [apply in_seq; lia|apply Z2Nat.id; lia]. Qed.

Lemma channel_round_trip_ok (c : nat) (a : float32) :
  (c < 3)%nat -> is_pixel_value a ->
  F32.add (F32.sub a (mean32 c)) (mean32 c) = a.
Proof.
  intros Hc (z & Hz & ->). destruct (byte_in_range z Hz) as [Hn Ez].
  destruct round_trips_checked as [H _].
  rewrite forallb_forall in H. specialize (H c).
  rewrite forallb_forall in H. rewrite <- Ez. apply same_float_eq.
  apply H; [apply in_seq; lia|exact Hn].
Qed.

Lemma cast_round_trip_ok (z : Z) :
  0 <= z <= 255 ->
  np_clip (F32.of_Z 0) (F32.of_Z 255) (F32.of_Z z) = F32.of_Z z /\
  to_uint8 (F32.of_Z z) = z.
Proof.
  intros Hz. destruct (byte_in_range z Hz) as [Hn Ez].
  destruct round_trips_checked as [_ H].
  rewrite forallb_forall in H. specialize (H _ Hn).
  unfold cast_round_trip in H. rewrite Ez in H.
  apply andb_prop in H. destruct H as [H1 H2].
  apply same_float_eq in H1. apply Z.eqb_eq in H2. auto.
Qed.

Lemma pixel_round_trip (px : list float32) :
  (3 <= length px)%nat -> Forall is_pixel_value px ->
  rev (add_means (sub_means (rev px))) = px.
Proof.
  intros Hlen Hpx.
  assert (Hq : Forall is_pixel_value (rev px)).
  { apply Forall_forall. intros a Ha. apply in_rev in Ha.
    rewrite Forall_forall in Hpx. auto. }
  assert (Hl : (3 <= length (rev px))%nat) by (rewrite length_rev; exact Hlen).
  rewrite <- (rev_involutive px) at 2. f_equal.
  destruct (rev px) as [|q0 [|q1 [|q2 r]]]; try (simpl in Hl; lia).
  inversion Hq as [|? ? H0 Hq1]; subst. inversion Hq1 as [|? ? H1 Hq2]; subst.
  inversion Hq2 as [|? ? H2 _]; subst.
  unfold add_means, sub_means. cbn [on_nth].
  rewrite !channel_round_trip_ok by (trivial; lia). reflexivity.
Qed.

Lemma Forall_length_map (C : nat) (f : list float32 -> list float32)
  (pxs : list (list float32)) :
  (forall px, length (f px) = length px) ->
  Forall (fun px => length px = C) pxs ->
  Forall (fun px => length px = C) (map f pxs).
Proof.
  intros Hf H. induction H; simpl; constructor; auto. rewrite Hf. trivial.
Qed.

Lemma on_channel_pixels (c C : nat) (f : float32 -> float32) (x : ndarray)
  (pxs : list (list float32)) :
  last_axis x = C -> (c < C)%nat -> data x = concat pxs ->
  Forall (fun px => length px = C) pxs ->
  on_channel c f x = Ok {| shape := shape x; data := concat (map (on_nth c f) pxs) |}.
Proof.
  intros HC Hc Hd Hpx. unfold on_channel. rewrite HC.
  destruct (Nat.ltb_spec c C) as [_|]; [|lia].
  rewrite Hd, map_pixels_concat by (trivial; lia). reflexivity.
Qed.

Lemma preprocess_input_pixels (C : nat) (x : ndarray) (pxs : list (list float32)) :
  last_axis x = C -> (3 <= C)%nat -> data x = concat pxs ->
  Forall (fun px => length px = C) pxs ->
  preprocess_input x
  = Ok {| shape := shape x;
          data := concat (map (fun px => sub_means (rev px)) pxs) |}.
Proof.
  intros HC H3 Hd Hpx. unfold preprocess_input.
  assert (Hr : Forall (fun px => length px = C) (map (@rev float32) pxs)).
  { apply Forall_length_map; [apply length_rev|exact Hpx]. }
  rewrite (on_channel_pixels 0 C _ (flip_channels x) (map (@rev float32) pxs));
    trivial; try lia.
  2: { unfold flip_channels. cbn [data]. rewrite HC, Hd.
       apply map_pixels_concat; [lia|exact Hpx]. }
  cbn [rbind].
  rewrite (on_channel_pixels 1 C _ _
             (map (on_nth 0 (fun a => F32.sub a (mean32 0)))
                (map (@rev float32) pxs)));
    trivial; try lia.
  2: { apply Forall_length_map; [apply on_nth_length|exact Hr]. }
  cbn [rbind shape].
  rewrite (on_channel_pixels 2 C _ _
             (map (on_nth 1 (fun a => F32.sub a (mean32 1)))
                (map (on_nth 0 (fun a => F32.sub a (mean32 0)))
                   (map (@rev float32) pxs))));
    trivial; try lia.
  2: { repeat (apply Forall_length_map; [apply on_nth_length|]). exact Hr. }
  cbn [rbind shape flip_channels]. rewrite !map_map. reflexivity.
Qed.

Lemma deprocess_unclipped_pixels (debug : bool) (h w C : nat) (x : ndarray)
  (pxs : list (list float32)) :
  shape x = [1; h; w; C]%nat -> (3 <= C)%nat -> data x = concat pxs ->
  Forall (fun px => length px = C) pxs ->
  deprocess_unclipped debug x
  = Ok {| shape := [h; w; C]%nat;
          data := concat (map (fun px => rev (add_means px)) pxs) |}.
Proof.
  intros Hs H3 Hd Hpx. unfold deprocess_unclipped.
  rewrite Hs. cbn [length Nat.eqb]. unfold squeeze0. rewrite Hs. cbn [rbind shape length Nat.eqb negb andb].
  rewrite andb_false_r. cbn [rbind].
  rewrite (on_channel_pixels 0 C _ _ pxs); trivial; try lia.
  cbn [rbind shape].
  rewrite (on_channel_pixels 1 C _ _
             (map (on_nth 0 (fun a => F32.add a (mean32 0))) pxs));
    trivial; try lia.
  2: { apply Forall_length_map; [apply on_nth_length|exact Hpx]. }
  cbn [rbind shape].
  rewrite (on_channel_pixels 2 C _ _
             (map (on_nth 1 (fun a => F32.add a (mean32 1)))
                (map (on_nth 0 (fun a => F32.add a (mean32 0))) pxs)));
    trivial; try lia.
  2: { repeat (apply Forall_length_map; [apply on_nth_length|]). exact Hpx. }
  cbn [rbind shape]. unfold flip_channels. cbn [shape data].
  change (last_axis {| shape := [h; w; C]%nat; data := _ |}) with C.
  rewrite map_pixels_concat; [|lia|].
  2: { repeat (apply Forall_length_map; [apply on_nth_length|]). exact Hpx. }
  rewrite !map_map. reflexivity.
Qed.

(** Postprocessing undoes preprocessing on every array of pixel values. *)
Lemma deprocess_process_img (debug : bool) (img : pil_image) :
  wf_image img -> (3 <= bands img)%nat ->
  exists t,
    process_img img = Ok t /\
    shape t = [1; height img; width img; bands img]%nat /\
    deprocess_unclipped debug t = Ok (img_to_array img) /\
    _deprocess_img debug t
    = Ok {| ushape := [height img; width img; bands img]; udata := pixels img |}.
Proof.
  intros [Hlen Hrange] H3.
  set (C := bands img) in *.
  set (d0 := map F32.of_Z (pixels img)).
  assert (Hd0 : length d0 = ((height img * width img) * C)%nat)
    by (unfold d0; rewrite length_map; exact Hlen).
  destruct (chunks_wf C _ ltac:(lia) d0 Hd0) as [Hcat Hpx].
  set (pxs := chunks C d0) in *.
  assert (Hval : forall px, In px pxs -> Forall is_pixel_value px).
  { intros px Hin. apply Forall_forall. intros a Ha.
    assert (Hina : In a d0) by (rewrite <- Hcat; apply in_concat; eauto).
    unfold d0 in Hina. apply in_map_iff in Hina. destruct Hina as (z & <- & Hz).
    rewrite Forall_forall in Hrange. exists z. auto. }
  exists {| shape := [1; height img; width img; C]%nat;
            data := concat (map (fun px => sub_means (rev px)) pxs) |}.
  split.
  { unfold process_img. rewrite (preprocess_input_pixels C _ pxs); trivial.
    unfold expand_dims0, img_to_array. cbn [data]. symmetry. exact Hcat. }
  split; [reflexivity|].
  assert (Hu : deprocess_unclipped debug
             {| shape := [1; height img; width img; C]%nat;
                data := concat (map (fun px => sub_means (rev px)) pxs) |}
           = Ok (img_to_array img)).
  { rewrite (deprocess_unclipped_pixels debug (height img) (width img) C _
               (map (fun px => sub_means (rev px)) pxs)); trivial.
    - rewrite map_map. unfold img_to_array. fold C. fold d0. do 2 f_equal.
      rewrite <- Hcat. f_equal.
      rewrite <- (map_id pxs) at 2. apply map_ext_in.
      intros px Hin. apply pixel_round_trip; [|auto].
      rewrite Forall_forall in Hpx. rewrite (Hpx px Hin). exact H3.
    - apply Forall_length_map; [|exact Hpx].
      intros px. unfold sub_means. rewrite !on_nth_length. apply length_rev. }
  split; [exact Hu|].
  unfold _deprocess_img. rewrite Hu. cbn [rbind]. unfold clip_to_uint8, img_to_array.
  cbn [shape data]. f_equal. f_equal. rewrite map_map.
  rewrite <- (map_id (pixels img)) at 2. apply map_ext_in.
  intros z Hz. rewrite Forall_forall in Hrange.
  destruct (cast_round_trip_ok z (Hrange z Hz)) as [-> ->]. reflexivity.
Qed.

(** *** The best loss and the best image *)

Lemma iteration_best (B : Backend) (self : ImageConverter) (L : locals) (i : nat)
  (s s' : loop_state B) (w w' : world) :
  run_style_transfer_iteration B self L i s w = (Ok s', w') ->
  exists loss,
    iteration_loss self L w = Ok loss /\
    (if F32.ltb loss (best_loss s)
     then best_loss s' = loss /\ exists img, best_img s' = Some img
     else best_loss s' = best_loss s /\ best_img s' = best_img s).
Proof.
  intros H. apply iteration_inv in H.
  destruct H as (x & al & g & o & d & c & Hx & Hl & _ & _ & _ & _ & _ & Hb).
  exists (fst (fst al)). split; [eapply iteration_loss_eq; eassumption|].
  destruct (F32.ltb (fst (fst al)) (best_loss s)).
  - destruct Hb as (img & _ & H1 & H2). eauto.
  - exact Hb.
Qed.

Lemma best_loss_step (B : Backend) (self : ImageConverter) (L : locals) (i : nat)
  (s s' : loop_state B) (w w' : world) :
  Float.is_nan (best_loss s) = false ->
  run_style_transfer_iteration B self L i s w = (Ok s', w') ->
  Float.is_nan (best_loss s') = false /\
  F32.leb (best_loss s') (best_loss s) = true.
Proof.
  intros Hn H. apply iteration_best in H. destruct H as (l & _ & H).
  destruct (F32.ltb l (best_loss s)) eqn:E.
  - destruct H as [-> _]. split; [apply (SFltb_not_nan _ _ E)|apply SFltb_leb, E].
  - destruct H as [-> _]. split; [trivial|apply SFleb_refl, Hn].
Qed.

(** Claim C3.  The run starts with [best_loss] at +infinity and no best
    image; along the loop [best_loss] never increases (after [k]
    iterations it is at most what it was after [j <= k] iterations); and
    an iteration overwrites the best image only when its total loss is
    strictly below the previous [best_loss], which then becomes that
    loss; otherwise both are left as they were. *)
Theorem best_loss_non_increasing (B : Backend) (self : ImageConverter)
  (content_weight style_weight : spec_float) (w w0 : world) (L : locals)
  (s0 : loop_state B) :
  run_style_transfer_setup B self content_weight style_weight w = (Ok (L, s0), w0) ->
  (best_loss s0 = F32.inf /\ best_img s0 = None) /\
  (forall (j k : nat) (sj sk : loop_state B) (wj wk : world),
      (j <= k)%nat ->
      run_style_transfer_loop B self L j s0 w0 = (Ok sj, wj) ->
      run_style_transfer_loop B self L k s0 w0 = (Ok sk, wk) ->
      F32.leb (best_loss sk) (best_loss sj) = true) /\
  (forall (i : nat) (s s' : loop_state B) (wi wi' : world),
      run_style_transfer_iteration B self L i s wi = (Ok s', wi') ->
      exists loss,
        iteration_loss self L wi = Ok loss /\
        (if F32.ltb loss (best_loss s)
         then best_loss s' = loss /\ exists img, best_img s' = Some img
         else best_loss s' = best_loss s /\ best_img s' = best_img s)).
Proof.
  intros Hsetup.
  destruct (setup_inv _ _ _ _ _ _ _ _ Hsetup)
    as (img & x0 & _ & _ & _ & _ & _ & _ & _ & Hbl & Hbi & _).
  split; [auto|]. split; [|intros; eapply iteration_best; eassumption].
  intros j k sj sk wj wk Hjk Hj Hk.
  assert (Hnan : forall n s w, run_style_transfer_loop B self L n s0 w0 = (Ok s, w) ->
                               Float.is_nan (best_loss s) = false).
  { intros n s w1 H.
    apply (for_each_invariant _ (fun s _ => Float.is_nan (best_loss s) = false))
      with (3 := H).
    - intros i s1 w2 s2 w3 HP Hs. eapply best_loss_step; eassumption.
    - rewrite Hbl. reflexivity. }
  destruct (loop_split _ _ _ j k _ _ _ _ Hjk Hk) as (sj' & wj' & Hj' & Hrest).
  rewrite Hj in Hj'. inversion Hj'; subst sj' wj'; clear Hj'.
  apply (for_each_invariant _
           (fun s _ => Float.is_nan (best_loss s) = false /\
                       F32.leb (best_loss s) (best_loss sj) = true))
    with (3 := Hrest).
  - intros i s1 w2 s2 w3 [HP1 HP2] Hs.
    destruct (best_loss_step _ _ _ _ _ _ _ _ HP1 Hs) as [H1 H2].
    split; [exact H1|]. eapply SFleb_trans; eassumption.
  - split; [eapply Hnan; eassumption|]. apply SFleb_refl. eapply Hnan; eassumption.
Qed.

(** Claim C9.  With an iteration count of 0 the call does what its setup
    does and nothing else: when the setup returns (the images load and
    the feature maps are computed), the call returns [None] and raises
    nothing; an exception can only be one the setup raised. *)
Theorem zero_iterations_return_none (B : Backend) (self : ImageConverter)
  (content_weight style_weight : spec_float) (w : world) :
  iteration self = 0 ->
  run_style_transfer B self content_weight style_weight w =
  match run_style_transfer_setup B self content_weight style_weight w with
  | (Ok _, w0) => (Ok None, w0)
  | (Raise e, w0) => (Raise e, w0)
  end.
Proof.
  intros Hn. unfold run_style_transfer. rewrite Hn. simpl Z.to_nat.
  unfold bind at 1.
  destruct (run_style_transfer_setup B self content_weight style_weight w)
    as [[[L s0]|e] w0] eqn:Hsetup; [|reflexivity].
  destruct (setup_inv _ _ _ _ _ _ _ _ Hsetup)
    as (img & x0 & _ & _ & _ & _ & _ & _ & _ & _ & Hbi & _).
  simpl. unfold bind, ret. simpl. rewrite Hbi. reflexivity.
Qed.

Lemma run_inv (B : Backend) (self : ImageConverter) (cw sw : spec_float)
  (w w' : world) (r : option uint8_array) :
  run_style_transfer B self cw sw w = (Ok r, w') ->
  exists L s0 w0 s',
    run_style_transfer_setup B self cw sw w = (Ok (L, s0), w0) /\
    run_style_transfer_loop B self L (Z.to_nat (iteration self)) s0 w0 = (Ok s', w') /\
    r = best_img s'.
Proof.
  intros H. unfold run_style_transfer in H.
  bind_inv H as r0 w0 E0. destruct r0 as [L s0].
  bind_inv H as s' w1 E1. apply ret_inv in H. destruct H as [-> ->].
  exists L, s0, w0, s'. auto.
Qed.

Lemma opened_prints (l : list nat) : opened (map EvPrint l) = [].
Proof. induction l; simpl; auto. Qed.

(** Claim C2, as amended.  A call that returns has opened the content
    path, the style path and the content path again, in this order, and
    nothing else: the content image is loaded and preprocessed twice
    (once for the feature maps, once to initialise the trainable image),
    the style image once, and all three loads precede the first
    iteration of the loop. *)
Theorem images_loaded_at_setup (B : Backend) (self : ImageConverter)
  (content_weight style_weight : spec_float) (w w' : world)
  (r : option uint8_array) :
  run_style_transfer B self content_weight style_weight w = (Ok r, w') ->
  events w' = events w
              ++ [EvOpen (content_path self); EvOpen (style_path self);
                  EvOpen (content_path self)]
              ++ map EvPrint (seq 0 (Z.to_nat (iteration self))) /\
  opened (events w') = opened (events w)
                       ++ [content_path self; style_path self; content_path self].
Proof.
  intros H. apply run_inv in H.
  destruct H as (L & s0 & w0 & s' & Hsetup & Hloop & _).
  apply setup_inv in Hsetup.
  destruct Hsetup as (img & x0 & _ & _ & _ & _ & _ & _ & _ & _ & _ & _ & ->).
  apply loop_events in Hloop. cbn [events] in Hloop.
  assert (E : events w' = events w
              ++ [EvOpen (content_path self); EvOpen (style_path self);
                  EvOpen (content_path self)]
              ++ map EvPrint (seq 0 (Z.to_nat (iteration self)))).
  { rewrite Hloop, <- app_assoc. reflexivity. }
  split; [exact E|]. rewrite E. unfold opened at 1.
  rewrite !flat_map_app. fold (opened (events w)).
  fold (opened (map EvPrint (seq 0 (Z.to_nat (iteration self))))).
  rewrite opened_prints, app_nil_r. reflexivity.
Qed.

Lemma finite_lt_inf (l : float32) : Float.is_finite l = true -> F32.ltb l F32.inf = true.
Proof. destruct l as [| | |[] ]; simpl; intros H; try discriminate; reflexivity. Qed.

Lemma nan_not_lt (b : float32) : F32.ltb F32.nan b = false.
Proof. reflexivity. Qed.

(** Claim C10.  For a call that returns: if at least one iteration is
    configured and the total loss of the first iteration is finite, the
    result is an image, not [None]; and if the total loss of every
    iteration is NaN, the result is [None] although all the iterations
    were run. *)
Theorem finite_first_loss_gives_image (B : Backend) (self : ImageConverter)
  (content_weight style_weight : spec_float) (w w0 w' : world) (L : locals)
  (s0 : loop_state B) (r : option uint8_array) :
  run_style_transfer_setup B self content_weight style_weight w = (Ok (L, s0), w0) ->
  run_style_transfer B self content_weight style_weight w = (Ok r, w') ->
  (forall loss,
      1 <= iteration self ->
      iteration_loss self L w0 = Ok loss ->
      Float.is_finite loss = true ->
      exists img, r = Some img) /\
  ((forall (k : nat) (sk : loop_state B) (wk : world),
       (k < Z.to_nat (iteration self))%nat ->
       run_style_transfer_loop B self L k s0 w0 = (Ok sk, wk) ->
       iteration_loss self L wk = Ok F32.nan) ->
   r = None /\
   events w' = events w0 ++ map EvPrint (seq 0 (Z.to_nat (iteration self)))).
Proof.
  intros Hsetup Hrun. apply run_inv in Hrun.
  destruct Hrun as (L' & s0' & w0' & s' & Hsetup' & Hloop & ->).
  rewrite Hsetup in Hsetup'. inversion Hsetup'; subst L' s0' w0'; clear Hsetup'.
  destruct (setup_inv _ _ _ _ _ _ _ _ Hsetup)
    as (img & x0 & _ & _ & _ & _ & _ & _ & _ & Hbl & Hbi & _).
  split.
  - intros loss Hn Hloss Hfin.
    unfold run_style_transfer_loop in Hloop.
    destruct (Z.to_nat (iteration self)) as [|n] eqn:En; [lia|].
    simpl in Hloop. bind_inv Hloop as s1 w1 E1.
    assert (H1 : best_img s1 <> None).
    { apply iteration_best in E1. destruct E1 as (l & Hl & Hb).
      rewrite Hloss in Hl. inversion Hl; subst l.
      rewrite Hbl, (finite_lt_inf _ Hfin) in Hb.
      destruct Hb as (_ & i & ->). discriminate. }
    assert (H2 : best_img s' <> None).
    { apply (for_each_invariant _ (fun s _ => best_img s <> None)) with (3 := Hloop);
        [|exact H1].
      intros i s2 w2 s3 w3 HP Hs. apply iteration_best in Hs.
      destruct Hs as (l & _ & Hb). destruct (F32.ltb l (best_loss s2)).
      - destruct Hb as (_ & i' & ->). discriminate.
      - destruct Hb as (_ & ->). exact HP. }
    destruct (best_img s') as [i|]; [eauto|congruence].
  - intros Hnan. split; [|eapply loop_events; exact Hloop].
    assert (H : forall n s wn,
               (n <= Z.to_nat (iteration self))%nat ->
               run_style_transfer_loop B self L n s0 w0 = (Ok s, wn) ->
               best_img s = None).
    { induction n as [|n IH]; intros s wn Hle Hn.
      - apply ret_inv in Hn. destruct Hn as [-> _]. exact Hbi.
      - destruct (loop_split _ _ _ n (S n) _ _ _ _ (Nat.le_succ_diag_r n) Hn)
          as (sn & wn' & Hpre & Hlast).
        replace (S n - n)%nat with 1%nat in Hlast by lia. simpl in Hlast.
        bind_inv Hlast as s1 w1 E1. apply ret_inv in Hlast. destruct Hlast as [-> ->].
        apply iteration_best in E1. destruct E1 as (l & Hl & Hb).
        rewrite (Hnan n sn wn') in Hl by (trivial; lia).
        inversion Hl; subst l. rewrite nan_not_lt in Hb.
        destruct Hb as (_ & ->). apply (IH sn wn'); [lia|exact Hpre]. }
    eapply H; [|exact Hloop]. lia.
Qed.

(** *** The resize arithmetic of a 64x64 image *)

Lemma digits2_iter_xO (m k : positive) :
  digits2_pos (Pos.iter xO m k) = (digits2_pos m + k)%positive.
Proof.
  induction k as [|k IH] using Pos.peano_ind.
  - simpl. lia.
  - rewrite Pos.iter_succ. simpl digits2_pos. rewrite IH. lia.
Qed.

Lemma Zpos_iter_xO (m k : positive) :
  Zpos (Pos.iter xO m k) = Zpos m * 2 ^ Zpos k.
Proof.
  induction k as [|k IH] using Pos.peano_ind.
  - simpl. lia.
  - rewrite Pos.iter_succ, Pos2Z.inj_xO, IH, Pos2Z.inj_succ, Z.pow_succ_r by lia. lia.
Qed.

Lemma fexp64 (x : Z) : -1021 <= x -> fexp 53 1024 x = x - 53.
Proof. intros H. unfold fexp, emin. lia. Qed.

(** A 53-bit mantissa within the exponent range is already rounded. *)
Lemma binary_round_aux_exact (s : bool) (M : positive) (e : Z) :
  digits2_pos M = 53%positive -> -1074 <= e <= 971 ->
  binary_round_aux 53 1024 s (Zpos M) e loc_Exact = S754_finite s M e.
Proof.
  intros Hd He. unfold binary_round_aux, shr_fexp. cbn [Zdigits2]. rewrite Hd.
  rewrite fexp64 by lia.
  replace (53 + e - 53 - e) with 0 by lia. cbn [shr shr_record_of_loc].
  cbn [shr_m loc_of_shr_record round_nearest_even Zdigits2]. rewrite Hd.
  rewrite fexp64 by lia.
  replace (53 + e - 53 - e) with 0 by lia. cbn [shr shr_record_of_loc shr_m].
  destruct (Z.leb_spec e (1024 - 53)); [reflexivity|lia].
Qed.

(** The float of an integer below 2^53: its digits shifted to 53 bits. *)
Lemma of_Z_normal (m : positive) :
  Zpos m < 2 ^ 53 ->
  exists (M : positive) (e : Z),
    F64.of_Z (Zpos m) = S754_finite false M e /\
    digits2_pos M = 53%positive /\ -52 <= e <= 0 /\
    Zpos M = Zpos m * 2 ^ (- e).
Proof.
  intros Hm.
  assert (Hd : Zpos (digits2_pos m) <= 53).
  { pose proof (digits2_lower m) as Hl.
    destruct (Z.le_gt_cases (Zpos (digits2_pos m)) 53) as [|Hgt]; trivial.
    exfalso. assert (2 ^ 53 <= 2 ^ (Zpos (digits2_pos m) - 1))
      by (apply Z.pow_le_mono_r; lia). lia. }
  unfold F64.of_Z, Float.of_Z, binary_normalize, binary_round, F64.prec, F64.emax.
  rewrite fexp64 by lia. unfold shl_align.
  destruct (Zpos (digits2_pos m) + 0 - 53 - 0) as [|k|k] eqn:Ek; try lia.
  - exists m, 0. rewrite binary_round_aux_exact by lia.
    repeat split; try lia.
  - exists (Pos.iter xO m k), (Zpos (digits2_pos m) + 0 - 53).
    assert (Hdk : digits2_pos (Pos.iter xO m k) = 53%positive)
      by (rewrite digits2_iter_xO; lia).
    rewrite binary_round_aux_exact by (trivial; lia).
    repeat split; try lia. rewrite Zpos_iter_xO. do 2 f_equal. lia.
Qed.

Lemma of_Z_64 : F64.of_Z 64 = f64_64.
Proof. reflexivity. Qed.

(** The digits of an integer whose float has the exponent [e]. *)
Lemma digits_of_normal (m M : positive) (e : Z) :
  digits2_pos M = 53%positive -> -52 <= e <= 0 -> Zpos M = Zpos m * 2 ^ (- e) ->
  Zpos (digits2_pos m) = 53 + e.
Proof.
  intros Hd He HM. destruct e as [|k|k]; try lia.
  - simpl in HM. assert (M = m) by lia. subst M. lia.
  - change (- Zneg k) with (Zpos k) in HM. rewrite <- Zpos_iter_xO in HM.
    assert (M = Pos.iter xO m k) by congruence. subst M.
    rewrite digits2_iter_xO in Hd. lia.
Qed.

Lemma div_eucl_pow (M : positive) :
  Z.div_eucl (Zpos M * 2 ^ 7) 64 = (Zpos M~0, 0).
Proof.
  pose proof (Z.div_eucl_eq (Zpos M * 2 ^ 7) 64 ltac:(lia)) as H.
  pose proof (Z.mod_pos_bound (Zpos M * 2 ^ 7) 64 ltac:(lia)) as Hb.
  unfold Z.modulo in Hb.
  destruct (Z.div_eucl (Zpos M * 2 ^ 7) 64) as [q r].
  change (2 ^ 7) with 128 in *.
  assert (q = Zpos M~0 /\ r = 0) as [-> ->] by lia. reflexivity.
Qed.

(** The quotient of an integer below 2^53 by 64 is exact: it is the
    float of the integer with its exponent lowered by 6. *)
Lemma div_by_64 (m M : positive) (e : Z) :
  digits2_pos M = 53%positive -> -52 <= e <= 0 -> Zpos M = Zpos m * 2 ^ (- e) ->
  F64.div (int_operand (Zpos m)) (int_operand 64) = S754_finite false M (e - 6).
Proof.
  intros Hd He HM. pose proof (digits_of_normal m M e Hd He HM) as Hm.
  unfold F64.div, SFdiv, int_operand, SFdiv_core_binary, F64.prec, F64.emax.
  cbn [Zdigits2 xorb]. rewrite Hm.
  change (Zpos (digits2_pos 64)) with 7.
  rewrite fexp64 by lia.
  replace (Z.min (53 + e + 0 - (7 + 0) - 53) (0 - 0)) with (e - 7) by lia.
  replace (0 - 0 - (e - 7)) with (7 - e) by lia.
  destruct (7 - e) as [|p|p] eqn:Es; try lia.
  rewrite Z.shiftl_mul_pow2 by lia. rewrite <- Es.
  replace (Zpos m * 2 ^ (7 - e)) with (Zpos M * 2 ^ 7)
    by (rewrite HM, <- Z.mul_assoc, <- Z.pow_add_r by lia; do 2 f_equal; lia).
  rewrite div_eucl_pow.
  change (new_location 64 0) with loc_Exact.
  unfold binary_round_aux at 1. unfold shr_fexp at 1.
  cbn [Zdigits2 digits2_pos]. rewrite Hd.
  change (Zpos (Pos.succ 53)) with 54.
  rewrite fexp64 by lia.
  replace (54 + (e - 7) - 53 - (e - 7)) with 1 by lia.
  cbn [shr shr_record_of_loc iter_pos shr_1 orb].
  cbn [shr_m loc_of_shr_record round_nearest_even].
  replace (e - 7 + 1) with (e - 6) by lia.
  unfold shr_fexp. cbn [Zdigits2]. rewrite Hd. rewrite fexp64 by lia.
  replace (53 + (e - 6) - 53 - (e - 6)) with 0 by lia.
  cbn [shr shr_record_of_loc shr_m].
  destruct (Z.leb_spec (e - 6) (1024 - 53)); [reflexivity|lia].
Qed.

Lemma shift_52 (M : positive) :
  iter_pos shr_1 52
    {| shr_m := Zpos (4503599627370496 * M); shr_r := false; shr_s := false |}
  = {| shr_m := Zpos M; shr_r := false; shr_s := false |}.
Proof. reflexivity. Qed.

Lemma digits_times_pow52 (M : positive) :
  digits2_pos M = 53%positive ->
  Zpos (digits2_pos (4503599627370496 * M)) = 105.
Proof.
  intros Hd. change (4503599627370496 * M)%positive with (Pos.iter xO M 52).
  rewrite digits2_iter_xO, Hd. reflexivity.
Qed.

Lemma mul_by_64 (M : positive) (e : Z) :
  digits2_pos M = 53%positive -> -52 <= e <= 0 ->
  F64.mul f64_64 (S754_finite false M (e - 6)) = S754_finite false M e.
Proof.
  intros Hd He. unfold F64.mul, SFmul, f64_64, F64.prec, F64.emax. cbn [xorb].
  unfold binary_round_aux at 1. unfold shr_fexp at 1.
  cbn [Zdigits2]. rewrite (digits_times_pow52 M Hd).
  rewrite fexp64 by lia.
  replace (105 + (-46 + (e - 6)) - 53 - (-46 + (e - 6))) with 52 by lia.
  cbn [shr shr_record_of_loc]. rewrite shift_52.
  cbn [shr_m loc_of_shr_record round_nearest_even].
  replace (-46 + (e - 6) + 52) with e by lia.
  unfold shr_fexp. cbn [Zdigits2]. rewrite Hd. rewrite fexp64 by lia.
  replace (53 + e - 53 - e) with 0 by lia.
  cbn [shr shr_record_of_loc shr_m].
  destruct (Z.leb_spec e (1024 - 53)); [reflexivity|lia].
Qed.

Lemma round_integer (M : positive) (e m : Z) :
  -52 <= e <= 0 -> 0 < m -> Zpos M = m * 2 ^ (- e) ->
  py_round (S754_finite false M e) = Ok m.
Proof.
  intros He Hm HM. unfold py_round, round_half_even. cbn [cond_Zopp]. f_equal.
  destruct e as [|p|p]; try lia.
  - rewrite Z.shiftl_0_r. simpl in HM. lia.
  - assert (Hp : 0 < 2 ^ Zpos p) by (apply Z.pow_pos_nonneg; lia).
    change (- Zneg p) with (Zpos p) in HM.
    rewrite Z.shiftr_div_pow2, HM, Z.div_mul by lia.
    rewrite Z.shiftl_mul_pow2 by lia.
    replace (m * 2 ^ Zpos p - m * 2 ^ Zpos p) with 0 by lia.
    rewrite Z.shiftl_mul_pow2 by lia.
    assert (0 < 2 ^ (Zpos p - 1)) by (apply Z.pow_pos_nonneg; lia).
    destruct (Z.ltb_spec 0 (1 * 2 ^ (Zpos p - 1))); [reflexivity|lia].
Qed.

Lemma scaled_side_64 (max_dim : Z) :
  1 <= max_dim < 2 ^ 53 -> scaled_side 64 64 max_dim = Ok max_dim.
Proof.
  intros H. destruct max_dim as [|m|m]; try lia.
  destruct (of_Z_normal m) as (M & e & Hf & Hd & He & HM); [lia|].
  unfold scaled_side, py_truediv. change (64 =? 0) with false. cbv iota.
  rewrite (div_by_64 m M e Hd He HM). cbn [rbind].
  rewrite of_Z_64, (mul_by_64 M e Hd He). apply round_integer; trivial. lia.
Qed.

(** *** The shape of the result *)

Lemma load_resized_inv (B : Backend) (self : ImageConverter) (p : string)
  (r : pil_image) :
  load_resized B self p = Ok r ->
  exists img w h,
    Image_open B p = Ok img /\
    scaled_side (Z.of_nat (width img))
      (Z.of_nat (Nat.max (width img) (height img))) (max_dim self) = Ok w /\
    scaled_side (Z.of_nat (height img))
      (Z.of_nat (Nat.max (width img) (height img))) (max_dim self) = Ok h /\
    width r = Z.to_nat w /\ height r = Z.to_nat h /\ bands r = bands img.
Proof.
  unfold load_resized, scaled_side. intros H.
  rbind_inv H as img E1. rbind_inv H as scale E2. rbind_inv H as w E3.
  rbind_inv H as h E4. rbind_inv H as px E5.
  exists img, w, h. rewrite E2. cbn [rbind].
  assert (Hr : r = {| width := Z.to_nat w; height := Z.to_nat h;
                      bands := bands img; pixels := px |}) by congruence.
  rewrite Hr. cbn [width height bands]. auto 10.
Qed.

Lemma process_img_shape (img : pil_image) (t : ndarray) :
  process_img img = Ok t -> shape t = [1; height img; width img; bands img]%nat.
Proof.
  unfold process_img, preprocess_input. intros H.
  rbind_inv H as x1 E1. rbind_inv H as x2 E2. rbind_inv H as x3 E3.
  apply on_channel_shape in E1, E2, E3.
  destruct E1 as [S1 _], E2 as [S2 _], E3 as [S3 _].
  assert (Ht : t = x3) by congruence. rewrite Ht, S3, S2, S1. reflexivity.
Qed.

(** The shape of the best image along the loop. *)
Lemma loop_shapes (B : Backend) (self : ImageConverter) (L : locals)
  (H W C : nat) (range : list nat) :
  length (min_vals L) = 3%nat ->
  forall (s s' : loop_state B) (w w' : world),
    (exists x, nth_error (variables w) (init_image (l_cfg L)) = Some x /\
               shape x = [1; H; W; C]%nat) ->
    (forall img, best_img s = Some img ->
                 ushape img = [H; W; 3]%nat /\
                 Forall (fun z => 0 <= z <= 255) (udata img)) ->
    for_each (run_style_transfer_iteration B self L) range s w = (Ok s', w') ->
    forall img, best_img s' = Some img ->
                ushape img = [H; W; 3]%nat /\
                Forall (fun z => 0 <= z <= 255) (udata img).
Proof.
  intros Hmin s s' w w' Hvar Hbest Hloop.
  apply (for_each_invariant _
           (fun s w =>
              (exists x, nth_error (variables w) (init_image (l_cfg L)) = Some x /\
                         shape x = [1; H; W; C]%nat) /\
              (forall img, best_img s = Some img ->
                           ushape img = [H; W; 3]%nat /\
                           Forall (fun z => 0 <= z <= 255) (udata img))))
    with (3 := Hloop); [|auto].
  clear - Hmin. intros i s w s' w' [(x & Hx & Hs) Hb] Hstep.
  apply iteration_inv in Hstep.
  destruct Hstep as (x' & al & g & o & d & c & Hx' & _ & _ & _ & Hclip & -> & _ & Hbest).
  rewrite Hx in Hx'. injection Hx' as <-.
  destruct (clip_by_value_shape _ _ _ _ Hclip) as (Hsc & Hax & _).
  cbn [shape] in Hsc. split.
  - exists c. split; [eapply nth_error_set_nth; eassumption|congruence].
  - intros img Himg.
    destruct (F32.ltb (fst (fst al)) (best_loss s)).
    + destruct Hbest as (img' & Hd & _ & Hi). rewrite Hi in Himg.
      injection Himg as <-. apply deprocess_inv in Hd.
      destruct Hd as (Hl & Hshape & Hlast & H3 & Hr). split; [|exact Hr].
      rewrite Hsc, Hs in Hshape. destruct Hshape as [E|E].
      * rewrite <- E in Hl. discriminate.
      * injection E as E. rewrite <- E. do 2 f_equal.
        unfold last_axis in Hax. cbn [shape] in Hax. rewrite Hs, Hmin in Hax.
        simpl in Hax. congruence.
    + destruct Hbest as (_ & Hi). rewrite Hi in Himg. auto.
Qed.

Lemma loop_keeps_best (B : Backend) (self : ImageConverter) (L : locals)
  (range : list nat) (s s' : loop_state B) (w w' : world) :
  best_img s <> None ->
  for_each (run_style_transfer_iteration B self L) range s w = (Ok s', w') ->
  best_img s' <> None.
Proof.
  intros Hs Hloop.
  apply (for_each_invariant _ (fun s _ => best_img s <> None)) with (3 := Hloop);
    [|exact Hs].
  intros i s2 w2 s3 w3 HP Hstep. apply iteration_best in Hstep.
  destruct Hstep as (l & _ & Hb). destruct (F32.ltb l (best_loss s2)).
  - destruct Hb as (_ & i' & ->). discriminate.
  - destruct Hb as (_ & ->). exact HP.
Qed.

(** Claim C5, as amended.  Preprocessing a file and postprocessing the
    tensor at once gives back, exactly, the pixel values of the image as
    resized by the preprocessing (three bands or more, values in
    0..255): before the final clip the array is the resized image as
    float32, the clip changes no element, and the cast returns the pixel
    values. *)
Theorem deprocess_inverts_preprocess (B : Backend) (self : ImageConverter)
  (img_path : string) (resized : pil_image) (w : world) :
  load_resized B self img_path = Ok resized ->
  wf_image resized ->
  (3 <= bands resized)%nat ->
  exists t w',
    _load_and_process_img B self img_path w = (Ok t, w') /\
    deprocess_unclipped (py_debug B) t = Ok (img_to_array resized) /\
    Forall (fun a => np_clip (F32.of_Z 0) (F32.of_Z 255) a = a)
      (data (img_to_array resized)) /\
    _deprocess_img (py_debug B) t
    = Ok {| ushape := [height resized; width resized; bands resized];
            udata := pixels resized |}.
Proof.
  intros Hload Hwf H3.
  destruct (deprocess_process_img (py_debug B) resized Hwf H3)
    as (t & Hp & _ & Hu & Hd).
  exists t. eexists. split; [|split; [exact Hu|split; [|exact Hd]]].
  - unfold _load_and_process_img, bind, emit, lift. rewrite Hload. cbn [rbind].
    rewrite Hp. reflexivity.
  - unfold img_to_array. cbn [data]. apply Forall_forall. intros a Ha.
    apply in_map_iff in Ha. destruct Ha as (z & <- & Hz).
    destruct Hwf as [_ Hr]. rewrite Forall_forall in Hr.
    apply cast_round_trip_ok. auto.
Qed.

(** *** Runs of the small backend *)

Lemma returns_get {A : Type} (d : A) (r : result A * world) :
  Toy.returns (fst r) = true -> r = (Ok (Toy.get d (fst r)), snd r).
Proof. destruct r as [[a|e] w]; simpl; intros H; [reflexivity|discriminate]. Qed.

Lemma toy_setup_returns (B : Backend) (self : ImageConverter) :
  Toy.returns (fst (Toy.setup B self)) = true ->
  run_style_transfer_setup B self content_weight_default style_weight_default
    Toy.start
  = (Ok (Toy.locals_of B self, Toy.state_of B self), Toy.world_of B self).
Proof.
  intros H. unfold Toy.locals_of, Toy.state_of, Toy.world_of.
  fold (Toy.setup B self).
  rewrite (returns_get (Toy.no_locals, Toy.no_state B) (Toy.setup B self) H) at 1.
  destruct (Toy.get _ _). reflexivity.
Qed.

Lemma toy_after_returns (B : Backend) (self : ImageConverter) (k : nat) :
  Toy.returns (fst (Toy.after B self k)) = true ->
  run_style_transfer_loop B self (Toy.locals_of B self) k (Toy.state_of B self)
    (Toy.world_of B self)
  = (Ok (Toy.state_after B self k), Toy.world_after B self k).
Proof. intros H. exact (returns_get (Toy.no_state B) (Toy.after B self k) H). Qed.

Lemma toy_run_returns (B : Backend) (self : ImageConverter) :
  Toy.returns (fst (Toy.run B self)) = true ->
  run_style_transfer B self content_weight_default style_weight_default Toy.start
  = (Ok (Toy.get None (fst (Toy.run B self))), snd (Toy.run B self)).
Proof. intros H. exact (returns_get None (Toy.run B self) H). Qed.

(** ** The claims on concrete runs *)

Lemma deprocess_rejects_other_ranks_witness :
  (exists e, _deprocess_img true {| shape := [2; 3]%nat; data := [] |} = Raise e /\
             shape_error e) /\
  _deprocess_img false {| shape := [1; 1; 2; 2; 3]%nat; data := [] |}
  = Raise ValueError.
Proof.
  split.
  - apply (deprocess_rejects_other_ranks true {| shape := [2; 3]%nat; data := [] |}).
    left. reflexivity.
  - apply (deprocess_rejects_other_ranks false
             {| shape := [1; 1; 2; 2; 3]%nat; data := [] |});
      simpl; lia.
Defined.

Lemma zero_iterations_return_none_witness :
  iteration Toy.idle = 0 /\ fst (Toy.run Toy.backend Toy.idle) = Ok None.
Proof.
  split; [reflexivity|].
  unfold Toy.run.
  rewrite (zero_iterations_return_none Toy.backend Toy.idle
             content_weight_default style_weight_default Toy.start eq_refl).
  vm_compute. reflexivity.
Defined.

Lemma images_loaded_at_setup_witness :
  opened (events (snd (Toy.run Toy.backend Toy.mixed)))
  = ["pixel.png"; "style.png"; "pixel.png"]%string.
Proof.
  apply (images_loaded_at_setup Toy.backend Toy.mixed content_weight_default
           style_weight_default Toy.start (snd (Toy.run Toy.backend Toy.mixed))
           (Toy.get None (fst (Toy.run Toy.backend Toy.mixed)))).
  apply toy_run_returns. vm_compute. reflexivity.
Defined.

(** Against claim C2 as stated: in a run on the content file
    [pixel.png] and the style file [style.png], the content file is
    opened twice. *)
Lemma content_image_loaded_twice :
  Toy.returns (fst (Toy.run Toy.backend Toy.mixed)) = true /\
  content_path Toy.mixed = "pixel.png"%string /\
  style_path Toy.mixed = "style.png"%string /\
  count_occ string_dec (opened (events (snd (Toy.run Toy.backend Toy.mixed))))
    "pixel.png"%string = 2%nat.
Proof. repeat split; vm_compute; reflexivity. Qed.

Lemma best_loss_non_increasing_witness :
  best_loss (Toy.state_of Toy.backend Toy.small) = F32.inf /\
  best_img (Toy.state_of Toy.backend Toy.small) = None /\
  F32.leb (best_loss (Toy.state_after Toy.backend Toy.small 3))
    (best_loss (Toy.state_after Toy.backend Toy.small 1)) = true.
Proof.
  destruct (best_loss_non_increasing Toy.backend Toy.small content_weight_default
              style_weight_default Toy.start (Toy.world_of Toy.backend Toy.small)
              (Toy.locals_of Toy.backend Toy.small)
              (Toy.state_of Toy.backend Toy.small))
    as ((H1 & H2) & Hmono & _).
  - apply toy_setup_returns. vm_compute. reflexivity.
  - split; [exact H1|]. split; [exact H2|].
    apply (Hmono 1%nat 3%nat _ _ (Toy.world_after Toy.backend Toy.small 1)
             (Toy.world_after Toy.backend Toy.small 3));
      [lia| |]; apply toy_after_returns; vm_compute; reflexivity.
Defined.

Lemma deprocess_inverts_preprocess_witness :
  exists t w',
    _load_and_process_img Toy.backend Toy.small "pixel.png" Toy.start = (Ok t, w') /\
    _deprocess_img true t
    = Ok {| ushape := [2; 2; 3]%nat;
            udata := [10; 20; 30; 10; 20; 30; 10; 20; 30; 10; 20; 30] |}.
Proof.
  destruct (deprocess_inverts_preprocess Toy.backend Toy.small "pixel.png"
              (Toy.solid 2 2 [10; 20; 30]) Toy.start)
    as (t & w' & H1 & _ & _ & H2).
  - vm_compute. reflexivity.
  - split; [reflexivity|]. simpl. repeat constructor; lia.
  - simpl. lia.
  - exists t, w'. split; [exact H1|exact H2].
Defined.

(** Against claim C5 as stated: the file holds one pixel, the bound is
    2, and preprocessing followed by postprocessing returns four pixels. *)
Lemma resized_image_differs_from_original :
  Image_open Toy.backend "pixel.png" = Ok (Toy.solid 1 1 [10; 20; 30]) /\
  pixels (Toy.solid 1 1 [10; 20; 30]) = [10; 20; 30] /\
  max_dim Toy.small = 2 /\
  (let? t := fst (_load_and_process_img Toy.backend Toy.small "pixel.png"
                    Toy.start) in
   _deprocess_img true t)
  = Ok {| ushape := [2; 2; 3]%nat;
          udata := [10; 20; 30; 10; 20; 30; 10; 20; 30; 10; 20; 30] |}.
Proof. repeat split; vm_compute; reflexivity. Qed.

Lemma compute_loss_is_weighted_total_witness :
  compute_loss Toy.small (model (l_cfg (Toy.locals_of Toy.backend Toy.small)))
    (loss_weights (l_cfg (Toy.locals_of Toy.backend Toy.small)))
    (Toy.candidate Toy.small Toy.backend (Toy.world_of Toy.backend Toy.small))
    (gram_style_features (l_cfg (Toy.locals_of Toy.backend Toy.small)))
    (content_features (l_cfg (Toy.locals_of Toy.backend Toy.small)))
  = total_loss Toy.small (model (l_cfg (Toy.locals_of Toy.backend Toy.small)))
      (loss_weights (l_cfg (Toy.locals_of Toy.backend Toy.small)))
      (Toy.candidate Toy.small Toy.backend (Toy.world_of Toy.backend Toy.small))
      (gram_style_features (l_cfg (Toy.locals_of Toy.backend Toy.small)))
      (content_features (l_cfg (Toy.locals_of Toy.backend Toy.small))) /\
  length (combine
            (gram_style_features (l_cfg (Toy.locals_of Toy.backend Toy.small)))
            (firstn 5 (Toy.outputs Toy.backend Toy.small))) = 5%nat /\
  length (combine
            (content_features (l_cfg (Toy.locals_of Toy.backend Toy.small)))
            (skipn 5 (Toy.outputs Toy.backend Toy.small))) = 1%nat.
Proof.
  destruct (compute_loss_is_weighted_total Toy.small
              (model (l_cfg (Toy.locals_of Toy.backend Toy.small)))
              (loss_weights (l_cfg (Toy.locals_of Toy.backend Toy.small)))
              (Toy.candidate Toy.small Toy.backend
                 (Toy.world_of Toy.backend Toy.small))
              (gram_style_features (l_cfg (Toy.locals_of Toy.backend Toy.small)))
              (content_features (l_cfg (Toy.locals_of Toy.backend Toy.small))))
    as [H1 H2]; [vm_compute; lia|vm_compute; lia|].
  split; [exact H1|].
  apply (H2 (Toy.outputs Toy.backend Toy.small)); vm_compute; reflexivity.
Defined.

Lemma finite_first_loss_gives_image_witness :
  (exists img, Toy.get None (fst (Toy.run Toy.backend Toy.small)) = Some img) /\
  (Toy.get None (fst (Toy.run Toy.nan_backend Toy.small)) = None /\
   events (snd (Toy.run Toy.nan_backend Toy.small))
   = events (Toy.world_of Toy.nan_backend Toy.small) ++ map EvPrint (seq 0 3)).
Proof.
  split.
  - destruct (finite_first_loss_gives_image Toy.backend Toy.small
                content_weight_default style_weight_default Toy.start
                (Toy.world_of Toy.backend Toy.small)
                (snd (Toy.run Toy.backend Toy.small))
                (Toy.locals_of Toy.backend Toy.small)
                (Toy.state_of Toy.backend Toy.small)
                (Toy.get None (fst (Toy.run Toy.backend Toy.small))))
      as [H _].
    + apply toy_setup_returns. vm_compute. reflexivity.
    + apply toy_run_returns. vm_compute. reflexivity.
    + apply (H F32.zero); [vm_compute; discriminate|vm_compute; reflexivity|reflexivity].
  - destruct (finite_first_loss_gives_image Toy.nan_backend Toy.small
                content_weight_default style_weight_default Toy.start
                (Toy.world_of Toy.nan_backend Toy.small)
                (snd (Toy.run Toy.nan_backend Toy.small))
                (Toy.locals_of Toy.nan_backend Toy.small)
                (Toy.state_of Toy.nan_backend Toy.small)
                (Toy.get None (fst (Toy.run Toy.nan_backend Toy.small))))
      as [_ H].
    + apply toy_setup_returns. vm_compute. reflexivity.
    + apply toy_run_returns. vm_compute. reflexivity.
    + apply H. intros k sk wk Hk Hloop.
      change (Z.to_nat (iteration Toy.small)) with 3%nat in Hk.
      assert (Hw : wk = Toy.world_after Toy.nan_backend Toy.small k).
      { unfold Toy.world_after, Toy.after. rewrite Hloop. reflexivity. }
      rewrite Hw. clear Hloop Hw.
      destruct k as [|[|[|k]]]; [| | |lia]; vm_compute; reflexivity.
Defined.

(** * Further properties of the engine *)

(** ** Order and signs of floating-point results *)

Lemma SFltb_key (x y : spec_float) :
  SFltb x y = true <->
  Float.is_nan x = false /\ Float.is_nan y = false /\ lex3 (key x) (key y) = Lt.
Proof.
  split.
  - intros H. destruct (SFltb_not_nan _ _ H) as [Hx Hy].
    repeat split; trivial. unfold SFltb in H.
    rewrite (SFcompare_key x y Hx Hy) in H.
    destruct (lex3 (key x) (key y)); congruence.
  - intros (Hx & Hy & H). unfold SFltb. rewrite (SFcompare_key x y Hx Hy), H.
    reflexivity.
Qed.

Lemma lex3_le_lt_trans (a b c : Z * Z * Z) :
  lex3 a b <> Gt -> lex3 b c = Lt -> lex3 a c = Lt.
Proof.
  destruct a as [[a1 a2] a3], b as [[b1 b2] b3], c as [[c1 c2] c3].
  unfold lex3; simpl.
  destruct (Z.compare_spec a1 b1), (Z.compare_spec b1 c1), (Z.compare_spec a1 c1);
    try lia; try congruence;
  destruct (Z.compare_spec a2 b2), (Z.compare_spec b2 c2), (Z.compare_spec a2 c2);
    try lia; try congruence;
  destruct (Z.compare_spec a3 b3), (Z.compare_spec b3 c3), (Z.compare_spec a3 c3);
    try lia; try congruence.
Qed.

Lemma SFleb_ltb_trans (x y z : spec_float) :
  SFleb x y = true -> SFltb y z = true -> SFltb x z = true.
Proof.
  rewrite SFleb_key, !SFltb_key. intros (Hx & Hy & H1) (_ & Hz & H2).
  repeat split; trivial. eapply lex3_le_lt_trans; eassumption.
Qed.

Lemma SFltb_trans (x y z : spec_float) :
  SFltb x y = true -> SFltb y z = true -> SFltb x z = true.
Proof. intros H. apply SFleb_ltb_trans, SFltb_leb, H. Qed.

Lemma SFltb_irrefl (x : spec_float) : SFltb x x = false.
Proof.
  destruct (SFltb x x) eqn:E; [|reflexivity].
  apply SFltb_key in E. destruct E as (_ & _ & E).
  destruct (key x) as [[a b] c]. unfold lex3 in E; simpl in E.
  rewrite !Z.compare_refl in E. discriminate.
Qed.

Lemma SFltb_below_inf (l b : spec_float) :
  SFltb l b = true -> SFltb l F32.inf = true.
Proof.
  intros H. destruct l as [s|[]| |s m e]; try reflexivity;
    destruct b as [s'|[]| |s' m' e']; discriminate.
Qed.

Section Signs.
Variables prec emax : Z.

Lemma binary_round_aux_abs (s : bool) (m : Z) (e : Z) (l : location) :
  SFabs (binary_round_aux prec emax s m e l) = binary_round_aux prec emax false m e l.
Proof.
  unfold binary_round_aux.
  destruct (shr_fexp prec emax m e l) as [mrs' e'].
  destruct (shr_fexp prec emax _ e' loc_Exact) as [mrs'' e''].
  destruct (shr_m mrs''); [reflexivity| |reflexivity].
  destruct (e'' <=? emax - prec); reflexivity.
Qed.

Lemma binary_round_aux_not_negative (m : Z) (e : Z) (l : location) :
  not_negative (binary_round_aux prec emax false m e l) = true.
Proof.
  unfold binary_round_aux.
  destruct (shr_fexp prec emax m e l) as [mrs' e'].
  destruct (shr_fexp prec emax _ e' loc_Exact) as [mrs'' e''].
  destruct (shr_m mrs''); [reflexivity| |reflexivity].
  destruct (e'' <=? emax - prec); reflexivity.
Qed.

Lemma binary_round_abs (s : bool) (m : positive) (e : Z) :
  SFabs (binary_round prec emax s m e) = binary_round prec emax false m e.
Proof.
  unfold binary_round. destruct (shl_align m e _) as [mz ez].
  apply binary_round_aux_abs.
Qed.

Lemma binary_round_not_negative (m : positive) (e : Z) :
  not_negative (binary_round prec emax false m e) = true.
Proof.
  unfold binary_round. destruct (shl_align m e _) as [mz ez].
  apply binary_round_aux_not_negative.
Qed.

Lemma binary_normalize_opp (z e : Z) :
  SFabs (binary_normalize prec emax (- z) e false)
  = SFabs (binary_normalize prec emax z e false).
Proof.
  destruct z as [|p|p]; simpl; [reflexivity| |];
    rewrite !binary_round_abs; reflexivity.
Qed.

Lemma binary_normalize_not_negative (z e : Z) :
  0 <= z -> not_negative (binary_normalize prec emax z e false) = true.
Proof.
  intros H. destruct z as [|p|p]; simpl; [reflexivity| |lia].
  apply binary_round_not_negative.
Qed.

Lemma SFsub_swap (x y : spec_float) :
  same_magnitude (SFsub prec emax x y) (SFsub prec emax y x).
Proof.
  unfold same_magnitude.
  destruct x as [sx|sx| |sx mx ex], y as [sy|sy| |sy my ey];
    try reflexivity;
    try (destruct sx, sy; reflexivity).
  unfold SFsub. rewrite (Z.min_comm ey ex).
  rewrite <- binary_normalize_opp. f_equal. f_equal. lia.
Qed.

Lemma SFmul_same_magnitude (x y : spec_float) :
  same_magnitude x y -> SFmul prec emax x x = SFmul prec emax y y.
Proof.
  unfold same_magnitude.
  destruct x as [sx|sx| |sx mx ex], y as [sy|sy| |sy my ey]; simpl;
    intros H; try discriminate; try reflexivity.
  - destruct sx, sy; reflexivity.
  - destruct sx, sy; reflexivity.
  - injection H as -> ->. destruct sx, sy; reflexivity.
Qed.

Lemma SFmul_comm (x y : spec_float) : SFmul prec emax x y = SFmul prec emax y x.
Proof.
  destruct x as [sx|sx| |sx mx ex], y as [sy|sy| |sy my ey]; simpl;
    try reflexivity; try (rewrite xorb_comm; reflexivity).
  rewrite xorb_comm, Pos.mul_comm, Z.add_comm. reflexivity.
Qed.

Lemma SFmul_self_not_negative (x : spec_float) :
  not_negative (SFmul prec emax x x) = true.
Proof.
  destruct x as [s|s| |s m e]; try reflexivity; try (destruct s; reflexivity).
  unfold SFmul. rewrite xorb_nilpotent. apply binary_round_aux_not_negative.
Qed.

Lemma SFmul_not_negative (x y : spec_float) :
  not_negative x = true -> not_negative y = true ->
  not_negative (SFmul prec emax x y) = true.
Proof.
  destruct x as [sx|sx| |sx mx ex], y as [sy|sy| |sy my ey]; simpl;
    intros Hx Hy; try reflexivity;
    try (apply negb_true_iff in Hx); try (apply negb_true_iff in Hy);
    subst; try reflexivity.
  apply binary_round_aux_not_negative.
Qed.

Lemma SFadd_not_negative (x y : spec_float) :
  not_negative x = true -> not_negative y = true ->
  not_negative (SFadd prec emax x y) = true.
Proof.
  destruct x as [sx|sx| |sx mx ex], y as [sy|sy| |sy my ey]; simpl;
    intros Hx Hy; try reflexivity;
    try (apply negb_true_iff in Hx); try (apply negb_true_iff in Hy);
    subst; try reflexivity.
  apply binary_normalize_not_negative. simpl. lia.
Qed.

Lemma SFdiv_not_negative (x y : spec_float) :
  not_negative x = true -> not_negative y = true ->
  not_negative (SFdiv prec emax x y) = true.
Proof.
  destruct x as [sx|sx| |sx mx ex], y as [sy|sy| |sy my ey]; simpl;
    intros Hx Hy; try reflexivity;
    try (apply negb_true_iff in Hx); try (apply negb_true_iff in Hy);
    subst; try reflexivity.
  destruct (SFdiv_core_binary prec emax (Zpos mx) ex (Zpos my) ey) as [[mz ez] lz].
  apply binary_round_aux_not_negative.
Qed.

Lemma of_Z_not_negative (z : Z) :
  0 <= z -> not_negative (Float.of_Z prec emax z) = true.
Proof. apply binary_normalize_not_negative. Qed.

Lemma cast_not_negative (x : spec_float) :
  not_negative x = true -> not_negative (Float.cast prec emax x) = true.
Proof.
  destruct x as [s|s| |s m e]; simpl; trivial.
  intros H. apply negb_true_iff in H. subst s. apply binary_round_not_negative.
Qed.

End Signs.

Lemma not_negative_leb (x : spec_float) :
  not_negative x = true ->
  Float.is_nan x = true \/ F32.leb F32.zero x = true.
Proof.
  destruct x as [s|s| |s m e]; simpl; intros H; auto;
    apply negb_true_iff in H; subst; right; reflexivity.
Qed.

(** ** The losses *)

Lemma sum32_not_negative (l : list float32) :
  Forall (fun a => not_negative a = true) l -> not_negative (sum32 l) = true.
Proof.
  unfold sum32.
  assert (H : forall acc, not_negative acc = true ->
                Forall (fun a => not_negative a = true) l ->
                not_negative (fold_left F32.add l acc) = true).
  { induction l as [|a l IH]; intros acc Hacc Hl; simpl; [exact Hacc|].
    inversion Hl; subst. apply IH; [|assumption].
    apply SFadd_not_negative; assumption. }
  apply H. reflexivity.
Qed.

Lemma reduce_mean_square_not_negative (x : ndarray) :
  not_negative (reduce_mean (square x)) = true.
Proof.
  unfold reduce_mean, square. cbn [data].
  apply SFdiv_not_negative.
  - apply sum32_not_negative. apply Forall_forall. intros a Ha.
    apply in_map_iff in Ha. destruct Ha as (b & <- & _).
    apply SFmul_self_not_negative.
  - apply of_Z_not_negative. lia.
Qed.

(** Property X1.  Neither loss is ever negative: what [content_loss] or
    [style_loss] returns is NaN or a number whose sign bit is clear, so
    it is NaN or at least zero. *)
Theorem losses_are_not_negative (base target : ndarray) (l : float32) :
  content_loss base target = Ok l \/ style_loss base target = Ok l ->
  not_negative l = true /\
  (Float.is_nan l = true \/ F32.leb F32.zero l = true).
Proof.
  assert (H : content_loss base target = Ok l \/ style_loss base target = Ok l ->
              not_negative l = true).
  { intros [H|H].
    - unfold content_loss in H. rbind_inv H as d E. injection H as <-.
      apply reduce_mean_square_not_negative.
    - unfold style_loss in H. rbind_inv H as g E1. rbind_inv H as d E2.
      injection H as <-. apply reduce_mean_square_not_negative. }
  intros Hl. split; [auto|apply not_negative_leb; auto].
Qed.

Lemma squares_swap (da db : list float32) :
  map (fun a => F32.mul a a) (map (fun p => F32.sub (fst p) (snd p)) (combine da db))
  = map (fun a => F32.mul a a) (map (fun p => F32.sub (fst p) (snd p)) (combine db da)).
Proof.
  revert db. induction da as [|a da IH]; intros [|b db]; simpl; try reflexivity.
  rewrite IH. f_equal. apply SFmul_same_magnitude, SFsub_swap.
Qed.

Lemma list_eqb_nat_sym (l1 l2 : list nat) :
  list_eqb Nat.eqb l1 l2 = list_eqb Nat.eqb l2 l1.
Proof.
  revert l2. induction l1 as [|a l1 IH]; intros [|b l2]; simpl; try reflexivity.
  rewrite IH, Nat.eqb_sym. reflexivity.
Qed.

Lemma broadcast_rev_sym (ra rb : list nat) :
  broadcast_rev ra rb = broadcast_rev rb ra.
Proof.
  revert rb. induction ra as [|da ra IH]; intros [|db rb]; try reflexivity.
  cbn [broadcast_rev]. rewrite (IH rb).
  destruct (broadcast_rev rb ra) as [r|]; [|reflexivity].
  rewrite (Nat.eqb_sym db da).
  destruct (Nat.eqb_spec da db) as [->|Hne]; [reflexivity|].
  destruct (Nat.eqb_spec da 1), (Nat.eqb_spec db 1); try reflexivity; lia.
Qed.

Lemma broadcast_shape_sym (sa sb : list nat) :
  broadcast_shape sa sb = broadcast_shape sb sa.
Proof. unfold broadcast_shape. rewrite broadcast_rev_sym. reflexivity. Qed.

(** Property X2.  [content_loss] is symmetric: exchanging the base and
    the target gives the same result, the raised error included. *)
Theorem content_loss_symmetric (base_content target : ndarray) :
  content_loss base_content target = content_loss target base_content.
Proof.
  unfold content_loss, tensor_sub. rewrite (list_eqb_nat_sym (shape target)).
  destruct (list_eqb Nat.eqb (shape base_content) (shape target)).
  - cbn [rbind]. unfold reduce_mean, square. cbn [data].
    rewrite squares_swap. reflexivity.
  - rewrite (broadcast_shape_sym (shape target)).
    destruct (broadcast_shape (shape base_content) (shape target)); [|reflexivity].
    cbn [rbind]. unfold reduce_mean, square. cbn [data].
    rewrite squares_swap. reflexivity.
Qed.

(** Property X3.  The content loss of a tensor against itself is exactly
    zero when the tensor is not empty and its elements are finite; on an
    empty tensor it is NaN (a mean over no element). *)
Theorem content_loss_zero_on_equal (x : ndarray) :
  (data x <> [] ->
   Forall (fun a => Float.is_finite a = true) (data x) ->
   content_loss x x = Ok F32.zero) /\
  (data x = [] -> content_loss x x = Ok F32.nan).
Proof.
  split.
  - intros Hne Hfin. unfold content_loss. apply mean_square_diag; assumption.
  - intros He. unfold content_loss, tensor_sub. rewrite list_eqb_nat_refl.
    cbn [rbind]. unfold reduce_mean, square. cbn [data]. rewrite He. reflexivity.
Qed.

Lemma mapM_Forall {A B : Type} (f : A -> result B) (P : B -> Prop) (l : list A) :
  (forall a b, f a = Ok b -> P b) ->
  forall bs, mapM f l = Ok bs -> Forall P bs.
Proof.
  intros Hf. induction l as [|a l IH]; intros bs H; simpl in H.
  - injection H as <-. constructor.
  - rbind_inv H as b E1. rbind_inv H as bs' E2. injection H as <-.
    constructor; [eapply Hf; eassumption|apply IH; assumption].
Qed.

Lemma mapM_length {A B : Type} (f : A -> result B) (l : list A) :
  forall bs, mapM f l = Ok bs -> length bs = length l.
Proof.
  induction l as [|a l IH]; intros bs H; simpl in H.
  - injection H as <-. reflexivity.
  - rbind_inv H as b E1. rbind_inv H as bs' E2. injection H as <-.
    simpl. f_equal. apply IH. assumption.
Qed.

Lemma weighted_sum_not_negative (weight : float32) (losses : list float32) :
  not_negative weight = true ->
  Forall (fun l => not_negative l = true) losses ->
  forall acc, not_negative acc = true ->
    not_negative (fold_left (fun acc l => F32.add acc (F32.mul weight l)) losses acc)
    = true.
Proof.
  intros Hw Hl. induction Hl as [|l losses H _ IH]; intros acc Hacc; simpl.
  - exact Hacc.
  - apply IH. apply SFadd_not_negative; [exact Hacc|].
    apply SFmul_not_negative; assumption.
Qed.

Lemma weight_per_layer_not_negative (n : nat) (w : spec_float) :
  weight_per_layer n = Ok w -> not_negative (F32.of_float w) = true.
Proof.
  unfold weight_per_layer. destruct (n =? 0)%nat; [discriminate|].
  intros H.
  assert (E : w = F64.div (F64.of_Z 1) (F64.of_Z (Z.of_nat n))) by congruence.
  rewrite E. apply cast_not_negative.
  apply SFdiv_not_negative; apply of_Z_not_negative; lia.
Qed.

Lemma accumulate_not_negative (weight : float32)
  (loss : ndarray -> ndarray -> result float32)
  (pairs : list (ndarray * ndarray)) (score : float32) :
  (forall a b l, loss a b = Ok l -> not_negative l = true) ->
  not_negative weight = true ->
  accumulate weight loss pairs (F32.of_Z 0) = Ok score ->
  not_negative score = true.
Proof.
  intros Hloss Hw H. rewrite accumulate_spec in H. rbind_inv H as losses E.
  injection H as <-. apply weighted_sum_not_negative; [exact Hw| |reflexivity].
  eapply mapM_Forall; [|exact E]. intros p l Hl. cbv beta in Hl.
  rbind_inv Hl as o Eo. eapply Hloss. exact Hl.
Qed.

(** Property X4.  With weights that are not negative, the three values
    [compute_loss] returns are not negative (or NaN), and the total is
    the float32 sum of the style score and the content score. *)
Theorem compute_loss_scores_not_negative (self : ImageConverter)
  (model : keras_model) (style_weight content_weight : spec_float)
  (init_image : ndarray) (gram_style_features content_features : list ndarray)
  (loss style_score content_score : float32) :
  not_negative style_weight = true ->
  not_negative content_weight = true ->
  compute_loss self model (style_weight, content_weight) init_image
    gram_style_features content_features
  = Ok (loss, style_score, content_score) ->
  loss = F32.add style_score content_score /\
  not_negative style_score = true /\
  not_negative content_score = true /\
  not_negative loss = true.
Proof.
  intros Hs Hc H. unfold compute_loss in H.
  rbind_inv H as outputs E0. rbind_inv H as ws E1. rbind_inv H as ss E2.
  rbind_inv H as wc E3. rbind_inv H as cs E4.
  assert (H1 : style_score = F32.mul ss (F32.of_float style_weight)) by congruence.
  assert (H2 : content_score = F32.mul cs (F32.of_float content_weight)) by congruence.
  assert (H3 : loss = F32.add (F32.mul ss (F32.of_float style_weight))
                        (F32.mul cs (F32.of_float content_weight))) by congruence.
  clear H.
  assert (Hss : not_negative style_score = true).
  { rewrite H1. apply SFmul_not_negative; [|apply cast_not_negative; exact Hs].
    eapply accumulate_not_negative; [| |exact E2].
    - intros a b l Hl. unfold style_loss in Hl. rbind_inv Hl as g Eg.
      rbind_inv Hl as d Ed. injection Hl as <-.
      apply reduce_mean_square_not_negative.
    - eapply weight_per_layer_not_negative; eassumption. }
  assert (Hcs : not_negative content_score = true).
  { rewrite H2. apply SFmul_not_negative; [|apply cast_not_negative; exact Hc].
    eapply accumulate_not_negative; [| |exact E4].
    - intros a b l Hl. unfold content_loss in Hl. rbind_inv Hl as d Ed.
      injection Hl as <-. apply reduce_mean_square_not_negative.
    - eapply weight_per_layer_not_negative; eassumption. }
  rewrite H3, <- H1, <- H2. repeat split; trivial.
  apply SFadd_not_negative; assumption.
Qed.

(** ** A style loss of zero *)

Lemma digits2_upper (m : positive) : Zpos m < 2 ^ Zpos (digits2_pos m).
Proof.
  induction m as [m IH|m IH|]; simpl digits2_pos; try (simpl; lia);
    rewrite Pos2Z.inj_succ, Z.pow_succ_r by lia; lia.
Qed.

(** The square of a mantissa has about twice its digits. *)
Lemma digits2_square (m : positive) :
  2 * Zpos (digits2_pos m) - 1 <= Zpos (digits2_pos (m * m)).
Proof.
  pose proof (digits2_lower m) as Hl. pose proof (digits2_upper (m * m)) as Hu.
  set (d := Zpos (digits2_pos m)) in *. set (d2 := Zpos (digits2_pos (m * m))) in *.
  assert (Hd : 1 <= d) by (unfold d; lia).
  destruct (Z.le_gt_cases (2 * d - 1) d2) as [H|H]; [exact H|exfalso].
  assert (H1 : 2 ^ d2 <= 2 ^ (2 * d - 2)) by (apply Z.pow_le_mono_r; unfold d2 in *; lia).
  replace (2 * d - 2) with ((d - 1) + (d - 1)) in H1 by lia.
  rewrite Z.pow_add_r in H1 by lia.
  assert (H2 : 2 ^ (d - 1) * 2 ^ (d - 1) <= Zpos m * Zpos m).
  { assert (0 < 2 ^ (d - 1)) by (apply Z.pow_pos_nonneg; lia). nia. }
  rewrite Pos2Z.inj_mul in Hu. lia.
Qed.

Section Exponents.
Variables prec emax : Z.

(** Rounding never leaves an exponent below the smallest one. *)
Lemma shr_fexp_exponent (m e : Z) (l : location) :
  emin prec emax <= snd (shr_fexp prec emax m e l).
Proof.
  unfold shr_fexp, shr.
  assert (Hf : emin prec emax <= fexp prec emax (Zdigits2 m + e))
    by (unfold fexp; lia).
  destruct (fexp prec emax (Zdigits2 m + e) - e) eqn:E; cbn [snd]; lia.
Qed.

Lemma binary_round_aux_above_emin (s : bool) (m e : Z) (l : location) :
  match binary_round_aux prec emax s m e l with
  | S754_finite _ _ e' => emin prec emax <= e'
  | _ => True
  end.
Proof.
  unfold binary_round_aux.
  destruct (shr_fexp prec emax m e l) as [mrs' e'].
  pose proof (shr_fexp_exponent
                (round_nearest_even (shr_m mrs') (loc_of_shr_record mrs')) e'
                loc_Exact) as H.
  destruct (shr_fexp prec emax _ e' loc_Exact) as [mrs'' e'']. cbn [snd] in H.
  destruct (shr_m mrs''); trivial.
  destruct (e'' <=? emax - prec); trivial.
Qed.

End Exponents.

(** A square that rounds to zero is the square of a zero or of a number
    below 2^-74. *)
Lemma square_zero_small (d : float32) :
  is_zero (F32.mul d d) = true -> below_pow2 (-74) d.
Proof.
  destruct d as [s|s| |s m e]; simpl; trivial; try discriminate.
  intros H. destruct (Z.le_gt_cases (Zpos (digits2_pos m) + e) (-74)) as [Hs|Hs];
    [exact Hs|exfalso].
  pose proof (digits2_square m) as Hd.
  assert (Hn : is_number_of_sign (xorb s s)
                 (binary_round_aux F32.prec F32.emax (xorb s s) (Zpos (m * m))
                    (e + e) loc_Exact)).
  { apply binary_round_aux_number; [unfold F32.prec; lia|].
    unfold emin, F32.prec, F32.emax. lia. }
  unfold F32.mul, SFmul in H.
  destruct (binary_round_aux F32.prec F32.emax (xorb s s) (Zpos (m * m)) (e + e)
              loc_Exact); simpl in Hn, H; try discriminate; contradiction.
Qed.

Lemma square_above_emin (d : float32) : above_emin (F32.mul d d).
Proof.
  destruct d as [s|s| |s m e]; simpl; trivial.
  apply binary_round_aux_above_emin.
Qed.

(** Two numbers that are not negative add up to zero only when both are
    zero: a sum of positive numbers does not underflow. *)
Lemma add_zero_inv (a b : float32) :
  not_negative a = true -> not_negative b = true ->
  above_emin a -> above_emin b ->
  above_emin (F32.add a b) /\
  (is_zero (F32.add a b) = true -> is_zero a = true /\ is_zero b = true).
Proof.
  destruct a as [sa|sa| |sa ma ea], b as [sb|sb| |sb mb eb];
    cbn [not_negative above_emin]; intros Ha Hb Ea Eb;
    try (apply negb_true_iff in Ha); try (apply negb_true_iff in Hb); subst;
    try (split; [exact I|]; cbn; intros; try discriminate; auto; fail);
    try (cbn; split; [assumption|intros; discriminate]).
  unfold F32.add, SFadd. cbn [cond_Zopp Z.add binary_normalize].
  set (p := (fst (shl_align ma ea (Z.min ea eb)) + fst (shl_align mb eb (Z.min ea eb)))%positive).
  split.
  - unfold binary_round.
    destruct (shl_align p (Z.min ea eb) _) as [mz ez].
    apply binary_round_aux_above_emin.
  - assert (Hn : is_number_of_sign false
                   (binary_round F32.prec F32.emax false p (Z.min ea eb))).
    { apply binary_round_number; [unfold F32.prec; lia|].
      pose proof (Pos2Z.is_pos (digits2_pos p)). lia. }
    destruct (binary_round F32.prec F32.emax false p (Z.min ea eb));
      simpl in Hn |- *; try contradiction; intros; discriminate.
Qed.

Lemma sum32_zero_inv (l : list float32) :
  Forall (fun q => not_negative q = true /\ above_emin q) l ->
  is_zero (sum32 l) = true -> Forall (fun q => is_zero q = true) l.
Proof.
  unfold sum32.
  assert (H : forall acc,
             not_negative acc = true -> above_emin acc ->
             Forall (fun q => not_negative q = true /\ above_emin q) l ->
             is_zero (fold_left F32.add l acc) = true ->
             is_zero acc = true /\ Forall (fun q => is_zero q = true) l).
  { induction l as [|q l IH]; intros acc Hn He Hl Hz; cbn [fold_left] in *.
    - split; [exact Hz|constructor].
    - inversion Hl as [|? ? [Hq1 Hq2] Hl']; subst.
      destruct (add_zero_inv acc q Hn Hq1 He Hq2) as [Hs Hi].
      destruct (IH (F32.add acc q)) as [Hz' Hf]; trivial.
      { apply SFadd_not_negative; assumption. }
      destruct (Hi Hz') as [Hacc Hq]. split; [exact Hacc|].
      constructor; assumption. }
  intros Hl Hz. apply (H F32.zero); trivial. exact I.
Qed.

Lemma gram_matrix_not_empty (x g : ndarray) :
  gram_matrix x = Ok g -> (0 < last_axis x)%nat -> data g <> [].
Proof.
  unfold gram_matrix. destruct (shape x) eqn:Es; [discriminate|].
  destruct (last_axis x) as [|c]; [lia|].
  intros H _. injection H as <-. cbn [data seq flat_map map app]. discriminate.
Qed.

Lemma squared_differences_not_negative (a b : ndarray) :
  Forall (fun q => not_negative q = true /\ above_emin q) (squared_differences a b).
Proof.
  unfold squared_differences. apply Forall_forall. intros q Hq.
  apply in_map_iff in Hq. destruct Hq as (p & <- & _).
  split; [apply SFmul_self_not_negative|apply square_above_emin].
Qed.

Lemma style_loss_mean (base_style gram gram_target : ndarray) :
  gram_matrix base_style = Ok gram ->
  shape gram_target = shape gram ->
  style_loss base_style gram_target
  = Ok (F32.div (sum32 (squared_differences gram gram_target))
          (F32.of_Z (Z.of_nat (length (squared_differences gram gram_target))))).
Proof.
  intros Hg Hs. unfold style_loss. rewrite Hg. cbn [rbind].
  unfold tensor_sub. rewrite Hs, list_eqb_nat_refl. cbn [rbind].
  unfold reduce_mean, square, squared_differences. cbn [data].
  rewrite !map_map. reflexivity.
Qed.

(** *** Magnitudes *)

Lemma digits2_unique (m : positive) (k : Z) :
  2 ^ (k - 1) <= Zpos m < 2 ^ k -> Zpos (digits2_pos m) = k.
Proof.
  intros [Hl Hu]. pose proof (digits2_lower m) as Hl'.
  pose proof (digits2_upper m) as Hu'.
  set (d := Zpos (digits2_pos m)) in *. assert (Hd : 1 <= d) by (unfold d; lia).
  assert (Hk : 1 <= k).
  { destruct (Z.le_gt_cases 1 k) as [H|H]; trivial. exfalso.
    destruct (Z.eq_dec k 0) as [->|Hk0].
    - simpl in Hu. lia.
    - rewrite (Z.pow_neg_r 2 k) in Hu by lia. lia. }
  destruct (Z.lt_trichotomy d k) as [H|[H|H]]; trivial; exfalso.
  - assert (2 ^ d <= 2 ^ (k - 1)) by (apply Z.pow_le_mono_r; lia). lia.
  - assert (2 ^ k <= 2 ^ (d - 1)) by (apply Z.pow_le_mono_r; lia). lia.
Qed.

Lemma digits2_le (a b : positive) :
  (a <= b)%positive -> Zpos (digits2_pos a) <= Zpos (digits2_pos b).
Proof.
  intros H. pose proof (digits2_lower a) as Hl. pose proof (digits2_upper b) as Hu.
  destruct (Z.le_gt_cases (Zpos (digits2_pos a)) (Zpos (digits2_pos b))) as [|Hgt];
    trivial. exfalso.
  assert (2 ^ Zpos (digits2_pos b) <= 2 ^ (Zpos (digits2_pos a) - 1))
    by (apply Z.pow_le_mono_r; lia).
  lia.
Qed.

(** The digits left of a mantissa by a shift to the right. *)
Lemma digits2_shift (m : positive) (n : Z) :
  0 <= n < Zpos (digits2_pos m) ->
  exists q : positive,
    Zpos m / 2 ^ n = Zpos q /\ Zpos (digits2_pos q) = Zpos (digits2_pos m) - n.
Proof.
  intros Hn. pose proof (digits2_lower m) as Hl. pose proof (digits2_upper m) as Hu.
  set (d := Zpos (digits2_pos m)) in *.
  assert (Hp : 0 < 2 ^ n) by (apply Z.pow_pos_nonneg; lia).
  assert (Hlow : 2 ^ (d - n - 1) <= Zpos m / 2 ^ n).
  { apply Z.div_le_lower_bound; [lia|].
    rewrite <- Z.pow_add_r by lia. replace (n + (d - n - 1)) with (d - 1) by lia.
    exact Hl. }
  assert (Hup : Zpos m / 2 ^ n < 2 ^ (d - n)).
  { apply Z.div_lt_upper_bound; [lia|].
    rewrite <- Z.pow_add_r by lia. replace (n + (d - n)) with d by lia. exact Hu. }
  assert (Hpos : 0 < 2 ^ (d - n - 1)) by (apply Z.pow_pos_nonneg; lia).
  destruct (Zpos m / 2 ^ n) as [|q|q] eqn:E; try lia.
  exists q. split; [reflexivity|]. apply digits2_unique. split; assumption.
Qed.

Section Magnitudes.
Variables prec emax : Z.
Hypothesis prec_pos : 1 <= prec.

(** One normalisation step keeps the magnitude. *)
Lemma shr_fexp_magnitude (m : positive) (e : Z) (l : location) :
  emin prec emax < e + Zpos (digits2_pos m) ->
  exists q : positive,
    shr_m (fst (shr_fexp prec emax (Zpos m) e l)) = Zpos q /\
    Zpos (digits2_pos q) + snd (shr_fexp prec emax (Zpos m) e l)
    = Zpos (digits2_pos m) + e.
Proof.
  intros He. unfold shr_fexp, shr. cbn [Zdigits2].
  set (d := Zpos (digits2_pos m)) in *.
  destruct (fexp prec emax (d + e) - e) as [|n|n] eqn:Hn; cbn [fst snd].
  - exists m. rewrite shr_record_of_loc_m. auto.
  - rewrite iter_shr_1_m by (rewrite shr_record_of_loc_m; lia).
    rewrite shr_record_of_loc_m.
    destruct (digits2_shift m (Zpos n)) as (q & Hq & Hd).
    { fold d. unfold fexp in Hn. lia. }
    exists q. split; [exact Hq|]. fold d in Hd. lia.
  - exists m. rewrite shr_record_of_loc_m. auto.
Qed.

(** Rounding does not lower the magnitude of a number that is not below
    the smallest exponent. *)
Lemma binary_round_aux_magnitude (s : bool) (m : positive) (e : Z) (l : location) :
  emin prec emax < e + Zpos (digits2_pos m) ->
  match binary_round_aux prec emax s (Zpos m) e l with
  | S754_finite _ m' e' => Zpos (digits2_pos m) + e <= Zpos (digits2_pos m') + e'
  | S754_infinity _ => True
  | _ => False
  end.
Proof.
  intros He. unfold binary_round_aux.
  destruct (shr_fexp_magnitude m e l He) as (q1 & Hq1 & Hm1).
  destruct (shr_fexp prec emax (Zpos m) e l) as [mrs' e']. cbn [fst snd] in Hq1, Hm1.
  assert (H3 := round_nearest_even_ge (shr_m mrs') (loc_of_shr_record mrs')).
  rewrite Hq1 in *.
  destruct (round_nearest_even (Zpos q1) (loc_of_shr_record mrs')) as [|q2|q2];
    try lia.
  assert (Hd := digits2_le q1 q2 ltac:(lia)).
  assert (H4 : emin prec emax < e' + Zpos (digits2_pos q2)) by lia.
  destruct (shr_fexp_magnitude q2 e' loc_Exact H4) as (q3 & Hq3 & Hm3).
  destruct (shr_fexp prec emax (Zpos q2) e' loc_Exact) as [mrs'' e''].
  cbn [fst snd] in Hq3, Hm3. rewrite Hq3.
  destruct (e'' <=? emax - prec); [lia|exact I].
Qed.

Lemma binary_round_magnitude (s : bool) (m : positive) (e : Z) :
  emin prec emax < e + Zpos (digits2_pos m) ->
  match binary_round prec emax s m e with
  | S754_finite _ m' e' => Zpos (digits2_pos m) + e <= Zpos (digits2_pos m') + e'
  | S754_infinity _ => True
  | _ => False
  end.
Proof.
  intros He. unfold binary_round, shl_align.
  set (f := fexp prec emax (Zpos (digits2_pos m) + e)).
  destruct (f - e) as [|k|k] eqn:Hfe; try (apply binary_round_aux_magnitude; exact He).
  pose proof (binary_round_aux_magnitude s (Pos.iter xO m k) f loc_Exact) as H.
  rewrite digits2_iter_xO in H.
  destruct (binary_round_aux prec emax s (Zpos (Pos.iter xO m k)) f loc_Exact);
    try (apply H; lia).
  assert (Zpos (digits2_pos m + k) + f <= Zpos (digits2_pos m0) + e0)
    by (apply H; lia).
  lia.
Qed.

End Magnitudes.

Lemma shl_align_magnitude (m : positive) (e ez : Z) :
  ez <= e ->
  Zpos (digits2_pos (fst (shl_align m e ez))) + ez = Zpos (digits2_pos m) + e.
Proof.
  intros H. unfold shl_align. destruct (ez - e) as [|k|k] eqn:E; cbn [fst]; try lia.
  rewrite digits2_iter_xO. lia.
Qed.

Lemma above_emin_magnitude (x : float32) :
  above_emin x -> emin F32.prec F32.emax <= magnitude x.
Proof.
  destruct x as [s|s| |s m e]; cbn [above_emin magnitude]; lia.
Qed.

(** A sum of numbers that are not negative is at least as large as each
    of them. *)
Lemma add_magnitude (a b : float32) :
  not_negative a = true -> not_negative b = true ->
  above_emin a -> above_emin b ->
  Float.is_finite (F32.add a b) = true ->
  Float.is_finite a = true /\ Float.is_finite b = true /\
  magnitude a <= magnitude (F32.add a b) /\
  magnitude b <= magnitude (F32.add a b).
Proof.
  intros Ha Hb Ea Eb.
  pose proof (above_emin_magnitude a Ea) as Ma.
  pose proof (above_emin_magnitude b Eb) as Mb.
  destruct a as [sa|sa| |sa ma ea], b as [sb|sb| |sb mb eb];
    cbn [not_negative] in Ha, Hb;
    try (apply negb_true_iff in Ha); try (apply negb_true_iff in Hb); subst;
    try (cbn; intros; discriminate);
    try (cbn [F32.add SFadd Float.is_finite magnitude] in *; intros _;
         repeat split; trivial; lia).
  cbn [above_emin] in Ea, Eb.
  unfold F32.add, SFadd. cbn [cond_Zopp Z.add binary_normalize].
  set (ez := Z.min ea eb).
  pose proof (shl_align_magnitude ma ea ez ltac:(unfold ez; lia)) as Da.
  pose proof (shl_align_magnitude mb eb ez ltac:(unfold ez; lia)) as Db.
  set (pa := fst (shl_align ma ea ez)) in *. set (pb := fst (shl_align mb eb ez)) in *.
  pose proof (digits2_le pa (pa + pb) ltac:(lia)) as La.
  pose proof (digits2_le pb (pa + pb) ltac:(lia)) as Lb.
  pose proof (binary_round_magnitude F32.prec F32.emax ltac:(unfold F32.prec; lia)
                false (pa + pb) ez) as Hr.
  assert (He : emin F32.prec F32.emax < ez + Zpos (digits2_pos (pa + pb))).
  { pose proof (Pos2Z.is_pos (digits2_pos (pa + pb))). unfold ez. lia. }
  specialize (Hr He).
  destruct (binary_round F32.prec F32.emax false (pa + pb) ez) as [s|s| |s m e];
    try contradiction; try (cbn; intros; discriminate).
  intros _. cbn [Float.is_finite magnitude]. repeat split; trivial; lia.
Qed.

Lemma sum32_magnitude (l : list float32) :
  Forall (fun q => not_negative q = true /\ above_emin q) l ->
  Float.is_finite (sum32 l) = true ->
  Forall (fun q => Float.is_finite q = true /\ magnitude q <= magnitude (sum32 l)) l.
Proof.
  unfold sum32.
  assert (H : forall acc,
             not_negative acc = true -> above_emin acc ->
             Forall (fun q => not_negative q = true /\ above_emin q) l ->
             Float.is_finite (fold_left F32.add l acc) = true ->
             (Float.is_finite acc = true /\
              magnitude acc <= magnitude (fold_left F32.add l acc)) /\
             Forall (fun q => Float.is_finite q = true /\
                              magnitude q <= magnitude (fold_left F32.add l acc)) l).
  { induction l as [|q l IH]; intros acc Hn He Hl Hf; cbn [fold_left] in *.
    - split; [split; [exact Hf|lia]|constructor].
    - inversion Hl as [|? ? [Hq1 Hq2] Hl']; subst.
      destruct (add_zero_inv acc q Hn Hq1 He Hq2) as [Hs _].
      destruct (IH (F32.add acc q)) as [[Hfin Hmag] Hall]; trivial.
      { apply SFadd_not_negative; assumption. }
      destruct (add_magnitude acc q Hn Hq1 He Hq2 Hfin) as (Fa & Fq & Ma & Mq).
      split; [split; [exact Fa|lia]|]. constructor; [split; [exact Fq|lia]|exact Hall]. }
  intros Hl Hf. apply (H F32.zero); trivial. exact I.
Qed.

(** The square of a number has about twice its magnitude. *)
Lemma square_magnitude (d : float32) :
  Float.is_finite (F32.mul d d) = true ->
  Float.is_finite d = true /\ 2 * magnitude d - 1 <= magnitude (F32.mul d d).
Proof.
  destruct d as [s|s| |s m e]; cbn [F32.mul SFmul]; try (intros; discriminate).
  - intros _. split; [reflexivity|]. cbn. lia.
  - intros Hf. split; [reflexivity|]. cbn [magnitude].
    pose proof (digits2_square m) as Hd.
    pose proof (binary_round_aux_above_emin F32.prec F32.emax (xorb s s)
                  (Zpos (m * m)) (e + e) loc_Exact) as Hab.
    destruct (Z.le_gt_cases (e + e + Zpos (digits2_pos (m * m)))
                (emin F32.prec F32.emax)) as [Hu|Hu].
    + assert (Hm : emin F32.prec F32.emax
                   <= magnitude (binary_round_aux F32.prec F32.emax (xorb s s)
                                   (Zpos (m * m)) (e + e) loc_Exact)).
      { apply above_emin_magnitude.
        destruct (binary_round_aux F32.prec F32.emax (xorb s s) (Zpos (m * m))
                    (e + e) loc_Exact); cbn [above_emin]; trivial. }
      lia.
    + pose proof (binary_round_aux_magnitude F32.prec F32.emax
                    ltac:(unfold F32.prec; lia) (xorb s s) (m * m) (e + e) loc_Exact
                    ltac:(lia)) as Hr.
      destruct (binary_round_aux F32.prec F32.emax (xorb s s) (Zpos (m * m))
                  (e + e) loc_Exact) as [s'|s'| |s' m' e'];
        try contradiction; try discriminate.
      cbn [magnitude]. lia.
Qed.

(** A quotient underflows to zero only when the dividend is 148 binary
    orders of magnitude below the divisor. *)
Lemma div_zero_magnitude (m mN : positive) (e eN : Z) :
  is_zero (F32.div (S754_finite false m e) (S754_finite false mN eN)) = true ->
  Zpos (digits2_pos m) + e <= Zpos (digits2_pos mN) + eN - 148.
Proof.
  intros Hz.
  destruct (Z.le_gt_cases (Zpos (digits2_pos m) + e)
              (Zpos (digits2_pos mN) + eN - 148)) as [H|H]; [exact H|exfalso].
  unfold F32.div, SFdiv, SFdiv_core_binary, F32.prec, F32.emax in Hz.
  cbn [Zdigits2 xorb] in Hz.
  set (d1 := Zpos (digits2_pos m)) in *. set (d2 := Zpos (digits2_pos mN)) in *.
  set (x := d1 + e - (d2 + eN)) in *.
  set (e' := Z.min (fexp 24 128 x) (e - eN)) in *.
  assert (He' : e' <= e - eN /\ 2 <= x - e').
  { unfold e', fexp, emin. lia. }
  set (s := e - eN - e') in *.
  assert (Hm' : match s with
                | 0 => Zpos m
                | Zpos _ => Z.shiftl (Zpos m) s
                | Zneg _ => 0
                end = Zpos m * 2 ^ s).
  { destruct s as [|p|p] eqn:Es; [simpl; lia|apply Z.shiftl_mul_pow2; lia|lia]. }
  rewrite Hm' in Hz. clear Hm'.
  pose proof (digits2_lower m) as Hl. pose proof (digits2_upper mN) as Hu.
  fold d1 in Hl. fold d2 in Hu.
  assert (Hd1 : 1 <= d1) by (unfold d1; lia).
  assert (Hs : 0 <= s) by (unfold s; lia).
  assert (Hq : 2 ^ (x - e' - 1) <= (Zpos m * 2 ^ s) / Zpos mN).
  { apply Z.div_le_lower_bound; [lia|].
    assert (H1 : 2 ^ (d1 - 1) * 2 ^ s <= Zpos m * 2 ^ s).
    { apply Z.mul_le_mono_nonneg_r; [apply Z.pow_nonneg; lia|exact Hl]. }
    rewrite <- Z.pow_add_r in H1 by lia.
    replace (d1 - 1 + s) with (d2 + (x - e' - 1)) in H1 by (unfold s, x; lia).
    rewrite Z.pow_add_r in H1 by (unfold d2; lia).
    assert (H2 : Zpos mN * 2 ^ (x - e' - 1) <= 2 ^ d2 * 2 ^ (x - e' - 1)).
    { apply Z.mul_le_mono_nonneg_r; [apply Z.pow_nonneg; lia|lia]. }
    lia. }
  assert (Hp : 2 <= 2 ^ (x - e' - 1)).
  { change 2 with (2 ^ 1) at 1. apply Z.pow_le_mono_r; lia. }
  unfold Z.div in Hq.
  destruct (Z.div_eucl (Zpos m * 2 ^ s) (Zpos mN)) as [q r]. cbn [fst] in Hq.
  destruct q as [|q|q]; try lia.
  assert (Hdq : x - e' <= Zpos (digits2_pos q)).
  { pose proof (digits2_upper q) as Huq.
    destruct (Z.le_gt_cases (x - e') (Zpos (digits2_pos q))) as [|Hgt]; trivial.
    exfalso.
    assert (2 ^ Zpos (digits2_pos q) <= 2 ^ (x - e' - 1))
      by (apply Z.pow_le_mono_r; lia).
    lia. }
  pose proof (binary_round_aux_number 24 128 ltac:(lia) false q e'
                (new_location (Zpos mN) r)) as Hn.
  assert (Hgt : emin 24 128 < e' + Zpos (digits2_pos q)).
  { unfold emin. unfold x in *. lia. }
  specialize (Hn Hgt).
  destruct (binary_round_aux 24 128 false (Zpos q) e'
              (new_location (Zpos mN) r));
    simpl in Hn, Hz; try contradiction; discriminate.
Qed.

(** 1 at the least. *)
Lemma count_magnitude (n : nat) :
  (0 < n)%nat ->
  match F32.of_Z (Z.of_nat n) with
  | S754_finite _ m e => 1 <= Zpos (digits2_pos m) + e
  | S754_infinity _ => True
  | _ => False
  end.
Proof.
  intros H. unfold F32.of_Z, Float.of_Z, binary_normalize.
  destruct (Z.of_nat n) as [|p|p] eqn:E; try lia.
  pose proof (binary_round_magnitude F32.prec F32.emax ltac:(unfold F32.prec; lia)
                false p 0) as Hr.
  assert (He : emin F32.prec F32.emax < 0 + Zpos (digits2_pos p)).
  { unfold emin, F32.prec, F32.emax. pose proof (Pos2Z.is_pos (digits2_pos p)). lia. }
  specialize (Hr He).
  destruct (binary_round F32.prec F32.emax false p 0); trivial.
  pose proof (Pos2Z.is_pos (digits2_pos p)). lia.
Qed.

(** When the mean of the squared differences is zero, every difference
    is zero or small: its square is at most the sum, and the sum is zero
    or underflows when divided by the count. *)
Lemma zero_mean_small_differences (a b : ndarray) :
  squared_differences a b <> [] ->
  Float.is_finite (F32.of_Z (Z.of_nat (length (squared_differences a b)))) = true ->
  is_zero (F32.div (sum32 (squared_differences a b))
             (F32.of_Z (Z.of_nat (length (squared_differences a b))))) = true ->
  forall g t : float32,
    In (g, t) (combine (data a) (data b)) ->
    below_pow2
      ((magnitude (F32.of_Z (Z.of_nat (length (squared_differences a b)))) - 147) / 2)
      (F32.sub g t).
Proof.
  intros Hne HN Hz g t Hin.
  set (sq := squared_differences a b) in *.
  assert (Hn : (0 < length sq)%nat) by (destruct sq; [congruence|simpl; lia]).
  pose proof (count_magnitude _ Hn) as HmN.
  pose proof (squared_differences_not_negative a b) as Hsq. fold sq in Hsq.
  set (Nf := F32.of_Z (Z.of_nat (length sq))) in *.
  destruct Nf as [sN|sN| |sN mN eN] eqn:EN; try discriminate; try contradiction.
  assert (Hpos : not_negative (sum32 sq) = true).
  { apply sum32_not_negative. revert Hsq. apply Forall_impl. tauto. }
  assert (HS : Float.is_finite (sum32 sq) = true /\
               magnitude (sum32 sq) <= Zpos (digits2_pos mN) + eN - 148).
  { destruct (sum32 sq) as [s|s| |s m e] eqn:ES; try discriminate.
    - split; [reflexivity|]. cbn [magnitude]. unfold emin, F32.prec, F32.emax. lia.
    - cbn [not_negative] in Hpos. apply negb_true_iff in Hpos. subst s.
      split; [reflexivity|]. cbn [magnitude].
      apply div_zero_magnitude.
      destruct sN; [|exact Hz].
      unfold F32.div, SFdiv in Hz |- *. cbn [xorb] in *.
      destruct (SFdiv_core_binary F32.prec F32.emax (Zpos m) e (Zpos mN) eN)
        as [[mz ez] lz].
      pose proof (binary_round_aux_abs F32.prec F32.emax true mz ez lz) as Habs.
      destruct (binary_round_aux F32.prec F32.emax true mz ez lz);
        try discriminate; cbn [SFabs] in Habs; rewrite <- Habs; reflexivity. }
  destruct HS as [HSf HSm].
  pose proof (sum32_magnitude sq Hsq HSf) as Hall. rewrite Forall_forall in Hall.
  assert (Hq : In (F32.mul (F32.sub g t) (F32.sub g t)) sq).
  { unfold sq, squared_differences. apply in_map_iff. exists (g, t). auto. }
  destruct (Hall _ Hq) as [Hqf Hqm].
  destruct (square_magnitude _ Hqf) as [Hdf Hdm].
  cbn [magnitude].
  assert (Hk : magnitude (F32.sub g t) <= (Zpos (digits2_pos mN) + eN - 147) / 2).
  { apply Z.div_le_lower_bound; lia. }
  destruct (F32.sub g t) as [s|s| |s m e]; try discriminate; cbn [below_pow2];
    [exact I|exact Hk].
Qed.

Lemma below_pow2_le (k k' : Z) (x : spec_float) :
  k <= k' -> below_pow2 k x -> below_pow2 k' x.
Proof. destruct x; cbn [below_pow2]; trivial. lia. Qed.

(** Claim C7, as amended.  For a feature tensor with at least one
    channel whose Gram matrix has only finite entries, the style loss
    against its own Gram matrix is exactly zero.  More generally, against
    any target of the shape of the Gram matrix, [style_loss] returns, and
    what it returns is zero if and only if the squares of the differences
    of the entries of the two matrices, each computed in float32, are
    all zero, or add up to a positive number whose mean underflows to
    zero.  So a loss of zero means that the two matrices are equal up to
    what float32 cannot tell from zero: the square of a difference is
    zero only when the difference is zero or below 2^-63 in magnitude,
    and whenever the loss is zero every difference [g - t] is zero or
    below [2^((b - 125) / 2)] in magnitude, [b] being the magnitude of
    the number of entries.  (The two bounds are the ones that hold as
    well when the backend flushes subnormal results to zero; with the
    gradual underflow embedded here the lemmas above give 2^-74 and
    [b - 147].) *)
Theorem style_loss_zero_on_own_gram (base_style gram : ndarray) :
  gram_matrix base_style = Ok gram ->
  (0 < last_axis base_style)%nat ->
  (Forall (fun g => Float.is_finite g = true) (data gram) ->
   style_loss base_style gram = Ok F32.zero) /\
  (forall gram_target : ndarray,
      shape gram_target = shape gram ->
      length (data gram_target) = length (data gram) ->
      (exists l,
          style_loss base_style gram_target = Ok l /\
          (l = F32.zero <->
           Forall (fun q => is_zero q = true)
             (squared_differences gram gram_target) \/
           mean_underflows (squared_differences gram gram_target))) /\
      (forall g t : float32,
          In (g, t) (combine (data gram) (data gram_target)) ->
          is_zero (F32.mul (F32.sub g t) (F32.sub g t)) = true ->
          below_pow2 (-63) (F32.sub g t)) /\
      (Float.is_finite (F32.of_Z (Z.of_nat (length (data gram)))) = true ->
       style_loss base_style gram_target = Ok F32.zero ->
       forall g t : float32,
         In (g, t) (combine (data gram) (data gram_target)) ->
         below_pow2
           ((magnitude (F32.of_Z (Z.of_nat (length (data gram)))) - 125) / 2)
           (F32.sub g t))).
Proof.
  intros Hg Hc. pose proof (gram_matrix_not_empty _ _ Hg Hc) as Hne. split.
  - intros Hfin. unfold style_loss. rewrite Hg. cbn [rbind].
    apply mean_square_diag; assumption.
  - intros gram_target Hs Hl.
    set (sq := squared_differences gram gram_target).
    assert (Hlen : length sq = length (data gram)).
    { unfold sq, squared_differences. rewrite length_map, length_combine, Hl.
      apply Nat.min_id. }
    assert (Hn : (0 < length sq)%nat).
    { rewrite Hlen. destruct (data gram); [congruence|simpl; lia]. }
    pose proof (squared_differences_not_negative gram gram_target) as Hsq.
    fold sq in Hsq.
    split; [|split].
    + rewrite (style_loss_mean _ _ _ Hg Hs). fold sq.
      eexists. split; [reflexivity|]. split.
      * intros Hz.
        assert (Hpos : not_negative (sum32 sq) = true).
        { apply sum32_not_negative. revert Hsq. apply Forall_impl. tauto. }
        pose proof (F32_of_pos_number _ Hn) as HN.
        unfold mean_underflows.
        destruct (sum32 sq) as [s|s| |s m e] eqn:ES.
        -- left. apply sum32_zero_inv; [exact Hsq|]. rewrite ES. reflexivity.
        -- exfalso. destruct (F32.of_Z (Z.of_nat (length sq))); simpl in HN, Hz;
             try contradiction; discriminate.
        -- discriminate.
        -- right. cbn [not_negative] in Hpos. apply negb_true_iff in Hpos. subst s.
           exists m, e. split; [reflexivity|exact Hz].
      * intros [Hz|(m & e & Hsum & Hdiv)].
        -- rewrite sum32_zeros; [apply div_zero_count; exact Hn|].
           rewrite Forall_forall in Hz, Hsq |- *. intros q Hq.
           destruct (Hsq q Hq) as [Hnn _]. specialize (Hz q Hq).
           destruct q as [[]| | |]; simpl in Hz, Hnn; try discriminate; reflexivity.
        -- rewrite Hsum. exact Hdiv.
    + intros g t _ Hz. apply (below_pow2_le (-74)); [lia|].
      apply square_zero_small. exact Hz.
    + intros HN Hzero g t Hin.
      apply (below_pow2_le
               ((magnitude (F32.of_Z (Z.of_nat (length (data gram)))) - 147) / 2)).
      { apply Z.div_le_mono; lia. }
      rewrite <- Hlen. unfold sq.
      apply zero_mean_small_differences; trivial.
      * fold sq. destruct sq; [simpl in Hn; lia|discriminate].
      * fold sq. rewrite Hlen. exact HN.
      * rewrite (style_loss_mean _ _ _ Hg Hs) in Hzero.
        assert (Hd : F32.div (sum32 (squared_differences gram gram_target))
                       (F32.of_Z (Z.of_nat
                          (length (squared_differences gram gram_target))))
                     = F32.zero) by congruence.
        rewrite Hd. reflexivity.
Qed.

(** ** The Gram matrix *)

Lemma dot_comm (xs ys : list float32) : dot xs ys = dot ys xs.
Proof.
  unfold dot. f_equal. revert ys.
  induction xs as [|x xs IH]; intros [|y ys]; simpl; try reflexivity.
  rewrite IH. f_equal. apply SFmul_comm.
Qed.

Lemma nth_error_flat_map_rows {A : Type} (f : nat -> list A) (C : nat) :
  (forall i, length (f i) = C) ->
  forall (n a i j : nat),
    (i < n)%nat -> (j < C)%nat ->
    nth_error (flat_map f (seq a n)) (i * C + j) = nth_error (f (a + i)%nat) j.
Proof.
  intros Hlen. induction n as [|n IH]; intros a i j Hi Hj; [lia|].
  cbn [seq flat_map]. destruct i as [|i].
  - rewrite nth_error_app1 by (rewrite Hlen; lia). rewrite Nat.add_0_r. reflexivity.
  - rewrite nth_error_app2 by (rewrite Hlen; simpl; lia).
    rewrite Hlen. replace (S i * C + j - C)%nat with (i * C + j)%nat by (simpl; lia).
    rewrite IH by lia. f_equal. f_equal. lia.
Qed.

(** Property X5.  [gram_matrix] returns a square matrix with one row
    and one column per channel; it is symmetric, and the entries of its
    diagonal are not negative (or NaN). *)
Theorem gram_matrix_symmetric (input_tensor gram : ndarray) :
  gram_matrix input_tensor = Ok gram ->
  shape gram = [last_axis input_tensor; last_axis input_tensor] /\
  length (data gram) = (last_axis input_tensor * last_axis input_tensor)%nat /\
  forall i j : nat,
    (i < last_axis input_tensor)%nat -> (j < last_axis input_tensor)%nat ->
    exists g,
      nth_error (data gram) (i * last_axis input_tensor + j) = Some g /\
      nth_error (data gram) (j * last_axis input_tensor + i) = Some g /\
      (i = j -> not_negative g = true).
Proof.
  intros H. set (channels := last_axis input_tensor).
  unfold gram_matrix in H. fold channels in H.
  destruct (shape input_tensor) as [|d0 ds] eqn:Es; [discriminate|].
  injection H as <-. cbn [shape data].
  set (a := chunks channels (data input_tensor)).
  set (column := fun i : nat => map (fun row : list float32 => nth i row F32.zero) a).
  set (row := fun i : nat => map (fun j => dot (column i) (column j)) (seq 0 channels)).
  assert (Hrow : forall i, length (row i) = channels).
  { intros i. unfold row. rewrite length_map, length_seq. reflexivity. }
  assert (Hent : forall i j, (i < channels)%nat -> (j < channels)%nat ->
            nth_error (flat_map row (seq 0 channels)) (i * channels + j)
            = Some (dot (column i) (column j))).
  { intros i j Hi Hj. rewrite (nth_error_flat_map_rows row channels Hrow) by trivial.
    unfold row. rewrite nth_error_map, nth_error_seq.
    destruct (Nat.ltb_spec j channels); [|lia]. reflexivity. }
  split; [reflexivity|]. split.
  - rewrite length_map. clear Hent. fold row.
    assert (Hl : forall n s, length (flat_map row (seq s n)) = (n * channels)%nat).
    { induction n as [|n IH]; intros s; cbn [seq flat_map]; [reflexivity|].
      rewrite length_app, Hrow, IH. simpl. reflexivity. }
    apply Hl.
  - intros i j Hi Hj.
    exists (F32.div (dot (column i) (column j)) (F32.of_Z (Z.of_nat (length a)))).
    fold row. rewrite !nth_error_map, !Hent by trivial. cbn [option_map].
    split; [reflexivity|]. split; [rewrite (dot_comm (column j)); reflexivity|].
    intros <-. apply SFdiv_not_negative; [|apply of_Z_not_negative; lia].
    unfold dot. apply sum32_not_negative. apply Forall_forall. intros x Hx.
    apply in_map_iff in Hx. destruct Hx as ([u v] & <- & Hin). cbn [fst snd].
    assert (u = v) as ->.
    { clear - Hin. induction (column i) as [|c l IH]; simpl in Hin; [contradiction|].
      destruct Hin as [E|Hin]; [congruence|auto]. }
    apply SFmul_self_not_negative.
Qed.

(** ** The model and the features *)

Lemma mapM_app_inv {A B : Type} (f : A -> result B) (l1 l2 : list A) :
  forall bs, mapM f (l1 ++ l2) = Ok bs ->
    mapM f l1 = Ok (firstn (length l1) bs) /\
    mapM f l2 = Ok (skipn (length l1) bs).
Proof.
  induction l1 as [|a l1 IH]; intros bs H.
  - simpl in *. auto.
  - cbn [app mapM] in H. rbind_inv H as b E1. rbind_inv H as bs' E2.
    assert (Hb : bs = b :: bs') by congruence. subst bs.
    destruct (IH _ E2) as [H1 H2]. cbn [length firstn skipn mapM].
    rewrite E1, H1, H2. auto.
Qed.

Lemma mapM_map {A B C : Type} (g : A -> B) (f : B -> result C) (l : list A) :
  mapM f (map g l) = mapM (fun a => f (g a)) l.
Proof. induction l as [|a l IH]; simpl; [reflexivity|]. rewrite IH. reflexivity. Qed.

Lemma mapM_compose {A B C : Type} (g : A -> result B) (f : B -> result C)
  (l : list A) (bs : list B) :
  mapM g l = Ok bs ->
  mapM f bs = mapM (fun a => let? b := g a in f b) l.
Proof.
  revert bs. induction l as [|a l IH]; intros bs H; simpl in H.
  - assert (bs = []) by congruence. subst. reflexivity.
  - rbind_inv H as b E1. rbind_inv H as bs' E2.
    assert (bs = b :: bs') by congruence. subst bs.
    cbn [mapM]. rewrite E1. cbn [rbind]. rewrite (IH _ E2). reflexivity.
Qed.

Lemma get_model_inv (B : Backend) (self : ImageConverter) (model : keras_model) :
  _get_model B self = Ok model ->
  exists vgg,
    VGG19 B = Ok vgg /\
    forall x, model x = mapM (fun name => vgg name x)
                          (style_layers self ++ content_layers self).
Proof.
  unfold _get_model. intros H. rbind_inv H as vgg E. exists vgg. split; [exact E|].
  intros x. assert (Hm : model = fun x => mapM (fun layer => layer x)
                                     (map vgg (style_layers self)
                                      ++ map vgg (content_layers self)))
    by congruence.
  rewrite Hm, <- map_app, mapM_map. reflexivity.
Qed.

(** Property X6.  The model of [_get_model] returns one output per
    layer name: the activations of the style layers, in their order,
    followed by those of the content layers.  When [num_style_layers] is
    the number of style layers, cutting the outputs there, as
    [compute_loss] and [run_gradient_descent] do, separates the two. *)
Theorem model_outputs_in_layer_order (B : Backend) (self : ImageConverter)
  (model : keras_model) (x : ndarray) (outputs : list ndarray) :
  _get_model B self = Ok model ->
  num_style_layers self = length (style_layers self) ->
  model x = Ok outputs ->
  exists vgg,
    VGG19 B = Ok vgg /\
    length outputs = (length (style_layers self) + length (content_layers self))%nat /\
    mapM (fun name => vgg name x) (style_layers self)
    = Ok (firstn (num_style_layers self) outputs) /\
    mapM (fun name => vgg name x) (content_layers self)
    = Ok (skipn (num_style_layers self) outputs).
Proof.
  intros Hm Hn Ho. destruct (get_model_inv _ _ _ Hm) as (vgg & Hv & Hx).
  exists vgg. split; [exact Hv|]. rewrite Hx in Ho.
  split; [rewrite (mapM_length _ _ _ Ho); apply length_app|].
  rewrite Hn. apply mapM_app_inv. exact Ho.
Qed.

(** Property X7.  For a converter built by [__init__] the model returns
    six outputs: the activations of block1_conv1 to block5_conv1, then
    the activation of block5_conv2. *)
Theorem init_model_has_six_outputs (B : Backend)
  (content_path style_path : string) (iteration max_dim : Z)
  (model : keras_model) (x : ndarray) (outputs : list ndarray) :
  _get_model B (__init__ content_path style_path iteration max_dim) = Ok model ->
  model x = Ok outputs ->
  exists vgg o1 o2 o3 o4 o5 o6,
    VGG19 B = Ok vgg /\
    outputs = [o1; o2; o3; o4; o5; o6] /\
    vgg "block1_conv1"%string x = Ok o1 /\
    vgg "block2_conv1"%string x = Ok o2 /\
    vgg "block3_conv1"%string x = Ok o3 /\
    vgg "block4_conv1"%string x = Ok o4 /\
    vgg "block5_conv1"%string x = Ok o5 /\
    vgg "block5_conv2"%string x = Ok o6.
Proof.
  intros Hm Ho. destruct (get_model_inv _ _ _ Hm) as (vgg & Hv & Hx).
  rewrite Hx in Ho. cbn [__init__ style_layers content_layers app mapM] in Ho.
  rbind_inv Ho as o1 E1. rbind_inv Ho as r1 Ho1.
  rbind_inv Ho1 as o2 E2. rbind_inv Ho1 as r2 Ho2.
  rbind_inv Ho2 as o3 E3. rbind_inv Ho2 as r3 Ho3.
  rbind_inv Ho3 as o4 E4. rbind_inv Ho3 as r4 Ho4.
  rbind_inv Ho4 as o5 E5. rbind_inv Ho4 as r5 Ho5.
  rbind_inv Ho5 as o6 E6. rbind_inv Ho5 as r6 Ho6.
  exists vgg, o1, o2, o3, o4, o5, o6.
  repeat (split; [assumption|]). split; [congruence|]. auto 10.
Qed.

(** Property X8.  [run_gradient_descent] opens the content path and then
    the style path, once each, and changes nothing else.  The style
    features it returns are the first batch elements of the activations
    of the style layers on the style image, the content features those
    of the content layers on the content image, one per layer. *)
Theorem features_match_layers (B : Backend) (self : ImageConverter)
  (model : keras_model) (content_path style_path : string) (w w' : world)
  (style_features content_features : list ndarray) :
  _get_model B self = Ok model ->
  num_style_layers self = length (style_layers self) ->
  run_gradient_descent B self model content_path style_path w
  = (Ok (style_features, content_features), w') ->
  exists vgg content_image style_image,
    VGG19 B = Ok vgg /\
    _load_and_process_img B self content_path w
    = (Ok content_image,
       {| cur_iter := cur_iter w; variables := variables w;
          events := events w ++ [EvOpen content_path] |}) /\
    _load_and_process_img B self style_path
      {| cur_iter := cur_iter w; variables := variables w;
         events := events w ++ [EvOpen content_path] |}
    = (Ok style_image, w') /\
    mapM (fun name => let? out := vgg name style_image in index0 out)
      (style_layers self) = Ok style_features /\
    mapM (fun name => let? out := vgg name content_image in index0 out)
      (content_layers self) = Ok content_features /\
    length style_features = length (style_layers self) /\
    length content_features = length (content_layers self).
Proof.
  intros Hm Hn H. unfold run_gradient_descent in H.
  bind_inv H as ci w1 E1. pose proof E1 as E1'. apply load_inv in E1'.
  destruct E1' as (i1 & _ & _ & Hw1).
  bind_inv H as si w2 E2.
  bind_inv H as so w3 E3. apply lift_inv in E3. destruct E3 as [Hso ->].
  bind_inv H as co w4 E4. apply lift_inv in E4. destruct E4 as [Hco ->].
  bind_inv H as sf w5 E5. apply lift_inv in E5. destruct E5 as [Hsf ->].
  bind_inv H as cf w6 E6. apply lift_inv in E6. destruct E6 as [Hcf ->].
  apply ret_inv in H. destruct H as [H ->].
  assert (sf = style_features) by congruence.
  assert (cf = content_features) by congruence. subst sf cf. clear H.
  destruct (get_model_inv _ _ _ Hm) as (vgg & Hv & Hmodel).
  rewrite Hmodel in Hso, Hco.
  destruct (mapM_app_inv _ _ _ _ Hso) as [Hs1 _].
  destruct (mapM_app_inv _ _ _ _ Hco) as [_ Hc1].
  rewrite <- Hn in Hs1, Hc1.
  exists vgg, ci, si. subst w1.
  repeat (split; [assumption|]).
  rewrite (mapM_compose _ _ _ _ Hs1) in Hsf.
  rewrite (mapM_compose _ _ _ _ Hc1) in Hcf.
  split; [exact Hsf|]. split; [exact Hcf|].
  split; [rewrite (mapM_length _ _ _ Hsf)|rewrite (mapM_length _ _ _ Hcf)];
    reflexivity.
Qed.

(** ** What a computation leaves unchanged *)

Section Frames.
Variable R : world -> world -> Prop.
Hypothesis R_refl : forall w, R w w.
Hypothesis R_trans : forall w1 w2 w3, R w1 w2 -> R w2 w3 -> R w1 w3.

Lemma respects_ret {A : Type} (a : A) : respects R (ret a).
Proof. intros w. apply R_refl. Qed.

Lemma respects_lift {A : Type} (r : result A) : respects R (lift r).
Proof. intros w. apply R_refl. Qed.

Lemma respects_read_value (v : variable) : respects R (read_value v).
Proof.
  intros w. unfold read_value. destruct (nth_error (variables w) v); apply R_refl.
Qed.

Lemma respects_bind {A B : Type} (c : M A) (k : A -> M B) :
  respects R c -> (forall a, respects R (k a)) -> respects R (bind c k).
Proof.
  intros Hc Hk w. unfold bind. specialize (Hc w).
  destruct (c w) as [[a|e] w1]; cbn [snd] in *; [|exact Hc].
  eapply R_trans; [exact Hc|apply Hk].
Qed.

Lemma respects_if {A : Type} (b : bool) (c1 c2 : M A) :
  respects R c1 -> respects R c2 -> respects R (if b then c1 else c2).
Proof. destruct b; auto. Qed.

Lemma respects_for_each {S : Type} (body : nat -> S -> M S) (range : list nat) :
  (forall i s, respects R (body i s)) ->
  forall s, respects R (for_each body range s).
Proof.
  intros Hb. induction range as [|i range IH]; intros s; simpl.
  - apply respects_ret.
  - apply respects_bind; auto.
Qed.

End Frames.

Create HintDb frame.
#[global] Hint Resolve respects_ret respects_lift respects_read_value
  respects_bind respects_if respects_for_each : frame.

Lemma same_trace_refl (w : world) : same_trace w w.
Proof. split; reflexivity. Qed.

Lemma same_trace_trans (w1 w2 w3 : world) :
  same_trace w1 w2 -> same_trace w2 w3 -> same_trace w1 w3.
Proof. intros [H1 H2] [H3 H4]. split; congruence. Qed.

Lemma write_buffer_same_trace (v : variable) (d : list float32) :
  respects same_trace (write_buffer v d).
Proof.
  intros w. unfold write_buffer. destruct (nth_error (variables w) v);
    split; reflexivity.
Qed.

Section Assign.
Variable R : world -> world -> Prop.
Hypothesis R_refl : forall w, R w w.
Hypothesis R_trans : forall w1 w2 w3, R w1 w2 -> R w2 w3 -> R w1 w3.
Variable v : variable.
Hypothesis R_write : forall d, respects R (write_buffer v d).

Lemma respects_assign (value : ndarray) : respects R (assign v value).
Proof. unfold assign. eauto 10 with frame. Qed.

Lemma respects_apply_gradients (B : Backend) (o : slots B) (grads : ndarray) :
  respects R (apply_gradients B o grads v).
Proof. unfold apply_gradients. eauto 10 with frame. Qed.

End Assign.

#[global] Hint Resolve respects_assign respects_apply_gradients : frame.

Section ComputeGrads.
Variable R : world -> world -> Prop.
Hypothesis R_refl : forall w, R w w.
Hypothesis R_trans : forall w1 w2 w3, R w1 w2 -> R w2 w3 -> R w1 w3.

Lemma respects_compute_grads (B : Backend) (self : ImageConverter) (c : cfg) :
  respects R (compute_grads B self c).
Proof. unfold compute_grads. eauto 10 with frame. Qed.

End ComputeGrads.

#[global] Hint Resolve respects_compute_grads : frame.

Section Effects.
Variable R : world -> world -> Prop.
Hypothesis R_refl : forall w, R w w.
Hypothesis R_trans : forall w1 w2 w3, R w1 w2 -> R w2 w3 -> R w1 w3.
Hypothesis R_emit : forall e, respects R (emit e).
Hypothesis R_new : forall x, respects R (tfe_Variable x).
Hypothesis R_set : forall i, respects R (set_cur_iter i).

Lemma respects_load (B : Backend) (self : ImageConverter) (p : string) :
  respects R (_load_and_process_img B self p).
Proof. unfold _load_and_process_img. eauto 10 with frame. Qed.

Lemma respects_run_gradient_descent (B : Backend) (self : ImageConverter)
  (model : keras_model) (cp sp : string) :
  respects R (run_gradient_descent B self model cp sp).
Proof.
  pose proof (respects_load B self) as Hload.
  unfold run_gradient_descent. eauto 20 with frame.
Qed.

Lemma respects_setup (B : Backend) (self : ImageConverter) (cw sw : spec_float) :
  respects R (run_style_transfer_setup B self cw sw).
Proof.
  pose proof (respects_load B self) as Hload.
  pose proof (respects_run_gradient_descent B self) as Hrgd.
  unfold run_style_transfer_setup. eauto 20 with frame.
Qed.

Lemma respects_iteration (B : Backend) (self : ImageConverter) (L : locals)
  (i : nat) (s : loop_state B) :
  (forall d, respects R (write_buffer (init_image (l_cfg L)) d)) ->
  respects R (run_style_transfer_iteration B self L i s).
Proof.
  intros Hwrite. unfold run_style_transfer_iteration. eauto 30 with frame.
Qed.

End Effects.

(** ** Postprocessing of any tensor *)

Lemma concat_chunks (C : nat) :
  (0 < C)%nat -> forall d : list float32, concat (chunks C d) = d.
Proof.
  intros HC d. remember (length d) as n eqn:Hn. revert d Hn.
  induction n as [n IH] using lt_wf_ind. intros d Hn.
  destruct d as [|a d]; [reflexivity|].
  rewrite chunks_cons by trivial. cbn [concat].
  rewrite (IH (length (skipn C (a :: d)))); [apply firstn_skipn| |reflexivity].
  rewrite length_skipn, Hn. cbn [length]. lia.
Qed.

Lemma length_concat_map (f : list float32 -> list float32)
  (l : list (list float32)) :
  (forall px, length (f px) = length px) ->
  length (concat (map f l)) = length (concat l).
Proof.
  intros Hf. induction l as [|px l IH]; simpl; [reflexivity|].
  rewrite !length_app, Hf, IH. reflexivity.
Qed.

Lemma map_pixels_length (C : nat) (f : list float32 -> list float32)
  (d : list float32) :
  (0 < C)%nat -> (forall px, length (f px) = length px) ->
  length (map_pixels C f d) = length d.
Proof.
  intros HC Hf. unfold map_pixels. rewrite length_concat_map by exact Hf.
  rewrite concat_chunks by exact HC. reflexivity.
Qed.

Lemma on_channel_ok (c : nat) (f : float32 -> float32) (x : ndarray) :
  (c < last_axis x)%nat ->
  exists y, on_channel c f x = Ok y /\ shape y = shape x /\
            length (data y) = length (data x).
Proof.
  intros H. unfold on_channel. destruct (Nat.ltb_spec c (last_axis x)); [|lia].
  eexists. split; [reflexivity|]. split; [reflexivity|]. cbn [data].
  apply map_pixels_length; [lia|]. intros px. apply on_nth_length.
Qed.

Lemma on_channel_raises (c : nat) (f : float32 -> float32) (x : ndarray) :
  (last_axis x <= c)%nat -> on_channel c f x = Raise IndexError.
Proof.
  intros H. unfold on_channel. destruct (Nat.ltb_spec c (last_axis x)); [lia|].
  reflexivity.
Qed.

Lemma last_axis_shape (x y : ndarray) : shape y = shape x -> last_axis y = last_axis x.
Proof. unfold last_axis. intros ->. reflexivity. Qed.

(** Three channels updated in turn: all three exist, or the first that
    does not raises. *)

Lemma three_channels (f0 f1 f2 : float32 -> float32) (x : ndarray) :
  ((last_axis x < 3)%nat ->
   (let? x := on_channel 0 f0 x in
    let? x := on_channel 1 f1 x in
    on_channel 2 f2 x) = Raise IndexError) /\
  ((3 <= last_axis x)%nat ->
   exists y,
     (let? x := on_channel 0 f0 x in
      let? x := on_channel 1 f1 x in
      on_channel 2 f2 x) = Ok y /\
     shape y = shape x /\ length (data y) = length (data x)).
Proof.
  split; intros H.
  - destruct (Nat.le_gt_cases (last_axis x) 0) as [H0|H0].
    { rewrite on_channel_raises by exact H0. reflexivity. }
    destruct (on_channel_ok 0 f0 x H0) as (x1 & -> & S1 & _). cbn [rbind].
    pose proof (last_axis_shape _ _ S1) as L1.
    destruct (Nat.le_gt_cases (last_axis x) 1) as [H1|H1].
    { rewrite on_channel_raises by lia. reflexivity. }
    destruct (on_channel_ok 1 f1 x1 ltac:(lia)) as (x2 & -> & S2 & _). cbn [rbind].
    pose proof (last_axis_shape _ _ S2) as L2.
    apply on_channel_raises. lia.
  - destruct (on_channel_ok 0 f0 x ltac:(lia)) as (x1 & -> & S1 & D1). cbn [rbind].
    pose proof (last_axis_shape _ _ S1) as L1.
    destruct (on_channel_ok 1 f1 x1 ltac:(lia)) as (x2 & -> & S2 & D2). cbn [rbind].
    pose proof (last_axis_shape _ _ S2) as L2.
    destruct (on_channel_ok 2 f2 x2 ltac:(lia)) as (x3 & -> & S3 & D3).
    exists x3. split; [reflexivity|]. split; congruence.
Qed.

(** Lines 45-56 on a tensor of rank three: the checks pass. *)

Lemma deprocess_unclipped_rank3 (debug : bool) (x : ndarray) :
  length (shape x) = 3%nat ->
  deprocess_unclipped debug x
  = let? x := on_channel 0 (fun a => F32.add a (mean32 0)) x in
    let? x := on_channel 1 (fun a => F32.add a (mean32 1)) x in
    let? x := on_channel 2 (fun a => F32.add a (mean32 2)) x in
    Ok (flip_channels x).
Proof.
  intros H3. unfold deprocess_unclipped. rewrite H3.
  change (3 =? 4)%nat with false. cbv iota. cbn [rbind]. rewrite H3.
  change (3 =? 3)%nat with true. cbn [negb]. rewrite andb_false_r. reflexivity.
Qed.

(** Lines 46-47: the batch axis of a batch of one is removed. *)

Lemma deprocess_unclipped_squeeze (debug : bool) (x : ndarray) :
  length (shape x) = 3%nat ->
  deprocess_unclipped debug (expand_dims0 x) = deprocess_unclipped debug x.
Proof.
  intros H. unfold deprocess_unclipped, expand_dims0, squeeze0.
  cbn [shape data length]. rewrite H.
  change (4 =? 4)%nat with true. change (3 =? 4)%nat with false. cbv iota.
  cbn [rbind shape data]. destruct x as [s d]. reflexivity.
Qed.

Lemma deprocess_unclipped_returns (debug : bool) (x : ndarray) :
  length (shape x) = 3%nat -> (3 <= last_axis x)%nat ->
  exists y,
    deprocess_unclipped debug x = Ok y /\
    shape y = shape x /\ length (data y) = length (data x).
Proof.
  intros H3 H. rewrite deprocess_unclipped_rank3 by exact H3.
  destruct (three_channels (fun a => F32.add a (mean32 0))
              (fun a => F32.add a (mean32 1)) (fun a => F32.add a (mean32 2)) x)
    as [_ Hge].
  destruct (Hge H) as (y & Hy & Sy & Dy).
  destruct (on_channel 0 _ x) as [x1|e]; cbn [rbind] in *; [|discriminate].
  destruct (on_channel 1 _ x1) as [x2|e]; cbn [rbind] in *; [|discriminate].
  rewrite Hy. cbn [rbind]. eexists. split; [reflexivity|].
  unfold flip_channels. cbn [shape data]. split; [exact Sy|].
  rewrite map_pixels_length; [exact Dy| |apply length_rev].
  rewrite (last_axis_shape _ _ Sy). lia.
Qed.

(** Property X10.  On a tensor of rank three, postprocessing raises
    [IndexError] when there are fewer than three channels; with three
    channels or more it returns an array of the same shape and size
    whose values all lie in 0..255.  The batch of one that holds the
    tensor gives the same result, or the same error. *)
Theorem deprocess_needs_three_channels (debug : bool) (x : ndarray) :
  length (shape x) = 3%nat ->
  _deprocess_img debug (expand_dims0 x) = _deprocess_img debug x /\
  ((last_axis x < 3)%nat -> _deprocess_img debug x = Raise IndexError) /\
  ((3 <= last_axis x)%nat ->
   exists y,
     _deprocess_img debug x = Ok y /\
     ushape y = shape x /\
     length (udata y) = length (data x) /\
     Forall (fun z => 0 <= z <= 255) (udata y)).
Proof.
  intros H3. unfold _deprocess_img.
  split; [rewrite deprocess_unclipped_squeeze by exact H3; reflexivity|].
  split; intros H.
  - rewrite deprocess_unclipped_rank3 by exact H3.
    destruct (three_channels (fun a => F32.add a (mean32 0))
                (fun a => F32.add a (mean32 1)) (fun a => F32.add a (mean32 2)) x)
      as [Hlt _].
    specialize (Hlt H).
    destruct (on_channel 0 _ x) as [x1|e]; cbn [rbind] in *; [|congruence].
    destruct (on_channel 1 _ x1) as [x2|e]; cbn [rbind] in *; [|congruence].
    rewrite Hlt. reflexivity.
  - destruct (deprocess_unclipped_returns debug x H3 H) as (u & -> & Su & Du).
    cbn [rbind]. eexists. split; [reflexivity|].
    unfold clip_to_uint8. cbn [ushape udata].
    split; [exact Su|]. split; [rewrite length_map; exact Du|].
    apply Forall_forall. intros z Hz. apply in_map_iff in Hz.
    destruct Hz as (a & <- & _). unfold to_uint8.
    pose proof (Z.mod_pos_bound
                  (Float.trunc (np_clip (F32.of_Z 0) (F32.of_Z 255) a)) 256).
    lia.
Qed.

(** Property X11.  Postprocessing a batch of one image of three
    channels decodes it pixel by pixel: the pixel [b; g; r] of the tensor
    becomes the bytes of r + 123.68, g + 116.779 and b + 103.939, in
    this order, each clipped to 0..255 and truncated. *)
Theorem deprocess_decodes_pixels (debug : bool) (h w : nat)
  (pxs : list (list float32)) :
  Forall (fun px => length px = 3%nat) pxs ->
  _deprocess_img debug {| shape := [1; h; w; 3]%nat; data := concat pxs |}
  = Ok {| ushape := [h; w; 3]%nat; udata := concat (map decode_pixel pxs) |} /\
  forall b g r : float32,
    decode_pixel [b; g; r]
    = [to_uint8 (np_clip (F32.of_Z 0) (F32.of_Z 255) (F32.add r (mean32 2)));
       to_uint8 (np_clip (F32.of_Z 0) (F32.of_Z 255) (F32.add g (mean32 1)));
       to_uint8 (np_clip (F32.of_Z 0) (F32.of_Z 255) (F32.add b (mean32 0)))].
Proof.
  intros Hpx. split; [|reflexivity].
  unfold _deprocess_img.
  rewrite (deprocess_unclipped_pixels debug h w 3 _ pxs); trivial; try lia.
  cbn [rbind]. unfold clip_to_uint8. cbn [shape data]. f_equal. f_equal.
  rewrite <- flat_map_concat_map, <- flat_map_concat_map.
  induction pxs as [|px pxs IH]; [reflexivity|].
  cbn [flat_map]. rewrite map_app. f_equal. apply IH. inversion Hpx; assumption.
Qed.

(** Property X12.  The conversion to bytes saturates: an element above
    255 becomes 255 and an element below 0 becomes 0, so neither wraps
    around. *)
Theorem postprocessed_values_saturate (x : ndarray) (k : nat) (a : float32) :
  nth_error (data x) k = Some a ->
  (F32.ltb (F32.of_Z 255) a = true ->
   nth_error (udata (clip_to_uint8 x)) k = Some 255) /\
  (F32.ltb a (F32.of_Z 0) = true ->
   nth_error (udata (clip_to_uint8 x)) k = Some 0).
Proof.
  intros Ha. unfold clip_to_uint8. cbn [udata]. rewrite nth_error_map, Ha.
  cbn [option_map]. unfold np_clip, np_maximum, np_minimum.
  change (Float.is_nan (F32.of_Z 0)) with false.
  change (Float.is_nan (F32.of_Z 255)) with false.
  split; intros H; destruct (SFltb_not_nan _ _ H) as [H1 H2].
  - rewrite H2.
    destruct (F32.ltb a (F32.of_Z 0)) eqn:E.
    + pose proof (SFltb_trans _ _ _ H E) as Hc. discriminate Hc.
    + rewrite H2, H. reflexivity.
  - rewrite H1, H. reflexivity.
Qed.

(** ** Loading *)

Lemma div_eucl_self (M : positive) :
  Z.div_eucl (Z.shiftl (Zpos M) 53) (Zpos M) = (9007199254740992, 0).
Proof.
  rewrite Z.shiftl_mul_pow2 by lia.
  pose proof (Z.div_eucl_eq (Zpos M * 2 ^ 53) (Zpos M) ltac:(lia)) as H.
  pose proof (Z.mod_pos_bound (Zpos M * 2 ^ 53) (Zpos M) ltac:(lia)) as Hb.
  unfold Z.modulo in Hb.
  destruct (Z.div_eucl (Zpos M * 2 ^ 53) (Zpos M)) as [q r].
  change (2 ^ 53) with 9007199254740992 in *.
  assert (Hm : 0 < Zpos M) by lia. revert H Hb Hm. generalize (Zpos M) as m.
  intros m H Hb Hm.
  assert (Hq : q = 9007199254740992).
  { destruct (Z.lt_trichotomy q 9007199254740992) as [Hlt|[Heq|Hgt]]; [|exact Heq|].
    - assert (m * (9007199254740992 - q) >= m * 1) by (apply Z.le_ge, Z.mul_le_mono_nonneg_l; lia).
      lia.
    - assert (m * (q - 9007199254740992) >= m * 1) by (apply Z.le_ge, Z.mul_le_mono_nonneg_l; lia).
      lia. }
  subst q. assert (r = 0) by lia. subst r. reflexivity.
Qed.

Lemma new_location_exact (n : Z) : new_location n 0 = loc_Exact.
Proof. unfold new_location. destruct (Z.even n); reflexivity. Qed.

(** The quotient of a positive integer by itself is exactly 1.0. *)
Lemma div_self (m : positive) :
  F64.div (int_operand (Zpos m)) (int_operand (Zpos m)) = f64_1.
Proof.
  unfold F64.div, SFdiv, int_operand, SFdiv_core_binary, F64.prec, F64.emax.
  cbn [Zdigits2 xorb].
  replace (Zpos (digits2_pos m) + 0 - (Zpos (digits2_pos m) + 0)) with 0 by lia.
  change (0 - 0) with 0.
  change (Z.min (fexp 53 1024 0) 0) with (-53).
  change (0 - -53) with 53.
  cbv iota. rewrite div_eucl_self, new_location_exact. reflexivity.
Qed.

Lemma mul_one (M : positive) (e : Z) :
  digits2_pos M = 53%positive -> -52 <= e <= 0 ->
  F64.mul (S754_finite false M e) f64_1 = S754_finite false M e.
Proof.
  intros Hd He. unfold F64.mul, SFmul, f64_1, F64.prec, F64.emax. cbn [xorb].
  rewrite (Pos.mul_comm M).
  unfold binary_round_aux at 1. unfold shr_fexp at 1.
  cbn [Zdigits2]. rewrite (digits_times_pow52 M Hd).
  rewrite fexp64 by lia.
  replace (105 + (e + -52) - 53 - (e + -52)) with 52 by lia.
  cbn [shr shr_record_of_loc]. rewrite shift_52.
  cbn [shr_m loc_of_shr_record round_nearest_even].
  replace (e + -52 + 52) with e by lia.
  unfold shr_fexp. cbn [Zdigits2]. rewrite Hd. rewrite fexp64 by lia.
  replace (53 + e - 53 - e) with 0 by lia.
  cbn [shr shr_record_of_loc shr_m].
  destruct (Z.leb_spec e (1024 - 53)); [reflexivity|lia].
Qed.

(** A side is unchanged when the longer side is already [max_dim]. *)

Lemma scaled_side_same (side long : Z) :
  1 <= long < 2 ^ 53 -> 0 <= side <= long -> scaled_side side long long = Ok side.
Proof.
  intros Hl Hs. destruct long as [|m|m]; try lia.
  unfold scaled_side, py_truediv. change (Zpos m =? 0) with false. cbv iota.
  rewrite (div_self m).
  change (match f64_1 with
          | S754_infinity _ => Raise OverflowError
          | q => Ok q
          end) with (Ok f64_1). cbn [rbind].
  destruct side as [|k|k]; try lia; [reflexivity|].
  destruct (of_Z_normal k) as (K & ek & Hfk & Hdk & Hek & HK); [lia|].
  rewrite Hfk, (mul_one K ek Hdk Hek). apply round_integer; trivial. lia.
Qed.

(** Property X13.  An image whose longer side already is [max_dim] is
    resized to its own size: the scale is exactly 1.0 and both rounded
    sides are the sides of the image. *)
Theorem load_keeps_size_at_max_dim (B : Backend) (self : ImageConverter)
  (img_path : string) (img : pil_image) :
  Image_open B img_path = Ok img ->
  Z.of_nat (Nat.max (width img) (height img)) = max_dim self ->
  1 <= max_dim self < 2 ^ 53 ->
  load_resized B self img_path
  = let? px := Image_resize B img (Z.of_nat (width img)) (Z.of_nat (height img)) in
    Ok {| width := width img; height := height img; bands := bands img;
          pixels := px |}.
Proof.
  intros Ho Hl Hm.
  pose proof (scaled_side_same (Z.of_nat (width img)) (max_dim self) Hm
                ltac:(lia)) as Hw.
  pose proof (scaled_side_same (Z.of_nat (height img)) (max_dim self) Hm
                ltac:(lia)) as Hh.
  unfold scaled_side in Hw, Hh. unfold load_resized. rewrite Ho. cbn [rbind].
  rewrite Hl.
  destruct (py_truediv (max_dim self) (max_dim self)) as [scale|e];
    [|discriminate]. cbn [rbind] in *. rewrite Hw, Hh. cbn [rbind].
  rewrite !Nat2Z.id. reflexivity.
Qed.

(** Property X14.  [_load_and_process_img] opens the file once.  When
    the resized image has fewer than three bands (a greyscale image) the
    call raises [IndexError]; with three bands or more it returns a
    batch of one of shape [1, height, width, bands] with one element per
    value of the image. *)
Theorem load_needs_three_bands (B : Backend) (self : ImageConverter)
  (img_path : string) (resized : pil_image) (w : world) :
  load_resized B self img_path = Ok resized ->
  let w' := {| cur_iter := cur_iter w; variables := variables w;
               events := events w ++ [EvOpen img_path] |} in
  ((bands resized < 3)%nat ->
   _load_and_process_img B self img_path w = (Raise IndexError, w')) /\
  ((3 <= bands resized)%nat ->
   exists x,
     _load_and_process_img B self img_path w = (Ok x, w') /\
     shape x = [1; height resized; width resized; bands resized]%nat /\
     length (data x) = length (pixels resized)).
Proof.
  intros Hl w'. unfold _load_and_process_img, bind, emit, lift. rewrite Hl.
  cbn [rbind]. fold w'. unfold process_img, preprocess_input.
  set (x0 := flip_channels (expand_dims0 (img_to_array resized))).
  assert (Hax : last_axis x0 = bands resized) by reflexivity.
  destruct (three_channels (fun a => F32.sub a (mean32 0))
              (fun a => F32.sub a (mean32 1)) (fun a => F32.sub a (mean32 2)) x0)
    as [Hlt Hge].
  rewrite Hax in Hlt, Hge. split; intros H.
  - specialize (Hlt H).
    destruct (on_channel 0 _ x0) as [x1|e]; cbn [rbind] in *; [|congruence].
    destruct (on_channel 1 _ x1) as [x2|e]; cbn [rbind] in *; [|congruence].
    destruct (on_channel 2 _ x2) as [x3|e]; cbn [rbind] in *; congruence.
  - destruct (Hge H) as (y & Hy & Sy & Dy).
    destruct (on_channel 0 _ x0) as [x1|e]; cbn [rbind] in *; [|discriminate].
    destruct (on_channel 1 _ x1) as [x2|e]; cbn [rbind] in *; [|discriminate].
    rewrite Hy. cbn [rbind]. exists y. split; [reflexivity|].
    split; [rewrite Sy; reflexivity|]. rewrite Dy.
    unfold x0, flip_channels, expand_dims0, img_to_array. cbn [data shape].
    rewrite map_pixels_length; [apply length_map| |apply length_rev].
    unfold last_axis. cbn [shape last]. lia.
Qed.

(** ** The run *)

(** Property X15.  The setup fails in the order of its statements: when
    the network cannot be built the call raises before any file is
    opened; when the content file cannot be opened it raises after
    opening that path only; when the style file cannot be opened it
    raises after the content file was loaded.  No iteration is run and
    no variable is created. *)
Theorem setup_errors_in_order (B : Backend) (self : ImageConverter)
  (content_weight style_weight : spec_float) (w : world) (e : exn) :
  (VGG19 B = Raise e ->
   run_style_transfer B self content_weight style_weight w = (Raise e, w)) /\
  (forall vgg,
      VGG19 B = Ok vgg ->
      Image_open B (content_path self) = Raise e ->
      run_style_transfer B self content_weight style_weight w
      = (Raise e, {| cur_iter := cur_iter w; variables := variables w;
                     events := events w ++ [EvOpen (content_path self)] |})) /\
  (forall vgg content x,
      VGG19 B = Ok vgg ->
      load_resized B self (content_path self) = Ok content ->
      process_img content = Ok x ->
      Image_open B (style_path self) = Raise e ->
      run_style_transfer B self content_weight style_weight w
      = (Raise e, {| cur_iter := cur_iter w; variables := variables w;
                     events := events w ++ [EvOpen (content_path self);
                                            EvOpen (style_path self)] |})).
Proof.
  unfold run_style_transfer, run_style_transfer_setup, _get_model.
  split; [|split].
  - intros H. rewrite H. reflexivity.
  - intros vgg Hv Ho. rewrite Hv. cbn [rbind].
    unfold run_gradient_descent, _load_and_process_img, load_resized, bind, lift,
      emit. rewrite Ho. reflexivity.
  - intros vgg content x Hv Hl Hp Ho. rewrite Hv. cbn [rbind].
    unfold run_gradient_descent, _load_and_process_img, bind, lift, emit.
    rewrite Hl. cbn [rbind]. rewrite Hp.
    unfold load_resized. rewrite Ho. cbn [rbind events variables cur_iter].
    rewrite <- app_assoc. reflexivity.
Qed.

(** Property X16.  A negative iteration count behaves as zero: the loop
    body never runs and the call returns [None] when its setup
    returns. *)
Theorem negative_iterations_return_none (B : Backend) (self : ImageConverter)
  (content_weight style_weight : spec_float) (w : world) :
  iteration self < 0 ->
  run_style_transfer B self content_weight style_weight w =
  match run_style_transfer_setup B self content_weight style_weight w with
  | (Ok _, w0) => (Ok None, w0)
  | (Raise e, w0) => (Raise e, w0)
  end.
Proof.
  intros Hn. unfold run_style_transfer.
  replace (Z.to_nat (iteration self)) with 0%nat by lia.
  unfold bind at 1.
  destruct (run_style_transfer_setup B self content_weight style_weight w)
    as [[[L s0]|e] w0] eqn:Hsetup; [|reflexivity].
  destruct (setup_inv _ _ _ _ _ _ _ _ Hsetup)
    as (img & x0 & _ & _ & _ & _ & _ & _ & _ & _ & Hbi & _).
  simpl. unfold bind, ret. simpl. rewrite Hbi. reflexivity.
Qed.

Lemma iteration_trace (B : Backend) (self : ImageConverter) (L : locals)
  (i : nat) (s : loop_state B) (w : world) :
  cur_iter (snd (run_style_transfer_iteration B self L i s w)) = Z.of_nat i /\
  events (snd (run_style_transfer_iteration B self L i s w))
  = events w ++ [EvPrint i].
Proof.
  unfold run_style_transfer_iteration.
  match goal with
  | |- context [bind (set_cur_iter _) (fun _ => bind (emit _) ?k)] =>
      assert (Hrest : forall u, respects same_trace (k u))
  end.
  { pose proof same_trace_refl. pose proof same_trace_trans.
    pose proof write_buffer_same_trace. intros u. eauto 30 with frame. }
  exact (Hrest tt {| cur_iter := Z.of_nat i; variables := variables w;
                     events := events w ++ [EvPrint i] |}).
Qed.

Lemma loop_trace (B : Backend) (self : ImageConverter) (L : locals) :
  forall (n a : nat) (s : loop_state B) (w : world),
    let out := for_each (run_style_transfer_iteration B self L) (seq a n) s w in
    exists k : nat,
      (k <= n)%nat /\
      events (snd out) = events w ++ map EvPrint (seq a k) /\
      cur_iter (snd out)
      = match k with O => cur_iter w | S i => Z.of_nat (a + i) end /\
      match fst out with Ok _ => k = n | Raise _ => (1 <= k)%nat end.
Proof.
  induction n as [|n IH]; intros a s w out.
  - exists 0%nat. subst out. simpl. rewrite app_nil_r. auto.
  - subst out. cbn [seq for_each]. unfold bind.
    destruct (iteration_trace B self L a s w) as [Hc He].
    destruct (run_style_transfer_iteration B self L a s w) as [[s1|e] w1];
      cbn [snd] in Hc, He.
    + destruct (IH (S a) s1 w1) as (k & Hk & Hev & Hcur & Hout).
      exists (S k). split; [lia|]. split.
      { rewrite Hev, He, <- app_assoc. reflexivity. }
      split.
      { rewrite Hcur. destruct k; [rewrite Hc; f_equal; lia|f_equal; lia]. }
      destruct (fst (for_each _ (seq (S a) n) s1 w1)); lia.
    + exists 1%nat. cbn [fst snd]. split; [lia|]. split; [exact He|].
      split; [rewrite Hc; f_equal; lia|lia].
Qed.

(** Property X17.  Whether the loop returns or raises, it has printed
    the indices 0 .. k-1 of the iterations it started, in order, and
    [cur_iter] is the index of the last one (or unchanged when none was
    started); a loop that returns started all of them, a loop that
    raises started at least one. *)
Theorem cur_iter_names_last_iteration (B : Backend) (self : ImageConverter)
  (L : locals) (n : nat) (s : loop_state B) (w w' : world)
  (r : result (loop_state B)) :
  run_style_transfer_loop B self L n s w = (r, w') ->
  exists k : nat,
    (k <= n)%nat /\
    events w' = events w ++ map EvPrint (seq 0 k) /\
    cur_iter w' = match k with O => cur_iter w | S i => Z.of_nat i end /\
    match r with Ok _ => k = n | Raise _ => (1 <= k)%nat end.
Proof.
  intros H. pose proof (loop_trace B self L n 0 s w) as Ht. cbv zeta in Ht.
  fold (run_style_transfer_loop B self L n s w) in Ht. rewrite H in Ht.
  exact Ht.
Qed.

(** Property X19.  An image returned by [run_style_transfer] has the
    height and the width of the resized content image (not of the style
    image) and three channels of values in 0..255; the content image
    then had exactly three bands. *)
Theorem result_has_size_of_resized_content (B : Backend) (self : ImageConverter)
  (content_weight style_weight : spec_float) (w w' : world) (img : uint8_array) :
  run_style_transfer B self content_weight style_weight w = (Ok (Some img), w') ->
  exists resized,
    load_resized B self (content_path self) = Ok resized /\
    bands resized = 3%nat /\
    ushape img = [height resized; width resized; 3]%nat /\
    Forall (fun z => 0 <= z <= 255) (udata img).
Proof.
  intros Hrun. apply run_inv in Hrun.
  destruct Hrun as (L & s0 & w0 & s' & Hsetup & Hloop & Hr).
  destruct (setup_inv _ _ _ _ _ _ _ _ Hsetup)
    as (im & x0 & Hload & Hproc & Hv & _ & Hmin & _ & _ & _ & Hbi & _ & Hw0).
  exists im. split; [exact Hload|].
  apply process_img_shape in Hproc.
  assert (Hx0 : nth_error (variables w0) (init_image (l_cfg L)) = Some x0).
  { rewrite Hw0, Hv. cbn [variables]. apply nth_error_snoc. }
  assert (Hmin3 : length (min_vals L) = 3%nat) by (rewrite Hmin; reflexivity).
  assert (Hb : bands im = 3%nat).
  { unfold run_style_transfer_loop in Hloop.
    destruct (Z.to_nat (iteration self)) as [|n].
    - apply ret_inv in Hloop. destruct Hloop as [-> _]. congruence.
    - cbn [seq for_each] in Hloop. bind_inv Hloop as s1 w1 E1.
      apply iteration_inv in E1.
      destruct E1 as (x & _ & _ & _ & d & c & Hx & _ & _ & _ & Hclip & _).
      rewrite Hx0 in Hx. assert (x = x0) by congruence. subst x.
      apply clip_by_value_shape in Hclip. destruct Hclip as (_ & Hax & _).
      unfold last_axis in Hax. cbn [shape] in Hax. rewrite Hproc, Hmin3 in Hax.
      exact Hax. }
  split; [exact Hb|].
  apply (loop_shapes B self L (height im) (width im) (bands im)
           (seq 0 (Z.to_nat (iteration self))) Hmin3 s0 s' w0 w').
  - exists x0. auto.
  - intros i Hi. congruence.
  - exact Hloop.
  - symmetry. exact Hr.
Qed.

(** *** The best image *)

(** Below a new best loss: what was not below the old one is neither
    below nor equal to the new one. *)

Lemma not_below_new_best (l b lj : spec_float) :
  SFltb l b = true -> SFltb lj b = false ->
  SFltb lj l = false /\ SFleb lj l = false.
Proof.
  intros Hl Hj. split.
  - destruct (SFltb lj l) eqn:E; [|reflexivity].
    rewrite (SFltb_trans _ _ _ E Hl) in Hj. discriminate.
  - destruct (SFleb lj l) eqn:E; [|reflexivity].
    rewrite (SFleb_ltb_trans _ _ _ E Hl) in Hj. discriminate.
Qed.

Lemma loop_succ (B : Backend) (self : ImageConverter) (L : locals) (n : nat)
  (s s' : loop_state B) (w w' : world) :
  run_style_transfer_loop B self L (S n) s w = (Ok s', w') ->
  exists sn wn,
    run_style_transfer_loop B self L n s w = (Ok sn, wn) /\
    run_style_transfer_iteration B self L n sn wn = (Ok s', w').
Proof.
  intros H.
  destruct (loop_split _ _ _ n (S n) _ _ _ _ (Nat.le_succ_diag_r n) H)
    as (sn & wn & Hn & Hlast).
  replace (S n - n)%nat with 1%nat in Hlast by lia. cbn [seq for_each] in Hlast.
  bind_inv Hlast as s1 w1 E1. apply ret_inv in Hlast. destruct Hlast as [-> ->].
  eauto.
Qed.

Lemma loop_best (B : Backend) (self : ImageConverter) (L : locals)
  (s0 : loop_state B) (w0 : world) :
  best_loss s0 = F32.inf -> best_img s0 = None ->
  forall (n : nat) (sn : loop_state B) (wn : world),
    run_style_transfer_loop B self L n s0 w0 = (Ok sn, wn) ->
    (forall j lj, (j < n)%nat -> loss_at B self L s0 w0 j lj ->
                  F32.ltb lj (best_loss sn) = false) /\
    ((best_img sn = None /\ best_loss sn = F32.inf) \/
     exists i img,
       (i < n)%nat /\ best_img sn = Some img /\
       stored_at B self L s0 w0 i (best_loss sn) img /\
       F32.ltb (best_loss sn) F32.inf = true /\
       forall j lj, (j < i)%nat -> loss_at B self L s0 w0 j lj ->
                    F32.leb lj (best_loss sn) = false).
Proof.
  intros Hbl Hbi. induction n as [|n IH]; intros sn wn Hn.
  - apply ret_inv in Hn. destruct Hn as [-> ->].
    split; [intros; lia|]. left. auto.
  - destruct (loop_succ _ _ _ _ _ _ _ _ Hn) as (s & w & Hloop & Hstep).
    destruct (IH s w Hloop) as (Hmin & Hbest). clear IH.
    pose proof Hstep as Hinv. apply iteration_inv in Hinv.
    destruct Hinv as (x & al & g & o & d & c & Hx & Hl & _ & _ & _ & Hw & _ & Hb).
    pose proof (iteration_loss_eq self L w x al Hx Hl) as Hloss.
    set (l := fst (fst al)) in *.
    assert (Hlast : forall j lj, (j < S n)%nat -> loss_at B self L s0 w0 j lj ->
                       (j < n)%nat \/ (j = n /\ lj = l)).
    { intros j lj Hj (sj & wj & Hloopj & Hlj).
      destruct (Nat.eq_dec j n) as [->|Hne]; [|left; lia]. right.
      rewrite Hloop in Hloopj. assert (wj = w) by congruence. subst wj.
      rewrite Hloss in Hlj. split; congruence. }
    destruct (F32.ltb l (best_loss s)) eqn:Elt.
    + destruct Hb as (img & Hd & Hbl' & Hbi'). split.
      * intros j lj Hj Hlj. rewrite Hbl'.
        destruct (Hlast j lj Hj Hlj) as [Hj'|[-> ->]].
        -- apply (not_below_new_best _ _ _ Elt (Hmin j lj Hj' Hlj)).
        -- apply SFltb_irrefl.
      * right. exists n, img. split; [lia|]. split; [exact Hbi'|]. split; [|split].
        -- exists s, w, sn, wn, c. rewrite Hbl'.
           repeat (split; [assumption|]). split; [|exact Hd].
           rewrite Hw. cbn [variables]. eapply nth_error_set_nth. exact Hx.
        -- rewrite Hbl'. eapply SFltb_below_inf. exact Elt.
        -- intros j lj Hj Hlj. rewrite Hbl'.
           apply (not_below_new_best _ _ _ Elt (Hmin j lj Hj Hlj)).
    + destruct Hb as (Hbl' & Hbi'). rewrite Hbl', Hbi'. split.
      * intros j lj Hj Hlj.
        destruct (Hlast j lj Hj Hlj) as [Hj'|[-> ->]];
          [eapply Hmin; eassumption|exact Elt].
      * destruct Hbest as [Hnone|(i & img & Hi & Himg & Hst & Hinf & Hfirst)];
          [left; exact Hnone|].
        right. exists i, img. split; [lia|]. auto 10.
Qed.

(** Property X20.  The image [run_style_transfer] returns was stored at
    an iteration [i] such that no iteration has a loss below the loss of
    [i], and no earlier iteration has a loss below or equal to it (the
    earlier losses are larger, or NaN): [i] is the first iteration that
    attains the minimum.  The image is the postprocessed trainable image
    as that iteration leaves it, after its update and clip, while the
    loss is the one computed before the update. *)
Theorem best_image_is_first_minimum (B : Backend) (self : ImageConverter)
  (content_weight style_weight : spec_float) (w w0 w' : world) (L : locals)
  (s0 : loop_state B) (img : uint8_array) :
  run_style_transfer_setup B self content_weight style_weight w = (Ok (L, s0), w0) ->
  run_style_transfer B self content_weight style_weight w = (Ok (Some img), w') ->
  exists (i : nat) (loss : float32),
    (i < Z.to_nat (iteration self))%nat /\
    stored_at B self L s0 w0 i loss img /\
    (forall j lj, (j < Z.to_nat (iteration self))%nat ->
                  loss_at B self L s0 w0 j lj -> F32.ltb lj loss = false) /\
    (forall j lj, (j < i)%nat -> loss_at B self L s0 w0 j lj ->
                  F32.leb lj loss = false).
Proof.
  intros Hsetup Hrun. apply run_inv in Hrun.
  destruct Hrun as (L' & s0' & w0' & s' & Hsetup' & Hloop & Hr).
  rewrite Hsetup in Hsetup'.
  assert (L' = L) by congruence. assert (s0' = s0) by congruence.
  assert (w0' = w0) by congruence. subst L' s0' w0'. clear Hsetup'.
  destruct (setup_inv _ _ _ _ _ _ _ _ Hsetup)
    as (im & x0 & _ & _ & _ & _ & _ & _ & _ & Hbl & Hbi & _).
  destruct (loop_best B self L s0 w0 Hbl Hbi _ _ _ Hloop) as (Hmin & Hbest).
  destruct Hbest as [[Hnone _]|(i & img' & Hi & Himg & Hst & _ & Hfirst)];
    [congruence|].
  assert (img' = img) by congruence. subst img'.
  exists i, (best_loss s'). auto.
Qed.

(** Property X21.  A call that returns gives [None] exactly when no
    iteration had a loss below +infinity (every loss was NaN or
    +infinity, or no iteration was run). *)
Theorem no_image_without_a_loss_below_infinity (B : Backend)
  (self : ImageConverter) (content_weight style_weight : spec_float)
  (w w0 w' : world) (L : locals) (s0 : loop_state B) (r : option uint8_array) :
  run_style_transfer_setup B self content_weight style_weight w = (Ok (L, s0), w0) ->
  run_style_transfer B self content_weight style_weight w = (Ok r, w') ->
  (r = None <->
   forall j lj, (j < Z.to_nat (iteration self))%nat ->
                loss_at B self L s0 w0 j lj -> F32.ltb lj F32.inf = false).
Proof.
  intros Hsetup Hrun. apply run_inv in Hrun.
  destruct Hrun as (L' & s0' & w0' & s' & Hsetup' & Hloop & Hr).
  rewrite Hsetup in Hsetup'.
  assert (L' = L) by congruence. assert (s0' = s0) by congruence.
  assert (w0' = w0) by congruence. subst L' s0' w0'. clear Hsetup'.
  destruct (setup_inv _ _ _ _ _ _ _ _ Hsetup)
    as (im & x0 & _ & _ & _ & _ & _ & _ & _ & Hbl & Hbi & _).
  destruct (loop_best B self L s0 w0 Hbl Hbi _ _ _ Hloop) as (Hmin & Hbest).
  subst r. split.
  - intros Hnone j lj Hj Hlj.
    destruct Hbest as [[_ Hinf]|(i & img & _ & Himg & _)]; [|congruence].
    rewrite <- Hinf. eapply Hmin; eassumption.
  - intros Hall.
    destruct Hbest as [[Hnone _]|(i & img & Hi & Himg & Hst & Hinf & _)];
      [exact Hnone|].
    destruct Hst as (si & wi & si' & wi' & x & Hloopi & _ & Hli & _).
    rewrite (Hall i (best_loss s') Hi) in Hinf; [discriminate|].
    exists si, wi. auto.
Qed.

(** *** The first iteration *)

Lemma load_deterministic (B : Backend) (self : ImageConverter) (p : string)
  (x1 x2 : ndarray) (w1 w1' w2 w2' : world) :
  _load_and_process_img B self p w1 = (Ok x1, w1') ->
  _load_and_process_img B self p w2 = (Ok x2, w2') -> x1 = x2.
Proof.
  intros H1 H2. apply load_inv in H1, H2.
  destruct H1 as (i1 & L1 & P1 & _), H2 as (i2 & L2 & P2 & _). congruence.
Qed.

Lemma setup_features (B : Backend) (self : ImageConverter) (cw sw : spec_float)
  (w w0 : world) (L : locals) (s0 : loop_state B) :
  run_style_transfer_setup B self cw sw w = (Ok (L, s0), w0) ->
  exists x0 content_outputs,
    _get_model B self = Ok (model (l_cfg L)) /\
    nth_error (variables w0) (init_image (l_cfg L)) = Some x0 /\
    model (l_cfg L) x0 = Ok content_outputs /\
    mapM index0 (skipn (num_style_layers self) content_outputs)
    = Ok (content_features (l_cfg L)) /\
    loss_weights (l_cfg L) = (sw, cw).
Proof.
  intros H. unfold run_style_transfer_setup in H.
  bind_inv H as mdl w1 E1. apply lift_inv in E1. destruct E1 as [Hm ->].
  bind_inv H as features w2 E2. unfold run_gradient_descent in E2.
  bind_inv E2 as ci w3 E3.
  bind_inv E2 as si w4 E4.
  bind_inv E2 as so w5 E5. apply lift_inv in E5. destruct E5 as [_ ->].
  bind_inv E2 as co w6 E6. apply lift_inv in E6. destruct E6 as [Hco ->].
  bind_inv E2 as sf w7 E7. apply lift_inv in E7. destruct E7 as [_ ->].
  bind_inv E2 as cf w8 E8. apply lift_inv in E8. destruct E8 as [Hcf ->].
  apply ret_inv in E2. destruct E2 as [-> ->].
  bind_inv H as grams w9 E9. apply lift_inv in E9. destruct E9 as [_ ->].
  bind_inv H as x0 w10 E10.
  pose proof (load_deterministic _ _ _ _ _ _ _ _ _ E3 E10) as Hsame. subst x0.
  bind_inv H as v w11 E11. unfold tfe_Variable in E11.
  assert (Hv : v = length (variables w10)) by congruence.
  assert (Hw11 : w11 = {| cur_iter := cur_iter w10;
                          variables := variables w10 ++ [ci];
                          events := events w10 |}) by congruence.
  clear E11. subst v w11.
  bind_inv H as di w12 E12. apply lift_inv in E12. destruct E12 as [_ ->].
  apply ret_inv in H. destruct H as [H ->].
  pose proof (f_equal fst H) as HL. cbn [fst] in HL. subst L. clear H.
  exists ci, co. cbn [l_cfg model init_image content_features loss_weights variables
                      snd fst].
  repeat (split; [assumption || reflexivity || apply nth_error_snoc|]).
  reflexivity.
Qed.

Lemma mapM_combine {A B : Type} (f : A -> result B) (l : list A) :
  forall bs, mapM f l = Ok bs ->
    forall b a, In (b, a) (combine bs l) -> f a = Ok b.
Proof.
  induction l as [|a0 l IH]; intros bs H b a Hin; simpl in H.
  - assert (bs = []) by congruence. subst. contradiction.
  - rbind_inv H as b0 E1. rbind_inv H as bs' E2.
    assert (bs = b0 :: bs') by congruence. subst bs.
    destruct Hin as [Hin|Hin]; [congruence|eauto].
Qed.

Lemma mapM_Forall_in {A B : Type} (f : A -> result B) (P : B -> Prop)
  (l : list A) :
  forall bs, mapM f l = Ok bs ->
    (forall a b, In a l -> f a = Ok b -> P b) -> Forall P bs.
Proof.
  induction l as [|a l IH]; intros bs H Hf; simpl in H.
  - assert (bs = []) by congruence. subst. constructor.
  - rbind_inv H as b E1. rbind_inv H as bs' E2.
    assert (bs = b :: bs') by congruence. subst bs.
    constructor; [apply (Hf a); [left; reflexivity|exact E1]|].
    apply IH; [exact E2|]. intros a' b' Hin. apply Hf. right. exact Hin.
Qed.

Lemma weighted_zeros (losses : list float32) :
  Forall (fun l => l = F32.zero) losses ->
  fold_left
    (fun acc l =>
       F32.add acc
         (F32.mul (F32.of_float (F64.div (F64.of_Z 1) (F64.of_Z 1))) l))
    losses F32.zero = F32.zero.
Proof.
  induction 1 as [|l losses Hl _ IH]; [reflexivity|].
  subst l. cbn [fold_left]. exact IH.
Qed.

(** Property X22.  The trainable image starts as the content image, so
    in the first iteration the content score is a zero: with one content
    layer, a finite content weight and finite content features, the
    first total loss is the style score plus zero. *)
Theorem first_content_score_is_zero (B : Backend) (self : ImageConverter)
  (content_weight style_weight : spec_float) (w w0 : world) (L : locals)
  (s0 : loop_state B) (x : ndarray) (loss style_score content_score : float32) :
  num_content_layers self = 1%nat ->
  run_style_transfer_setup B self content_weight style_weight w = (Ok (L, s0), w0) ->
  Float.is_finite (F32.of_float content_weight) = true ->
  Forall (fun t => data t <> [] /\ Forall (fun a => Float.is_finite a = true) (data t))
    (content_features (l_cfg L)) ->
  nth_error (variables w0) (init_image (l_cfg L)) = Some x ->
  compute_loss self (model (l_cfg L)) (loss_weights (l_cfg L)) x
    (gram_style_features (l_cfg L)) (content_features (l_cfg L))
  = Ok (loss, style_score, content_score) ->
  (exists s, content_score = S754_zero s) /\
  loss = F32.add style_score content_score.
Proof.
  intros Hn Hsetup Hcw Hfin Hx Hloss.
  destruct (setup_features _ _ _ _ _ _ _ _ Hsetup)
    as (x0 & co & _ & Hx0 & Hco & Hcf & Hlw).
  rewrite Hx in Hx0. assert (x0 = x) by congruence. subst x0.
  unfold compute_loss in Hloss. rewrite Hlw, Hco in Hloss. cbn [rbind] in Hloss.
  rbind_inv Hloss as ws E1. rbind_inv Hloss as ss E2.
  rewrite Hn in Hloss. change (weight_per_layer 1) with
    (Ok (F64.div (F64.of_Z 1) (F64.of_Z 1))) in Hloss. cbn [rbind] in Hloss.
  rbind_inv Hloss as cs E4.
  assert (Hcs : cs = F32.zero).
  { rewrite accumulate_spec in E4. rbind_inv E4 as losses El.
    change (F32.of_Z 0) with F32.zero in E4.
    rewrite weighted_zeros in E4; [congruence|].
    eapply mapM_Forall_in; [exact El|]. intros [t c] l Hin Hl. cbn [fst snd] in Hl.
    rewrite (mapM_combine _ _ _ Hcf t c Hin) in Hl. cbn [rbind] in Hl.
    rewrite Forall_forall in Hfin. apply in_combine_l in Hin.
    destruct (Hfin t Hin) as [Hne Hf]. unfold content_loss in Hl.
    rewrite (mean_square_diag t Hne Hf) in Hl. congruence. }
  subst cs.
  assert (Hc : content_score = F32.mul F32.zero (F32.of_float content_weight))
    by congruence.
  assert (Hl : loss = F32.add style_score content_score) by congruence.
  split; [|exact Hl]. rewrite Hc.
  destruct (F32.of_float content_weight) as [s|s| |s m e]; try discriminate;
    eexists; reflexivity.
Qed.

(** *** An iteration fails only where the backend fails *)

Lemma truediv_by_10_positive (n : Z) (d : spec_float) :
  1 <= n < 2 ^ 53 -> py_truediv n 10 = Ok d -> is_number_of_sign false d.
Proof.
  intros Hn H. destruct n as [|m|m]; try lia.
  destruct (of_Z_normal m) as (M & e & _ & Hd & He & HM); [lia|].
  pose proof (digits_of_normal m M e Hd He HM) as Hm.
  unfold py_truediv in H. change (10 =? 0) with false in H. cbv iota in H.
  assert (Hq : is_number_of_sign false
                 (F64.div (int_operand (Zpos m)) (int_operand 10))).
  { unfold F64.div, SFdiv, int_operand, SFdiv_core_binary, F64.prec, F64.emax.
    cbn [Zdigits2 xorb]. rewrite Hm.
    change (Zpos (digits2_pos 10)) with 4.
    rewrite fexp64 by lia.
    replace (Z.min (53 + e + 0 - (4 + 0) - 53) (0 - 0)) with (e - 4) by lia.
    replace (0 - 0 - (e - 4)) with (4 - e) by lia.
    destruct (4 - e) as [|p|p] eqn:Es; try lia.
    rewrite Z.shiftl_mul_pow2 by lia. rewrite <- Es.
    replace (Zpos m * 2 ^ (4 - e)) with (Zpos M * 2 ^ 4)
      by (rewrite HM, <- Z.mul_assoc, <- Z.pow_add_r by lia; do 2 f_equal; lia).
    pose proof (digits2_lower M) as HlM. rewrite Hd in HlM.
    change (2 ^ (53 - 1)) with 4503599627370496 in HlM.
    pose proof (Z.div_eucl_eq (Zpos M * 2 ^ 4) 10 ltac:(lia)) as Hdiv.
    pose proof (Z.mod_pos_bound (Zpos M * 2 ^ 4) 10 ltac:(lia)) as Hb.
    unfold Z.modulo in Hb.
    destruct (Z.div_eucl (Zpos M * 2 ^ 4) 10) as [q r].
    change (2 ^ 4) with 16 in *.
    destruct q as [|q|q]; try lia.
    apply binary_round_aux_number; [lia|].
    unfold emin. pose proof (Pos2Z.is_pos (digits2_pos q)). lia. }
  destruct (F64.div (int_operand (Zpos m)) (int_operand 10)) as [s|s| |s m' e'];
    try discriminate; try contradiction.
  assert (d = S754_finite s m' e') by congruence. subst d. exact Hq.
Qed.

Lemma py_mod_is_zero_returns (i : Z) (d : spec_float) :
  is_number_of_sign false d -> exists due, py_mod_is_zero i d = Ok due.
Proof.
  destruct d as [s|s| |s m e]; simpl; try contradiction; intros _.
  - eauto.
  - destruct e; eauto.
Qed.

Lemma deprocess_returns (debug : bool) (h w : nat) (d : list float32) :
  exists img,
    _deprocess_img debug {| shape := [1; h; w; 3]%nat; data := d |} = Ok img.
Proof.
  change {| shape := [1; h; w; 3]%nat; data := d |}
    with (expand_dims0 {| shape := [h; w; 3]%nat; data := d |}).
  unfold _deprocess_img. rewrite deprocess_unclipped_squeeze by reflexivity.
  destruct (deprocess_unclipped_returns debug
              {| shape := [h; w; 3]%nat; data := d |} eq_refl (Nat.le_refl 3))
    as (y & -> & _). cbn [rbind]. eauto.
Qed.

Lemma bind_ok {A B : Type} (c : M A) (k : A -> M B) (w w1 : world) (a : A) :
  c w = (Ok a, w1) -> bind c k w = k a w1.
Proof. intros H. unfold bind. rewrite H. reflexivity. Qed.

Lemma iteration_returns (B : Backend) (self : ImageConverter) (L : locals)
  (i h wd : nat) (s : loop_state B) (w : world) (x grads : ndarray)
  (all_loss : float32 * float32 * float32) (o : slots B) (d : list float32) :
  nth_error (variables w) (init_image (l_cfg L)) = Some x ->
  shape x = [1; h; wd; 3]%nat ->
  length (min_vals L) = 3%nat -> length (max_vals L) = 3%nat ->
  is_number_of_sign false (display_interval L) ->
  compute_loss self (model (l_cfg L)) (loss_weights (l_cfg L)) x
    (gram_style_features (l_cfg L)) (content_features (l_cfg L)) = Ok all_loss ->
  tape_gradient B (total_loss_of self (l_cfg L)) x = Ok grads ->
  adam_step B (opt s) grads x = Ok (o, d) ->
  exists s' w', run_style_transfer_iteration B self L i s w = (Ok s', w').
Proof.
  intros Hx Hs Hmin Hmax Hdi Hl Hg Ha.
  unfold run_style_transfer_iteration.
  set (v := init_image (l_cfg L)) in *.
  erewrite bind_ok by reflexivity. erewrite bind_ok by reflexivity.
  set (w1 := {| cur_iter := Z.of_nat i; variables := variables w;
                events := events w ++ [EvPrint i] |}).
  assert (Hcg : compute_grads B self (l_cfg L) w1 = (Ok (grads, all_loss), w1)).
  { unfold compute_grads, bind, read_value, lift, ret. fold v.
    unfold w1. cbn [variables]. rewrite Hx, Hl, Hg. reflexivity. }
  rewrite (bind_ok _ _ _ _ _ Hcg). cbn [fst snd].
  set (x1 := {| shape := shape x; data := d |}).
  set (w2 := {| cur_iter := Z.of_nat i; variables := set_nth v x1 (variables w);
                events := events w ++ [EvPrint i] |}).
  assert (Hag : apply_gradients B (opt s) grads v w1 = (Ok o, w2)).
  { unfold apply_gradients, bind, read_value, lift, ret, write_buffer.
    unfold w1. cbn [variables]. rewrite Hx, Ha.
    cbn [snd fst variables cur_iter events]. rewrite Hx. reflexivity. }
  rewrite (bind_ok _ _ _ _ _ Hag).
  assert (Hx1 : nth_error (variables w2) v = Some x1).
  { cbn [variables w2]. eapply nth_error_set_nth. exact Hx. }
  assert (Hr1 : read_value v w2 = (Ok x1, w2)).
  { unfold read_value. rewrite Hx1. reflexivity. }
  rewrite (bind_ok _ _ _ _ _ Hr1).
  destruct (clip_by_value x1 (min_vals L) (max_vals L)) as [c|e] eqn:Ec.
  2: { exfalso. unfold clip_by_value in Ec.
       assert (Hax : last_axis x1 = 3%nat)
         by (unfold last_axis; cbn [shape x1]; rewrite Hs; reflexivity).
       rewrite Hax, Hmin, Hmax in Ec. discriminate. }
  erewrite bind_ok by reflexivity.
  destruct (clip_by_value_shape _ _ _ _ Ec) as (Hsc & _). cbn [shape x1] in Hsc.
  set (w3 := {| cur_iter := Z.of_nat i; variables := set_nth v c (variables w);
                events := events w ++ [EvPrint i] |}).
  assert (Has : assign v c w2 = (Ok tt, w3)).
  { unfold assign. rewrite (bind_ok _ _ _ _ _ Hr1). cbn [shape x1].
    rewrite Hsc, list_eqb_nat_refl. unfold write_buffer. rewrite Hx1.
    cbn [variables cur_iter events w2 shape x1]. rewrite set_nth_set_nth.
    unfold w3. do 3 f_equal. destruct c as [sc dc]. cbn in *. congruence. }
  rewrite (bind_ok _ _ _ _ _ Has).
  assert (Hc : nth_error (variables w3) v = Some c).
  { cbn [variables w3]. eapply nth_error_set_nth. exact Hx. }
  assert (Hr3 : read_value v w3 = (Ok c, w3)).
  { unfold read_value. rewrite Hc. reflexivity. }
  assert (Hd : exists img, _deprocess_img (py_debug B) c = Ok img).
  { destruct c as [sc dc]. cbn [shape] in Hsc. subst sc. rewrite Hs.
    apply deprocess_returns. }
  destruct Hd as (img & Hd).
  assert (Hbest : exists best,
             (if F32.ltb (fst (fst all_loss)) (best_loss s)
              then
                x <- read_value v ;;
                img <- lift (_deprocess_img (py_debug B) x) ;;
                ret (fst (fst all_loss), Some img)
              else ret (best_loss s, best_img s)) w3 = (Ok best, w3)).
  { destruct (F32.ltb (fst (fst all_loss)) (best_loss s)).
    - rewrite (bind_ok _ _ _ _ _ Hr3). unfold bind, lift, ret. rewrite Hd. eauto.
    - unfold ret. eauto. }
  destruct Hbest as (best & Hbest). rewrite (bind_ok _ _ _ _ _ Hbest).
  destruct (py_mod_is_zero_returns (Z.of_nat i) _ Hdi) as (due & Hdue).
  rewrite Hdue. erewrite bind_ok by reflexivity.
  destruct due; cbv iota.
  - unfold bind. rewrite Hr3. unfold lift, ret. rewrite Hd. eauto.
  - unfold bind, ret. eauto.
Qed.

Lemma loop_variable_shape (B : Backend) (self : ImageConverter) (L : locals)
  (sh : list nat) (range : list nat) (s s' : loop_state B) (w w' : world) :
  (exists x, nth_error (variables w) (init_image (l_cfg L)) = Some x /\
             shape x = sh) ->
  for_each (run_style_transfer_iteration B self L) range s w = (Ok s', w') ->
  exists x, nth_error (variables w') (init_image (l_cfg L)) = Some x /\
            shape x = sh.
Proof.
  intros Hx Hloop.
  apply (for_each_invariant _
           (fun _ w => exists x, nth_error (variables w) (init_image (l_cfg L))
                                 = Some x /\ shape x = sh))
    with (3 := Hloop); [|exact Hx].
  clear. intros i s w s' w' (x & Hx & Hs) Hstep. apply iteration_inv in Hstep.
  destruct Hstep as (x' & al & g & o & d & c & Hx' & _ & _ & _ & Hclip & -> & _).
  rewrite Hx in Hx'. assert (x' = x) by congruence. subst x'.
  apply clip_by_value_shape in Hclip. destruct Hclip as (Hsc & _).
  exists c. split; [cbn [variables]; eapply nth_error_set_nth; exact Hx|].
  cbn [shape] in Hsc. congruence.
Qed.

(** Property X23.  After any number of iterations, on a trainable image
    of three channels, the next iteration returns whenever the network,
    the gradient and the optimizer step return: the clip, the
    assignment, the postprocessing and the test on the display interval
    cannot fail (for an iteration count below 2^53). *)
Theorem iteration_fails_only_in_backend (B : Backend) (self : ImageConverter)
  (content_weight style_weight : spec_float) (w w0 wn : world) (L : locals)
  (s0 s : loop_state B) (n : nat) (x grads : ndarray)
  (all_loss : float32 * float32 * float32) (o : slots B) (d : list float32) :
  run_style_transfer_setup B self content_weight style_weight w = (Ok (L, s0), w0) ->
  1 <= iteration self < 2 ^ 53 ->
  run_style_transfer_loop B self L n s0 w0 = (Ok s, wn) ->
  nth_error (variables wn) (init_image (l_cfg L)) = Some x ->
  last_axis x = 3%nat ->
  compute_loss self (model (l_cfg L)) (loss_weights (l_cfg L)) x
    (gram_style_features (l_cfg L)) (content_features (l_cfg L)) = Ok all_loss ->
  tape_gradient B (total_loss_of self (l_cfg L)) x = Ok grads ->
  adam_step B (opt s) grads x = Ok (o, d) ->
  exists s' w', run_style_transfer_iteration B self L n s wn = (Ok s', w').
Proof.
  intros Hsetup Hit Hloop Hx H3 Hl Hg Ha.
  destruct (setup_inv _ _ _ _ _ _ _ _ Hsetup)
    as (img & x0 & _ & Hproc & Hv & _ & Hmin & Hmax & Hdi & _ & _ & _ & Hw0).
  apply process_img_shape in Hproc.
  assert (Hx0 : exists x1, nth_error (variables w0) (init_image (l_cfg L))
                           = Some x1 /\ shape x1 = shape x0).
  { exists x0. split; [|reflexivity]. rewrite Hw0, Hv. apply nth_error_snoc. }
  destruct (loop_variable_shape B self L (shape x0) _ _ _ _ _ Hx0 Hloop)
    as (x' & Hx' & Hs).
  rewrite Hx in Hx'. assert (x' = x) by congruence. subst x'.
  rewrite Hproc in Hs.
  assert (Hb : bands img = 3%nat).
  { unfold last_axis in H3. rewrite Hs in H3. exact H3. }
  rewrite Hb in Hs.
  eapply iteration_returns; try eassumption.
  - rewrite Hmin. reflexivity.
  - rewrite Hmax. reflexivity.
  - eapply truediv_by_10_positive; eassumption.
Qed.

(** ** The clip after every update *)

Lemma chunks_length_le (C : nat) :
  (0 < C)%nat ->
  forall d : list float32, Forall (fun px => (length px <= C)%nat) (chunks C d).
Proof.
  intros HC d. remember (length d) as n eqn:Hn. revert d Hn.
  induction n as [n IH] using lt_wf_ind. intros d Hn.
  destruct d as [|a d]; [constructor|].
  rewrite chunks_cons by trivial. constructor.
  - rewrite length_firstn. lia.
  - apply (IH (length (skipn C (a :: d)))); [|reflexivity].
    rewrite length_skipn, Hn. cbn [length]. lia.
Qed.

Lemma map_pixels_keeps_length (C : nat) (f : list float32 -> list float32)
  (d : list float32) :
  (0 < C)%nat -> (forall px, (length px <= C)%nat -> length (f px) = length px) ->
  length (map_pixels C f d) = length d.
Proof.
  intros HC Hf. unfold map_pixels.
  rewrite <- (concat_chunks C HC d) at 2.
  pose proof (chunks_length_le C HC d) as Hl.
  induction Hl as [|px l Hpx _ IH]; cbn [map concat]; [reflexivity|].
  rewrite !length_app, Hf, IH by exact Hpx. reflexivity.
Qed.

(** The clip keeps every element in its place. *)
Lemma clip_by_value_length (t c : ndarray) (lo hi : list spec_float) :
  (0 < length lo)%nat ->
  clip_by_value t lo hi = Ok c -> length (data c) = length (data t).
Proof.
  intros Hpos H.
  destruct (clip_by_value_shape _ _ _ _ H) as (_ & Hlo & Hhi).
  unfold clip_by_value in H.
  rewrite <- Hlo, <- Hhi, !Nat.eqb_refl in H. cbn [andb] in H.
  injection H as <-. cbn [data].
  apply map_pixels_keeps_length; [lia|].
  intros px Hpx. rewrite length_map, length_combine, length_combine, !length_map.
  lia.
Qed.

Lemma SFleb_not_ltb (x y : spec_float) : SFleb x y = true -> SFltb y x = false.
Proof.
  intros H. destruct (SFltb y x) eqn:E; [|reflexivity].
  pose proof (SFleb_ltb_trans _ _ _ H E) as Hc. rewrite SFltb_irrefl in Hc.
  discriminate.
Qed.

(** What [tf.clip_by_value] makes of one element, case by case. *)
Lemma clip_element_cases (lo hi a : float32) :
  F32.leb lo hi = true ->
  clipped_to lo hi a (tf_maximum (tf_minimum a hi) lo).
Proof.
  intros Hle. pose proof (SFleb_not_ltb _ _ Hle) as Hhl.
  unfold clipped_to, tf_maximum, tf_minimum, F32.ltb, F32.leb in *.
  repeat split.
  - intros H. rewrite H, Hhl. reflexivity.
  - intros H. destruct (SFltb hi a) eqn:E.
    + pose proof (SFltb_trans _ _ _ E H) as Hc. congruence.
    + rewrite H. reflexivity.
  - intros H1 H2. rewrite H1, H2. reflexivity.
Qed.

(** The result of the clip is a bound or the element; it is NaN only
    where the element was. *)
Lemma clipped_to_nan (c : nat) (a e : float32) :
  (c < 3)%nat -> clipped_to (clip_lo c) (clip_hi c) a e ->
  Float.is_nan e = true -> Float.is_nan a = true.
Proof.
  intros Hc (H1 & H2 & H3) He.
  destruct (clip_bounds_ordered c Hc) as (Nl & Nh & _).
  destruct (F32.ltb (clip_hi c) a) eqn:E1.
  { rewrite (H1 eq_refl) in He. congruence. }
  destruct (F32.ltb a (clip_lo c)) eqn:E2.
  { rewrite (H2 eq_refl) in He. congruence. }
  rewrite (H3 eq_refl eq_refl) in He. exact He.
Qed.

(** Claim C4, as amended.  In every iteration of the loop the trainable
    image that the optimizer has just updated is replaced by its clip,
    of the same shape and with every element in its place: the element
    [k], of channel [k mod 3], becomes the upper bound [hi = 255 - mean_c]
    when it is above it, the lower bound [lo = -mean_c] when it is below
    it, and stays what it is in every other case, with the means of the
    preprocessing.  So at the end of every iteration, the first
    included, every element of the trainable image that is not NaN lies
    between the two bounds of its channel; and every element does when
    the optimizer never writes a NaN (a NaN is the one value the clip
    lets through). *)
Theorem candidate_clipped_after_update (B : Backend) (self : ImageConverter)
  (content_weight style_weight : spec_float) (w w0 : world) (L : locals)
  (s0 : loop_state B) :
  run_style_transfer_setup B self content_weight style_weight w = (Ok (L, s0), w0) ->
  (forall (i : nat) (s s' : loop_state B) (wi wi' : world),
      run_style_transfer_iteration B self L i s wi = (Ok s', wi') ->
      exists x grads o updated clipped,
        nth_error (variables wi) (init_image (l_cfg L)) = Some x /\
        tape_gradient B (total_loss_of self (l_cfg L)) x = Ok grads /\
        adam_step B (opt s) grads x = Ok (o, updated) /\
        nth_error (variables wi') (init_image (l_cfg L)) = Some clipped /\
        shape clipped = shape x /\
        length (data clipped) = length updated /\
        forall (k : nat) (a : float32),
          nth_error updated k = Some a ->
          exists e,
            nth_error (data clipped) k = Some e /\
            clipped_to (clip_lo (k mod 3)) (clip_hi (k mod 3)) a e) /\
  (forall (n : nat) (sn : loop_state B) (wn : world),
      (1 <= n)%nat ->
      run_style_transfer_loop B self L n s0 w0 = (Ok sn, wn) ->
      exists candidate,
        nth_error (variables wn) (init_image (l_cfg L)) = Some candidate /\
        forall (k : nat) (e : float32),
          nth_error (data candidate) k = Some e ->
          Float.is_nan e = false ->
          F32.leb (clip_lo (k mod 3)) e = true /\
          F32.leb e (clip_hi (k mod 3)) = true) /\
  ((forall (o o' : slots B) (grads x : ndarray) (updated : list float32),
       adam_step B o grads x = Ok (o', updated) ->
       Forall (fun a => Float.is_nan a = false) updated) ->
   forall (n : nat) (sn : loop_state B) (wn : world),
     (1 <= n)%nat ->
     run_style_transfer_loop B self L n s0 w0 = (Ok sn, wn) ->
     exists candidate,
       nth_error (variables wn) (init_image (l_cfg L)) = Some candidate /\
       forall (k : nat) (e : float32),
         nth_error (data candidate) k = Some e ->
         F32.leb (clip_lo (k mod 3)) e = true /\
         F32.leb e (clip_hi (k mod 3)) = true).
Proof.
  intros Hsetup.
  destruct (setup_inv _ _ _ _ _ _ _ _ Hsetup)
    as (img & x0 & _ & _ & _ & _ & Hmin & Hmax & _).
  assert (Hstep : forall (i : nat) (s s' : loop_state B) (wi wi' : world),
             run_style_transfer_iteration B self L i s wi = (Ok s', wi') ->
             exists x grads o updated clipped,
               nth_error (variables wi) (init_image (l_cfg L)) = Some x /\
               tape_gradient B (total_loss_of self (l_cfg L)) x = Ok grads /\
               adam_step B (opt s) grads x = Ok (o, updated) /\
               clip_by_value {| shape := shape x; data := updated |}
                 (map SFopp norm_means)
                 (map (F64.sub (F64.of_Z 255)) norm_means) = Ok clipped /\
               nth_error (variables wi') (init_image (l_cfg L)) = Some clipped).
  { intros i s s' wi wi' Hi. apply iteration_inv in Hi.
    destruct Hi as (x & al & g & o & d & c & Hx & _ & Hg & Ha & Hclip & -> & _).
    rewrite Hmin, Hmax in Hclip.
    exists x, g, o, d, c. repeat (split; [assumption|]).
    cbn [variables]. eapply nth_error_set_nth. exact Hx. }
  assert (Hrange : forall t c k e,
             clip_by_value t (map SFopp norm_means)
               (map (F64.sub (F64.of_Z 255)) norm_means) = Ok c ->
             nth_error (data c) k = Some e ->
             exists a, nth_error (data t) k = Some a /\
               clipped_to (clip_lo (k mod 3)) (clip_hi (k mod 3)) a e /\
               (Float.is_nan e = false ->
                F32.leb (clip_lo (k mod 3)) e = true /\
                F32.leb e (clip_hi (k mod 3)) = true)).
  { intros t c k e Hclip He.
    destruct (clip_by_value_range _ _ Hclip k e He) as (a & Ha & -> & Hr).
    assert (Hk : (k mod 3 < 3)%nat) by (apply Nat.mod_upper_bound; lia).
    destruct (clip_bounds_ordered _ Hk) as (_ & _ & Hle).
    exists a. split; [exact Ha|]. split; [apply clip_element_cases; exact Hle|].
    intros Hn. destruct Hr as [Hr|Hr]; [congruence|exact Hr]. }
  assert (Hlast : forall (n : nat) (sn : loop_state B) (wn : world),
             (1 <= n)%nat ->
             run_style_transfer_loop B self L n s0 w0 = (Ok sn, wn) ->
             exists sj wj, run_style_transfer_iteration B self L (n - 1) sj wj
                           = (Ok sn, wn)).
  { intros n sn wn Hn Hloop. destruct n as [|n]; [lia|].
    apply loop_succ in Hloop. destruct Hloop as (sj & wj & _ & Hit).
    replace (S n - 1)%nat with n by lia. eauto. }
  split; [|split].
  - intros i s s' wi wi' Hi.
    destruct (Hstep i s s' wi wi' Hi) as (x & g & o & d & c & Hx & Hg & Ha & Hclip & Hc).
    exists x, g, o, d, c. repeat (split; [assumption|]).
    destruct (clip_by_value_shape _ _ _ _ Hclip) as (Hs & _). cbn [shape] in Hs.
    assert (Hpos : (0 < length (map SFopp norm_means))%nat)
      by (rewrite length_map; unfold norm_means, mean_literals; cbn [length]; lia).
    pose proof (clip_by_value_length _ _ _ _ Hpos Hclip) as Hlen.
    cbn [data] in Hlen.
    split; [congruence|]. split; [exact Hlen|].
    intros k a Hka.
    destruct (nth_error (data c) k) as [e|] eqn:He.
    + destruct (Hrange _ _ _ _ Hclip He) as (a' & Ha' & Hcl & _).
      cbn [data] in Ha'. assert (a' = a) by congruence. subst a'. eauto.
    + apply nth_error_None in He. assert (Hlt : (k < length d)%nat)
        by (apply nth_error_Some; congruence). lia.
  - intros n sn wn Hn Hloop.
    destruct (Hlast n sn wn Hn Hloop) as (sj & wj & Hit).
    destruct (Hstep _ _ _ _ _ Hit) as (x & g & o & d & c & _ & _ & _ & Hclip & Hc).
    exists c. split; [exact Hc|]. intros k e He.
    destruct (Hrange _ _ _ _ Hclip He) as (a & _ & _ & H). exact H.
  - intros Hadam n sn wn Hn Hloop.
    destruct (Hlast n sn wn Hn Hloop) as (sj & wj & Hit).
    destruct (Hstep _ _ _ _ _ Hit) as (x & g & o & d & c & _ & _ & Ha & Hclip & Hc).
    exists c. split; [exact Hc|]. intros k e He.
    destruct (Hrange _ _ _ _ Hclip He) as (a & Hka & Hcl & H). apply H.
    cbn [data] in Hka.
    assert (Hk : (k mod 3 < 3)%nat) by (apply Nat.mod_upper_bound; lia).
    destruct (Float.is_nan e) eqn:En; [|reflexivity].
    pose proof (clipped_to_nan _ _ _ Hk Hcl En) as Hna.
    pose proof (Hadam _ _ _ _ _ Ha) as Hall. rewrite Forall_forall in Hall.
    rewrite (Hall a) in Hna; [discriminate|]. eapply nth_error_In; eassumption.
Qed.

(** ** A whole run *)

(** *** Lists of results *)

Lemma mapM_returns {A B C : Type} (f : B -> result C) (P : A -> B -> Prop)
  (Q : A -> C -> Prop) :
  (forall a b, P a b -> exists c, f b = Ok c /\ Q a c) ->
  forall (l : list A) (bs : list B),
    Forall2 P l bs -> exists cs, mapM f bs = Ok cs /\ Forall2 Q l cs.
Proof.
  intros Hf l bs H. induction H as [|a b l bs Hab _ (cs & Hcs & Hq)].
  - exists []. split; [reflexivity|constructor].
  - destruct (Hf a b Hab) as (c & Hc & Hqc). exists (c :: cs).
    cbn [mapM]. rewrite Hc. cbn [rbind]. rewrite Hcs. cbn [rbind].
    split; [reflexivity|constructor; assumption].
Qed.

Lemma Forall2_members {A : Type} (names l : list A) :
  (forall a, In a l -> In a names) ->
  Forall2 (fun a b => In a names /\ a = b) l l.
Proof.
  induction l as [|a l IH]; intros H; constructor.
  - split; [apply H; left|]; reflexivity.
  - apply IH. intros b Hb. apply H. right. exact Hb.
Qed.

Lemma firstn_skipn_app {A : Type} (l1 l2 : list A) (n : nat) :
  length l1 = n -> firstn n (l1 ++ l2) = l1 /\ skipn n (l1 ++ l2) = l2.
Proof.
  intros <-. induction l1 as [|a l1 [IH1 IH2]]; [auto|].
  cbn [length app firstn skipn]. rewrite IH1. auto.
Qed.

Lemma Forall2_split {A B : Type} (P : A -> B -> Prop) (l1 l2 : list A)
  (bs : list B) :
  Forall2 P (l1 ++ l2) bs ->
  Forall2 P l1 (firstn (length l1) bs) /\ Forall2 P l2 (skipn (length l1) bs).
Proof.
  intros H. apply Forall2_app_inv_l in H.
  destruct H as (b1 & b2 & H1 & H2 & ->).
  pose proof (Forall2_length H1) as Hl.
  destruct (firstn_skipn_app b1 b2 (length l1) (eq_sym Hl)) as [-> ->]. auto.
Qed.

Lemma accumulate_returns {A : Type} (P Q : A -> ndarray -> Prop)
  (weight : float32) (loss : ndarray -> ndarray -> result float32) :
  (forall a target comb,
      P a target -> Q a comb ->
      exists comb0 l, index0 comb = Ok comb0 /\ loss comb0 target = Ok l) ->
  forall (names : list A) (targets combs : list ndarray),
    Forall2 P names targets -> Forall2 Q names combs ->
    forall score, exists r,
      accumulate weight loss (combine targets combs) score = Ok r.
Proof.
  intros Hl names targets combs HP. revert combs.
  induction HP as [|a t names targets Hat _ IH]; intros combs HQ score.
  - exists score. reflexivity.
  - inversion HQ as [|? c ? combs' Hac HQ']; subst.
    destruct (Hl a t c Hat Hac) as (c0 & l & Hi & Hloss).
    cbn [combine accumulate]. rewrite Hi. cbn [rbind]. rewrite Hloss. cbn [rbind].
    apply IH. exact HQ'.
Qed.

(** *** The network on images of one size *)

Section Network.
Variable B : Backend.
Variable self : ImageConverter.
Variable vgg : string -> ndarray -> result ndarray.
Variable feature_shape : string -> list nat.
Variables h w : nat.
Hypothesis network_loads : VGG19 B = Ok vgg.
Hypothesis network_regular :
  regular_network vgg (style_layers self ++ content_layers self) h w feature_shape.
Hypothesis style_count : num_style_layers self = length (style_layers self).
Hypothesis style_layers_exist : (1 <= num_style_layers self)%nat.
Hypothesis content_layers_exist : (1 <= num_content_layers self)%nat.

Notation "'layer_activation'" :=
  (is_activation (style_layers self ++ content_layers self) feature_shape)
  (only parsing).
Notation "'layer_feature'" :=
  (is_feature (style_layers self ++ content_layers self) feature_shape)
  (only parsing).
Notation "'layer_gram'" := (is_gram feature_shape) (only parsing).

Lemma get_model_returns :
  exists mdl, _get_model B self = Ok mdl /\
    forall x, mdl x = mapM (fun name => vgg name x)
                        (style_layers self ++ content_layers self).
Proof.
  unfold _get_model. rewrite network_loads. cbn [rbind]. eexists.
  split; [reflexivity|]. intros x. cbv beta.
  rewrite <- map_app, mapM_map. reflexivity.
Qed.

Lemma network_returns (x : ndarray) :
  shape x = [1; h; w; 3]%nat ->
  exists ys,
    mapM (fun name => vgg name x) (style_layers self ++ content_layers self) = Ok ys /\
    Forall2 layer_activation (style_layers self) (firstn (num_style_layers self) ys) /\
    Forall2 layer_activation (content_layers self) (skipn (num_style_layers self) ys).
Proof.
  intros Hx.
  set (names := style_layers self ++ content_layers self) in *.
  assert (Hin : Forall2 (fun a b => In a names /\ a = b) names names)
    by (apply Forall2_members; auto).
  assert (Hf : forall a b, In a names /\ a = b ->
                 exists c, vgg b x = Ok c /\ layer_activation a c).
  { intros a b [Ha <-]. destruct (network_regular a x Ha Hx) as (_ & y & Hy & Hs).
    exists y. split; [exact Hy|]. split; assumption. }
  destruct (mapM_returns (fun name => vgg name x) _ layer_activation Hf _ _ Hin)
    as (ys & Hys & Hact).
  exists ys. split; [exact Hys|]. rewrite style_count.
  apply Forall2_split. exact Hact.
Qed.

Lemma index0_feature (name : string) (y : ndarray) :
  layer_activation name y -> exists f, index0 y = Ok f /\ layer_feature name f.
Proof.
  intros [Hin Hs]. unfold index0. rewrite Hs. eexists. split; [reflexivity|].
  split; [exact Hin|reflexivity].
Qed.

Lemma gram_of_feature (name : string) (f : ndarray) :
  layer_feature name f -> exists g, gram_matrix f = Ok g /\ layer_gram name g.
Proof.
  intros [Hin Hs].
  destruct (network_regular name {| shape := [1; h; w; 3]%nat; data := [] |} Hin
              eq_refl) as (Hne & _).
  unfold gram_matrix. rewrite Hs.
  destruct (feature_shape name) as [|d ds] eqn:E; [congruence|].
  eexists. split; [reflexivity|]. unfold is_gram, last_axis. cbn [shape].
  rewrite Hs, E. reflexivity.
Qed.

Lemma style_loss_returns (name : string) (target comb : ndarray) :
  layer_gram name target -> layer_activation name comb ->
  exists comb0 l, index0 comb = Ok comb0 /\ style_loss comb0 target = Ok l.
Proof.
  intros Ht Hc. destruct (index0_feature _ _ Hc) as (f & Hf & Hfeat).
  destruct (gram_of_feature _ _ Hfeat) as (g & Hg & Hgram).
  exists f. unfold style_loss. rewrite Hg. cbn [rbind]. unfold tensor_sub.
  unfold is_gram in Ht, Hgram. rewrite Hgram, Ht, list_eqb_nat_refl. cbn [rbind].
  eexists. split; [exact Hf|reflexivity].
Qed.

Lemma content_loss_returns (name : string) (target comb : ndarray) :
  layer_feature name target -> layer_activation name comb ->
  exists comb0 l, index0 comb = Ok comb0 /\ content_loss comb0 target = Ok l.
Proof.
  intros [_ Ht] Hc. destruct (index0_feature _ _ Hc) as (f & Hf & [_ Hfeat]).
  exists f. unfold content_loss, tensor_sub.
  rewrite Hfeat, Ht, list_eqb_nat_refl. cbn [rbind].
  eexists. split; [exact Hf|reflexivity].
Qed.

(** The loss of every image of the size is defined, against targets
    that come from images of that size. *)
Lemma compute_loss_returns (mdl : keras_model)
  (loss_weights : spec_float * spec_float) (x : ndarray)
  (gram_style_features content_features : list ndarray) :
  (forall x, mdl x = mapM (fun name => vgg name x)
                       (style_layers self ++ content_layers self)) ->
  Forall2 layer_gram (style_layers self) gram_style_features ->
  Forall2 layer_feature (content_layers self) content_features ->
  shape x = [1; h; w; 3]%nat ->
  exists all_loss,
    compute_loss self mdl loss_weights x gram_style_features content_features
    = Ok all_loss.
Proof.
  intros Hm Hg Hc Hx. destruct (network_returns x Hx) as (ys & Hys & Hs & Hcs).
  unfold compute_loss. destruct loss_weights as [sw cw].
  rewrite Hm, Hys. cbn [rbind]. unfold weight_per_layer.
  destruct (num_style_layers self) as [|ns] eqn:Ens; [lia|].
  destruct (num_content_layers self) as [|nc] eqn:Enc; [lia|].
  cbn [Nat.eqb rbind].
  destruct (accumulate_returns layer_gram layer_activation
              (F32.of_float (F64.div (F64.of_Z 1) (F64.of_Z (Z.of_nat (S ns)))))
              style_loss style_loss_returns _ _ _ Hg Hs (F32.of_Z 0))
    as (r1 & ->). cbn [rbind].
  destruct (accumulate_returns layer_feature layer_activation
              (F32.of_float (F64.div (F64.of_Z 1) (F64.of_Z (Z.of_nat (S nc)))))
              content_loss content_loss_returns _ _ _ Hc Hcs (F32.of_Z 0))
    as (r2 & ->). cbn [rbind].
  eexists. reflexivity.
Qed.

(** The features and the Gram matrices of the setup. *)
Lemma features_return (mdl : keras_model) (style_image content_image : ndarray) :
  (forall x, mdl x = mapM (fun name => vgg name x)
                       (style_layers self ++ content_layers self)) ->
  shape style_image = [1; h; w; 3]%nat ->
  shape content_image = [1; h; w; 3]%nat ->
  exists style_outputs content_outputs style_features content_features grams,
    mdl style_image = Ok style_outputs /\
    mdl content_image = Ok content_outputs /\
    mapM index0 (firstn (num_style_layers self) style_outputs) = Ok style_features /\
    mapM index0 (skipn (num_style_layers self) content_outputs)
    = Ok content_features /\
    mapM gram_matrix style_features = Ok grams /\
    Forall2 layer_gram (style_layers self) grams /\
    Forall2 layer_feature (content_layers self) content_features.
Proof.
  intros Hm Hs Hc.
  destruct (network_returns _ Hs) as (so & Hso & Hss & _).
  destruct (network_returns _ Hc) as (co & Hco & _ & Hcc).
  destruct (mapM_returns index0 layer_activation layer_feature index0_feature _ _ Hss)
    as (sf & Hsf & Hsfeat).
  destruct (mapM_returns index0 layer_activation layer_feature index0_feature _ _ Hcc)
    as (cf & Hcf & Hcfeat).
  destruct (mapM_returns gram_matrix layer_feature layer_gram gram_of_feature _ _ Hsfeat)
    as (gs & Hgs & Hgram).
  exists so, co, sf, cf, gs. rewrite !Hm. auto 10.
Qed.

End Network.

(** *** Loading an image of 64x64 *)

Lemma load_64_returns (B : Backend) (self : ImageConverter) (p : string)
  (img : pil_image) (px : list Z) :
  1 <= max_dim self < 2 ^ 53 ->
  Image_open B p = Ok img ->
  (width img, height img, bands img) = (64, 64, 3)%nat ->
  Image_resize B img (max_dim self) (max_dim self) = Ok px ->
  exists x,
    (forall w,
        _load_and_process_img B self p w
        = (Ok x, {| cur_iter := cur_iter w; variables := variables w;
                    events := events w ++ [EvOpen p] |})) /\
    shape x = [1; Z.to_nat (max_dim self); Z.to_nat (max_dim self); 3]%nat.
Proof.
  intros Hm Hopen Hsize Hresize.
  assert (Hw : width img = 64%nat) by congruence.
  assert (Hh : height img = 64%nat) by congruence.
  assert (Hb : bands img = 3%nat) by congruence.
  pose proof (scaled_side_64 (max_dim self) Hm) as Hside. unfold scaled_side in Hside.
  set (resized := {| width := Z.to_nat (max_dim self);
                     height := Z.to_nat (max_dim self);
                     bands := bands img; pixels := px |}).
  assert (Hload : load_resized B self p = Ok resized).
  { unfold load_resized. rewrite Hopen. cbn [rbind]. rewrite Hw, Hh.
    change (Z.of_nat (Nat.max 64 64)) with 64. change (Z.of_nat 64) with 64.
    destruct (py_truediv (max_dim self) 64) as [scale|e]; [|discriminate].
    cbn [rbind] in *. rewrite Hside. cbn [rbind]. rewrite Hresize. reflexivity. }
  assert (Hp : exists y, process_img resized = Ok y /\
                         shape y = [1; Z.to_nat (max_dim self);
                                    Z.to_nat (max_dim self); 3]%nat);
    [|destruct Hp as (y & Hy & Sy); exists y; split; [|exact Sy]; intros w;
      unfold _load_and_process_img, bind, emit, lift; rewrite Hload; cbn [rbind];
      rewrite Hy; reflexivity].
  unfold process_img, preprocess_input.
  set (x0 := flip_channels (expand_dims0 (img_to_array resized))).
  assert (Hax : last_axis x0 = 3%nat) by (unfold x0, last_axis; simpl; exact Hb).
  destruct (three_channels (fun a => F32.sub a (mean32 0))
              (fun a => F32.sub a (mean32 1)) (fun a => F32.sub a (mean32 2)) x0)
    as [_ Hge].
  destruct (Hge ltac:(lia)) as (y & Hy & Sy & _).
  exists y. split.
  - destruct (on_channel 0 _ x0) as [x1|e]; cbn [rbind] in *; [|discriminate].
    destruct (on_channel 1 _ x1) as [x2|e]; cbn [rbind] in *; [|discriminate].
    rewrite Hy. reflexivity.
  - rewrite Sy. unfold x0. cbn [shape flip_channels expand_dims0 img_to_array
                                 width height bands resized].
    rewrite Hb. reflexivity.
Qed.

(** *** The loop on a backend that returns *)

Lemma loop_returns (B : Backend) (self : ImageConverter) (L : locals) (h wd : nat) :
  length (min_vals L) = 3%nat -> length (max_vals L) = 3%nat ->
  is_number_of_sign false (display_interval L) ->
  (forall x, shape x = [1; h; wd; 3]%nat ->
             exists all_loss,
               compute_loss self (model (l_cfg L)) (loss_weights (l_cfg L)) x
                 (gram_style_features (l_cfg L)) (content_features (l_cfg L))
               = Ok all_loss) ->
  (forall f x l, f x = Ok l -> exists grads, tape_gradient B f x = Ok grads) ->
  (forall o grads x, exists o' d, adam_step B o grads x = Ok (o', d)) ->
  forall (range : list nat) (s : loop_state B) (w : world),
    (exists x, nth_error (variables w) (init_image (l_cfg L)) = Some x /\
               shape x = [1; h; wd; 3]%nat) ->
    exists s' w',
      for_each (run_style_transfer_iteration B self L) range s w = (Ok s', w').
Proof.
  intros Hmin Hmax Hdi Hloss Hgrad Hstep range.
  induction range as [|i range IH]; intros s w Hvar.
  - exists s, w. reflexivity.
  - destruct Hvar as (x & Hx & Hs).
    destruct (Hloss x Hs) as (al & Hal).
    assert (Hf : total_loss_of self (l_cfg L) x = Ok (fst (fst al)))
      by (unfold total_loss_of; rewrite Hal; reflexivity).
    destruct (Hgrad _ _ _ Hf) as (g & Hg).
    destruct (Hstep (opt s) g x) as (o & d & Hd).
    destruct (iteration_returns B self L i h wd s w x g al o d Hx Hs Hmin Hmax Hdi
                Hal Hg Hd) as (s1 & w1 & H1).
    assert (Hvar1 : exists x1, nth_error (variables w1) (init_image (l_cfg L))
                               = Some x1 /\ shape x1 = [1; h; wd; 3]%nat).
    { apply (loop_variable_shape B self L _ [i] s s1 w w1); [eauto|].
      cbn [for_each]. unfold bind. rewrite H1. reflexivity. }
    destruct (IH s1 w1 Hvar1) as (s' & w' & H').
    exists s', w'. cbn [for_each]. unfold bind. rewrite H1. exact H'.
Qed.

(** *** The setup on a backend that returns *)

Lemma setup_returns (B : Backend) (self : ImageConverter) (cw sw : spec_float)
  (w : world) (mdl : keras_model) (content_image style_image : ndarray)
  (style_outputs content_outputs style_features content_features grams : list ndarray)
  (interval : spec_float) :
  _get_model B self = Ok mdl ->
  (forall w, _load_and_process_img B self (content_path self) w
             = (Ok content_image,
                {| cur_iter := cur_iter w; variables := variables w;
                   events := events w ++ [EvOpen (content_path self)] |})) ->
  (forall w, _load_and_process_img B self (style_path self) w
             = (Ok style_image,
                {| cur_iter := cur_iter w; variables := variables w;
                   events := events w ++ [EvOpen (style_path self)] |})) ->
  mdl style_image = Ok style_outputs ->
  mdl content_image = Ok content_outputs ->
  mapM index0 (firstn (num_style_layers self) style_outputs) = Ok style_features ->
  mapM index0 (skipn (num_style_layers self) content_outputs) = Ok content_features ->
  mapM gram_matrix style_features = Ok grams ->
  py_truediv (iteration self) 10 = Ok interval ->
  exists s0 w0,
    run_style_transfer_setup B self cw sw w
    = (Ok ({| l_cfg := {| model := mdl; loss_weights := (sw, cw);
                          init_image := length (variables w);
                          gram_style_features := grams;
                          content_features := content_features |};
              display_interval := interval;
              min_vals := map SFopp norm_means;
              max_vals := map (F64.sub (F64.of_Z 255)) norm_means |}, s0), w0) /\
    best_loss s0 = F32.inf /\ best_img s0 = None /\
    nth_error (variables w0) (length (variables w)) = Some content_image.
Proof.
  intros Hm Hlc Hls Hso Hco Hsf Hcf Hg Hdi.
  unfold run_style_transfer_setup, run_gradient_descent, bind, lift, ret,
    tfe_Variable.
  rewrite Hm. cbv beta iota. rewrite Hlc. cbv beta iota. rewrite Hls.
  cbv beta iota. rewrite Hso. cbv beta iota. rewrite Hco. cbv beta iota.
  rewrite Hsf. cbv beta iota. rewrite Hcf. cbv beta iota.
  cbn [fst snd]. rewrite Hg. cbv beta iota. rewrite Hlc. cbv beta iota.
  change (2 * 5) with 10. rewrite Hdi. cbv beta iota.
  do 2 eexists. split; [reflexivity|]. cbn [best_loss best_img variables].
  split; [reflexivity|]. split; [reflexivity|]. apply nth_error_snoc.
Qed.

(** Claim C1, as amended.  For two files that hold three-band images of
    64x64, a bound [max_dim] of at least 64 and below 2^53 (the theorem
    needs only at least 1) and 5 iterations, [run_style_transfer]
    completes without raising whenever its collaborators return: the
    two images are resized, the network loads and gives every layer's
    activation on a batch of one image of the resized size, the gradient
    of a defined loss is defined and the optimizer step returns.  The
    images are scaled, upwards too, until the longer side is [max_dim]:
    what the call returns is an array of 8-bit unsigned values of shape
    [max_dim, max_dim, 3], which is [64, 64, 3] when [max_dim] is 64
    and only then, unless none of the five total losses, which are all
    defined, is below +infinity: then, and only then, it is None. *)
Theorem run_on_64x64_images (B : Backend) (self : ImageConverter)
  (content_file style_file : string) (bound : Z)
  (content_weight style_weight : spec_float) (w : world)
  (content style : pil_image) (content_px style_px : list Z)
  (vgg : string -> ndarray -> result ndarray)
  (feature_shape : string -> list nat) :
  self = __init__ content_file style_file 5 bound ->
  1 <= bound < 2 ^ 53 ->
  Image_open B content_file = Ok content ->
  Image_open B style_file = Ok style ->
  (width content, height content, bands content) = (64, 64, 3)%nat ->
  (width style, height style, bands style) = (64, 64, 3)%nat ->
  Image_resize B content bound bound = Ok content_px ->
  Image_resize B style bound bound = Ok style_px ->
  VGG19 B = Ok vgg ->
  regular_network vgg (style_layers self ++ content_layers self)
    (Z.to_nat bound) (Z.to_nat bound) feature_shape ->
  (forall f x l, f x = Ok l -> exists grads, tape_gradient B f x = Ok grads) ->
  (forall o grads x, exists o' updated, adam_step B o grads x = Ok (o', updated)) ->
  exists L s0 w0 r w',
    run_style_transfer_setup B self content_weight style_weight w
    = (Ok (L, s0), w0) /\
    run_style_transfer B self content_weight style_weight w = (Ok r, w') /\
    (forall img,
        r = Some img ->
        ushape img = [Z.to_nat bound; Z.to_nat bound; 3]%nat /\
        Forall (fun z => 0 <= z <= 255) (udata img)) /\
    (r = None <->
     forall j lj, (j < 5)%nat -> loss_at B self L s0 w0 j lj ->
                  F32.ltb lj F32.inf = false) /\
    (forall j, (j < 5)%nat -> exists lj, loss_at B self L s0 w0 j lj).
Proof.
  intros Hself Hb Hoc Hos Hc Hs Hrc Hrs Hvgg Hreg Hgrad Hstep.
  set (m := Z.to_nat bound) in *.
  assert (Hmax : max_dim self = bound) by (rewrite Hself; reflexivity).
  assert (Hcp : content_path self = content_file) by (rewrite Hself; reflexivity).
  assert (Hsp : style_path self = style_file) by (rewrite Hself; reflexivity).
  assert (Hit : iteration self = 5) by (rewrite Hself; reflexivity).
  assert (Hns : num_style_layers self = length (style_layers self))
    by (rewrite Hself; reflexivity).
  assert (Hn1 : (1 <= num_style_layers self)%nat)
    by (rewrite Hself; cbn [num_style_layers __init__ length]; lia).
  assert (Hn2 : (1 <= num_content_layers self)%nat)
    by (rewrite Hself; cbn [num_content_layers __init__ length]; lia).
  (* the loads *)
  destruct (load_64_returns B self (content_path self) content content_px)
    as (xc & Hlc & Hxc); try (rewrite Hmax); try (rewrite Hcp); trivial.
  destruct (load_64_returns B self (style_path self) style style_px)
    as (xs & Hls & Hxs); try (rewrite Hmax); try (rewrite Hsp); trivial.
  rewrite Hmax in Hxc, Hxs. fold m in Hxc, Hxs.
  (* the network *)
  destruct (get_model_returns B self vgg Hvgg) as (mdl & Hmdl & Hm).
  destruct (features_return self vgg feature_shape m m Hreg Hns mdl xs xc Hm Hxs Hxc)
    as (so & co & sf & cf & gs & Hso & Hco & Hsf & Hcf & Hgs & Hgram & Hfeat).
  assert (Hdi : py_truediv (iteration self) 10
                = Ok (S754_finite false 4503599627370496 (-53)))
    by (rewrite Hit; reflexivity).
  destruct (setup_returns B self content_weight style_weight w mdl xc xs so co sf cf
              gs _ Hmdl Hlc Hls Hso Hco Hsf Hcf Hgs Hdi)
    as (s0 & w0 & Hsetup & Hbl & Hbi & Hvar).
  set (L := {| l_cfg := {| model := mdl; loss_weights := (style_weight, content_weight);
                           init_image := length (variables w);
                           gram_style_features := gs; content_features := cf |};
               display_interval := S754_finite false 4503599627370496 (-53);
               min_vals := map SFopp norm_means;
               max_vals := map (F64.sub (F64.of_Z 255)) norm_means |}) in *.
  assert (Hloss : forall x, shape x = [1; m; m; 3]%nat ->
             exists all_loss,
               compute_loss self (model (l_cfg L)) (loss_weights (l_cfg L)) x
                 (gram_style_features (l_cfg L)) (content_features (l_cfg L))
               = Ok all_loss).
  { intros x Hx. cbn [L l_cfg model loss_weights gram_style_features content_features].
    apply (compute_loss_returns self vgg feature_shape m m Hreg Hns Hn1 Hn2);
      assumption. }
  destruct (Hloss xc Hxc) as (al & Hal).
  assert (Hvar0 : exists x, nth_error (variables w0) (init_image (l_cfg L)) = Some x /\
                            shape x = [1; m; m; 3]%nat) by (exists xc; auto).
  destruct (loop_returns B self L m m eq_refl eq_refl eq_refl Hloss Hgrad Hstep
              (seq 0 (Z.to_nat (iteration self))) s0 w0 Hvar0) as (s' & w' & Hloop).
  fold (run_style_transfer_loop B self L (Z.to_nat (iteration self)) s0) in Hloop.
  exists L, s0, w0, (best_img s'), w'.
  split; [exact Hsetup|].
  split.
  { unfold run_style_transfer, bind. rewrite Hsetup. cbn [fst snd].
    rewrite Hloop. reflexivity. }
  split; [|split].
  - intros img Himg.
    eapply (loop_shapes B self L m m 3 _ eq_refl s0 s' w0 w'); try eassumption.
    rewrite Hbi. discriminate.
  - rewrite Hit in Hloop. change (Z.to_nat 5) with 5%nat in Hloop.
    destruct (loop_best B self L s0 w0 Hbl Hbi _ _ _ Hloop) as (Hmin & Hbest).
    split.
    + intros Hnone j lj Hj Hlj.
      destruct Hbest as [[_ Hinf]|(i & img & _ & Himg & _)]; [|congruence].
      rewrite <- Hinf. eapply Hmin; eassumption.
    + intros Hall.
      destruct Hbest as [[Hnone _]|(i & img & Hi & Himg & Hst & Hinf & _)];
        [exact Hnone|].
      destruct Hst as (si & wi & si' & wi' & x & Hloopi & _ & Hli & _).
      rewrite (Hall i (best_loss s') Hi) in Hinf; [discriminate|].
      exists si, wi. auto.
  - intros j Hj. rewrite Hit in Hloop. change (Z.to_nat 5) with 5%nat in Hloop.
    destruct (loop_split _ _ _ j 5 _ _ _ _ ltac:(lia) Hloop)
      as (sj & wj & Hj1 & Hj2).
    replace (5 - j)%nat with (S (4 - j)) in Hj2 by lia.
    cbn [seq for_each] in Hj2. bind_inv Hj2 as s1 w1 E1.
    apply iteration_best in E1. destruct E1 as (lj & Hlj & _).
    exists lj, sj, wj. auto.
Qed.

(** ** The further properties on concrete inputs *)

Lemma get_returns {A : Type} (d : A) (r : result A) :
  Toy.returns r = true -> r = Ok (Toy.get d r).
Proof. destruct r; simpl; intros H; [reflexivity|discriminate]. Qed.

Lemma returns_get_pair {A B : Type} (d : A * B) (r : result (A * B) * world) :
  Toy.returns (fst r) = true ->
  r = (Ok (fst (Toy.get d (fst r)), snd (Toy.get d (fst r))), snd r).
Proof. destruct r as [[[a b]|e] w]; simpl; intros H; [reflexivity|discriminate]. Qed.

Lemma get_returns_triple {A B C : Type} (d : A * B * C) (r : result (A * B * C)) :
  Toy.returns r = true ->
  r = Ok (fst (fst (Toy.get d r)), snd (fst (Toy.get d r)), snd (Toy.get d r)).
Proof. destruct r as [[[a b] c]|e]; simpl; intros H; [reflexivity|discriminate]. Qed.

Lemma toy_run_image (B : Backend) (self : ImageConverter) :
  Toy.has_image (fst (Toy.run B self)) = true ->
  run_style_transfer B self content_weight_default style_weight_default Toy.start
  = (Ok (Some (Toy.image (fst (Toy.run B self)))), snd (Toy.run B self)).
Proof.
  unfold Toy.run.
  destruct (run_style_transfer B self content_weight_default style_weight_default
              Toy.start) as [[[img|]|e] w]; simpl; intros H;
    [reflexivity|discriminate|discriminate].
Qed.

Lemma losses_are_not_negative_witness :
  not_negative (Toy.get F32.nan (content_loss Toy.features_a Toy.features_b))
  = true.
Proof.
  apply (losses_are_not_negative Toy.features_a Toy.features_b).
  left. apply get_returns. vm_compute. reflexivity.
Defined.

Lemma content_loss_zero_on_equal_witness :
  content_loss Toy.features_a Toy.features_a = Ok F32.zero.
Proof.
  apply (proj1 (content_loss_zero_on_equal Toy.features_a)).
  - discriminate.
  - vm_compute. repeat constructor.
Defined.

Lemma compute_loss_scores_not_negative_witness :
  not_negative
    (fst (fst (Toy.get (F32.nan, F32.nan, F32.nan)
                 (compute_loss Toy.small Toy.echo (F64.of_Z 1, F64.of_Z 2)
                    (expand_dims0 Toy.features_a)
                    (repeat {| shape := [2; 2]%nat; data := repeat F32.zero 4 |} 5)
                    [Toy.features_b])))) = true.
Proof.
  set (r := compute_loss Toy.small Toy.echo (F64.of_Z 1, F64.of_Z 2)
              (expand_dims0 Toy.features_a)
              (repeat {| shape := [2; 2]%nat; data := repeat F32.zero 4 |} 5)
              [Toy.features_b]).
  apply (compute_loss_scores_not_negative Toy.small Toy.echo (F64.of_Z 1)
           (F64.of_Z 2) (expand_dims0 Toy.features_a)
           (repeat {| shape := [2; 2]%nat; data := repeat F32.zero 4 |} 5)
           [Toy.features_b]
           (fst (fst (Toy.get (F32.nan, F32.nan, F32.nan) r)))
           (snd (fst (Toy.get (F32.nan, F32.nan, F32.nan) r)))
           (snd (Toy.get (F32.nan, F32.nan, F32.nan) r))).
  - reflexivity.
  - reflexivity.
  - vm_compute. reflexivity.
Defined.

Lemma gram_matrix_symmetric_witness :
  exists g,
    nth_error (data (Toy.get Toy.features_a (gram_matrix Toy.features_c))) 1
    = Some g /\
    nth_error (data (Toy.get Toy.features_a (gram_matrix Toy.features_c))) 2
    = Some g.
Proof.
  destruct (gram_matrix_symmetric Toy.features_c
              (Toy.get Toy.features_a (gram_matrix Toy.features_c)))
    as (_ & _ & H).
  - apply get_returns. vm_compute. reflexivity.
  - destruct (H 0%nat 1%nat) as (g & H1 & H2 & _); [cbv; lia|cbv; lia|].
    exists g. split; [exact H1|exact H2].
Defined.

Lemma model_outputs_in_layer_order_witness :
  exists vgg,
    VGG19 Toy.backend = Ok vgg /\
    length (Toy.outputs Toy.backend Toy.small)
    = (length (style_layers Toy.small) + length (content_layers Toy.small))%nat /\
    mapM (fun name => vgg name
                        (Toy.candidate Toy.small Toy.backend
                           (Toy.world_of Toy.backend Toy.small)))
      (style_layers Toy.small)
    = Ok (firstn (num_style_layers Toy.small) (Toy.outputs Toy.backend Toy.small)) /\
    mapM (fun name => vgg name
                        (Toy.candidate Toy.small Toy.backend
                           (Toy.world_of Toy.backend Toy.small)))
      (content_layers Toy.small)
    = Ok (skipn (num_style_layers Toy.small) (Toy.outputs Toy.backend Toy.small)).
Proof.
  apply (model_outputs_in_layer_order Toy.backend Toy.small
           (model (l_cfg (Toy.locals_of Toy.backend Toy.small)))).
  - vm_compute. reflexivity.
  - reflexivity.
  - apply get_returns. vm_compute. reflexivity.
Defined.

Lemma init_model_has_six_outputs_witness :
  exists vgg o1 o2 o3 o4 o5 o6,
    VGG19 Toy.backend = Ok vgg /\
    Toy.outputs Toy.backend Toy.small = [o1; o2; o3; o4; o5; o6] /\
    vgg "block1_conv1"%string
      (Toy.candidate Toy.small Toy.backend (Toy.world_of Toy.backend Toy.small))
    = Ok o1 /\
    vgg "block2_conv1"%string
      (Toy.candidate Toy.small Toy.backend (Toy.world_of Toy.backend Toy.small))
    = Ok o2 /\
    vgg "block3_conv1"%string
      (Toy.candidate Toy.small Toy.backend (Toy.world_of Toy.backend Toy.small))
    = Ok o3 /\
    vgg "block4_conv1"%string
      (Toy.candidate Toy.small Toy.backend (Toy.world_of Toy.backend Toy.small))
    = Ok o4 /\
    vgg "block5_conv1"%string
      (Toy.candidate Toy.small Toy.backend (Toy.world_of Toy.backend Toy.small))
    = Ok o5 /\
    vgg "block5_conv2"%string
      (Toy.candidate Toy.small Toy.backend (Toy.world_of Toy.backend Toy.small))
    = Ok o6.
Proof.
  apply (init_model_has_six_outputs Toy.backend "pixel.png" "pixel.png" 3 2
           (model (l_cfg (Toy.locals_of Toy.backend Toy.small)))).
  - vm_compute. reflexivity.
  - apply get_returns. vm_compute. reflexivity.
Defined.

Lemma features_match_layers_witness :
  exists vgg content_image style_image,
    VGG19 Toy.backend = Ok vgg /\
    _load_and_process_img Toy.backend Toy.mixed "pixel.png" Toy.start
    = (Ok content_image,
       {| cur_iter := cur_iter Toy.start; variables := variables Toy.start;
          events := events Toy.start ++ [EvOpen "pixel.png"] |}) /\
    _load_and_process_img Toy.backend Toy.mixed "style.png"
      {| cur_iter := cur_iter Toy.start; variables := variables Toy.start;
         events := events Toy.start ++ [EvOpen "pixel.png"] |}
    = (Ok style_image,
       snd (run_gradient_descent Toy.backend Toy.mixed
              (model (l_cfg (Toy.locals_of Toy.backend Toy.mixed)))
              "pixel.png" "style.png" Toy.start)) /\
    mapM (fun name => let? out := vgg name style_image in index0 out)
      (style_layers Toy.mixed)
    = Ok (fst (Toy.get ([], [])
                 (fst (run_gradient_descent Toy.backend Toy.mixed
                         (model (l_cfg (Toy.locals_of Toy.backend Toy.mixed)))
                         "pixel.png" "style.png" Toy.start)))) /\
    mapM (fun name => let? out := vgg name content_image in index0 out)
      (content_layers Toy.mixed)
    = Ok (snd (Toy.get ([], [])
                 (fst (run_gradient_descent Toy.backend Toy.mixed
                         (model (l_cfg (Toy.locals_of Toy.backend Toy.mixed)))
                         "pixel.png" "style.png" Toy.start)))) /\
    length (fst (Toy.get ([], [])
                   (fst (run_gradient_descent Toy.backend Toy.mixed
                           (model (l_cfg (Toy.locals_of Toy.backend Toy.mixed)))
                           "pixel.png" "style.png" Toy.start))))
    = length (style_layers Toy.mixed) /\
    length (snd (Toy.get ([], [])
                   (fst (run_gradient_descent Toy.backend Toy.mixed
                           (model (l_cfg (Toy.locals_of Toy.backend Toy.mixed)))
                           "pixel.png" "style.png" Toy.start))))
    = length (content_layers Toy.mixed).
Proof.
  apply (features_match_layers Toy.backend Toy.mixed
           (model (l_cfg (Toy.locals_of Toy.backend Toy.mixed)))
           "pixel.png" "style.png" Toy.start).
  - vm_compute. reflexivity.
  - reflexivity.
  - apply returns_get_pair. vm_compute. reflexivity.
Defined.

Lemma deprocess_needs_three_channels_witness :
  _deprocess_img true (expand_dims0 Toy.grey) = _deprocess_img true Toy.grey /\
  _deprocess_img true Toy.grey = Raise IndexError.
Proof.
  destruct (deprocess_needs_three_channels true Toy.grey eq_refl)
    as (H1 & H2 & _).
  split; [exact H1|]. apply H2. cbv. lia.
Defined.

Lemma deprocess_decodes_pixels_witness :
  _deprocess_img true {| shape := [1; 1; 1; 3]%nat; data := concat [Toy.bgr] |}
  = Ok {| ushape := [1; 1; 3]%nat; udata := [255; 0; 113] |}.
Proof.
  destruct (deprocess_decodes_pixels true 1 1 [Toy.bgr]) as [H _].
  - repeat constructor.
  - rewrite H. vm_compute. reflexivity.
Defined.

Lemma postprocessed_values_saturate_witness :
  nth_error
    (udata (clip_to_uint8
              {| shape := [1; 1; 3]%nat;
                 data := [F32.of_Z 300; F32.of_Z (-5); F32.of_Z 7] |})) 0
  = Some 255.
Proof.
  apply (proj1 (postprocessed_values_saturate
                  {| shape := [1; 1; 3]%nat;
                     data := [F32.of_Z 300; F32.of_Z (-5); F32.of_Z 7] |}
                  0 (F32.of_Z 300) eq_refl)).
  vm_compute. reflexivity.
Defined.

Lemma load_keeps_size_at_max_dim_witness :
  load_resized Toy.backend Toy.square64 "content.png"
  = let? px := Image_resize Toy.backend (Toy.solid 64 64 [200; 100; 50])
                 (Z.of_nat (width (Toy.solid 64 64 [200; 100; 50])))
                 (Z.of_nat (height (Toy.solid 64 64 [200; 100; 50]))) in
    Ok {| width := width (Toy.solid 64 64 [200; 100; 50]);
          height := height (Toy.solid 64 64 [200; 100; 50]);
          bands := bands (Toy.solid 64 64 [200; 100; 50]);
          pixels := px |}.
Proof.
  apply (load_keeps_size_at_max_dim Toy.backend Toy.square64 "content.png"
           (Toy.solid 64 64 [200; 100; 50])).
  - reflexivity.
  - reflexivity.
  - vm_compute. split; [discriminate|reflexivity].
Defined.

Lemma load_needs_three_bands_witness :
  _load_and_process_img Toy.grey_backend Toy.small "grey.png" Toy.start
  = (Raise IndexError,
     {| cur_iter := cur_iter Toy.start; variables := variables Toy.start;
        events := events Toy.start ++ [EvOpen "grey.png"] |}).
Proof.
  apply (proj1 (load_needs_three_bands Toy.grey_backend Toy.small "grey.png"
                  (Toy.solid 2 2 [128]) Toy.start eq_refl)).
  cbv. lia.
Defined.

Lemma setup_errors_in_order_witness :
  run_style_transfer Toy.backend Toy.no_content content_weight_default
    style_weight_default Toy.start
  = (Raise IOError,
     {| cur_iter := cur_iter Toy.start; variables := variables Toy.start;
        events := events Toy.start ++ [EvOpen (content_path Toy.no_content)] |}) /\
  run_style_transfer Toy.backend Toy.no_style content_weight_default
    style_weight_default Toy.start
  = (Raise IOError,
     {| cur_iter := cur_iter Toy.start; variables := variables Toy.start;
        events := events Toy.start ++ [EvOpen (content_path Toy.no_style);
                                       EvOpen (style_path Toy.no_style)] |}).
Proof.
  split.
  - apply (proj1 (proj2 (setup_errors_in_order Toy.backend Toy.no_content
                           content_weight_default style_weight_default Toy.start
                           IOError)) (Toy.layer [])); reflexivity.
  - apply (proj2 (proj2 (setup_errors_in_order Toy.backend Toy.no_style
                           content_weight_default style_weight_default Toy.start
                           IOError)) (Toy.layer []) (Toy.solid 2 2 [10; 20; 30])
             (Toy.get Toy.grey (process_img (Toy.solid 2 2 [10; 20; 30]))));
      reflexivity.
Defined.

Lemma negative_iterations_return_none_witness :
  iteration Toy.backwards < 0 /\
  fst (Toy.run Toy.backend Toy.backwards) = Ok None.
Proof.
  split; [vm_compute; reflexivity|].
  unfold Toy.run.
  rewrite (negative_iterations_return_none Toy.backend Toy.backwards
             content_weight_default style_weight_default Toy.start).
  - vm_compute. reflexivity.
  - vm_compute. reflexivity.
Defined.

Lemma cur_iter_names_last_iteration_witness :
  cur_iter (snd (Toy.after Toy.stalling_backend Toy.small 3)) = 1 /\
  Toy.returns (fst (Toy.after Toy.stalling_backend Toy.small 3)) = false.
Proof.
  destruct (cur_iter_names_last_iteration Toy.stalling_backend Toy.small
              (Toy.locals_of Toy.stalling_backend Toy.small) 3
              (Toy.state_of Toy.stalling_backend Toy.small)
              (Toy.world_of Toy.stalling_backend Toy.small)
              (snd (Toy.after Toy.stalling_backend Toy.small 3))
              (fst (Toy.after Toy.stalling_backend Toy.small 3)))
    as (k & Hk & Hev & Hcur & _).
  - apply surjective_pairing.
  - split; [|vm_compute; reflexivity].
    rewrite Hcur. vm_compute in Hev.
    destruct k as [|[|[|k]]]; try discriminate Hev; reflexivity.
Defined.

Lemma result_has_size_of_resized_content_witness :
  exists resized,
    load_resized Toy.backend Toy.small (content_path Toy.small) = Ok resized /\
    bands resized = 3%nat /\
    ushape (Toy.image (fst (Toy.run Toy.backend Toy.small)))
    = [height resized; width resized; 3]%nat /\
    Forall (fun z => 0 <= z <= 255)
      (udata (Toy.image (fst (Toy.run Toy.backend Toy.small)))).
Proof.
  apply (result_has_size_of_resized_content Toy.backend Toy.small
           content_weight_default style_weight_default Toy.start
           (snd (Toy.run Toy.backend Toy.small))).
  apply toy_run_image. vm_compute. reflexivity.
Defined.

Lemma best_image_is_first_minimum_witness :
  exists (i : nat) (loss : float32),
    (i < Z.to_nat (iteration Toy.small))%nat /\
    stored_at Toy.backend Toy.small (Toy.locals_of Toy.backend Toy.small)
      (Toy.state_of Toy.backend Toy.small) (Toy.world_of Toy.backend Toy.small)
      i loss (Toy.image (fst (Toy.run Toy.backend Toy.small))) /\
    (forall j lj,
        (j < Z.to_nat (iteration Toy.small))%nat ->
        loss_at Toy.backend Toy.small (Toy.locals_of Toy.backend Toy.small)
          (Toy.state_of Toy.backend Toy.small)
          (Toy.world_of Toy.backend Toy.small) j lj ->
        F32.ltb lj loss = false) /\
    (forall j lj,
        (j < i)%nat ->
        loss_at Toy.backend Toy.small (Toy.locals_of Toy.backend Toy.small)
          (Toy.state_of Toy.backend Toy.small)
          (Toy.world_of Toy.backend Toy.small) j lj ->
        F32.leb lj loss = false).
Proof.
  apply (best_image_is_first_minimum Toy.backend Toy.small content_weight_default
           style_weight_default Toy.start (Toy.world_of Toy.backend Toy.small)
           (snd (Toy.run Toy.backend Toy.small))).
  - apply toy_setup_returns. vm_compute. reflexivity.
  - apply toy_run_image. vm_compute. reflexivity.
Defined.

Lemma no_image_without_a_loss_below_infinity_witness :
  Toy.get None (fst (Toy.run Toy.nan_backend Toy.small)) = None <->
  (forall j lj,
      (j < Z.to_nat (iteration Toy.small))%nat ->
      loss_at Toy.nan_backend Toy.small (Toy.locals_of Toy.nan_backend Toy.small)
        (Toy.state_of Toy.nan_backend Toy.small)
        (Toy.world_of Toy.nan_backend Toy.small) j lj ->
      F32.ltb lj F32.inf = false).
Proof.
  apply (no_image_without_a_loss_below_infinity Toy.nan_backend Toy.small
           content_weight_default style_weight_default Toy.start
           (Toy.world_of Toy.nan_backend Toy.small)
           (snd (Toy.run Toy.nan_backend Toy.small))).
  - apply toy_setup_returns. vm_compute. reflexivity.
  - apply toy_run_returns. vm_compute. reflexivity.
Defined.

Lemma first_content_score_is_zero_witness :
  (exists s,
      snd (Toy.get (F32.nan, F32.nan, F32.nan)
             (Toy.first_loss Toy.backend Toy.small)) = S754_zero s) /\
  fst (fst (Toy.get (F32.nan, F32.nan, F32.nan)
              (Toy.first_loss Toy.backend Toy.small)))
  = F32.add
      (snd (fst (Toy.get (F32.nan, F32.nan, F32.nan)
                   (Toy.first_loss Toy.backend Toy.small))))
      (snd (Toy.get (F32.nan, F32.nan, F32.nan)
              (Toy.first_loss Toy.backend Toy.small))).
Proof.
  apply (first_content_score_is_zero Toy.backend Toy.small content_weight_default
           style_weight_default Toy.start (Toy.world_of Toy.backend Toy.small)
           (Toy.locals_of Toy.backend Toy.small)
           (Toy.state_of Toy.backend Toy.small)
           (Toy.candidate Toy.small Toy.backend
              (Toy.world_of Toy.backend Toy.small))).
  - reflexivity.
  - apply toy_setup_returns. vm_compute. reflexivity.
  - vm_compute. reflexivity.
  - vm_compute. repeat constructor. discriminate.
  - vm_compute. reflexivity.
  - apply (get_returns_triple (F32.nan, F32.nan, F32.nan)
             (Toy.first_loss Toy.backend Toy.small)).
    vm_compute. reflexivity.
Defined.

Lemma iteration_fails_only_in_backend_witness :
  exists s' w',
    run_style_transfer_iteration Toy.backend Toy.small
      (Toy.locals_of Toy.backend Toy.small) 0
      (Toy.state_of Toy.backend Toy.small) (Toy.world_of Toy.backend Toy.small)
    = (Ok s', w').
Proof.
  apply (iteration_fails_only_in_backend Toy.backend Toy.small
           content_weight_default style_weight_default Toy.start
           (Toy.world_of Toy.backend Toy.small)
           (Toy.world_of Toy.backend Toy.small)
           (Toy.locals_of Toy.backend Toy.small)
           (Toy.state_of Toy.backend Toy.small)
           (Toy.state_of Toy.backend Toy.small) 0
           (Toy.candidate Toy.small Toy.backend
              (Toy.world_of Toy.backend Toy.small))
           {| shape := shape (Toy.candidate Toy.small Toy.backend
                                (Toy.world_of Toy.backend Toy.small));
              data := map (fun _ => F32.of_Z 1)
                        (data (Toy.candidate Toy.small Toy.backend
                                 (Toy.world_of Toy.backend Toy.small))) |}
           (Toy.get (F32.nan, F32.nan, F32.nan)
              (Toy.first_loss Toy.backend Toy.small))
           1%nat
           (map (fun p => F32.sub (fst p) (snd p))
              (combine
                 (data (Toy.candidate Toy.small Toy.backend
                          (Toy.world_of Toy.backend Toy.small)))
                 (map (fun _ => F32.of_Z 1)
                    (data (Toy.candidate Toy.small Toy.backend
                             (Toy.world_of Toy.backend Toy.small))))))).
  - apply toy_setup_returns. vm_compute. reflexivity.
  - vm_compute. split; [discriminate|reflexivity].
  - reflexivity.
  - vm_compute. reflexivity.
  - vm_compute. reflexivity.
  - apply (get_returns (F32.nan, F32.nan, F32.nan)
             (Toy.first_loss Toy.backend Toy.small)).
    vm_compute. reflexivity.
  - reflexivity.
  - vm_compute. reflexivity.
Defined.

(** ** The amended claims on concrete inputs *)

Lemma candidate_clipped_after_update_witness :
  exists candidate,
    nth_error (variables (Toy.world_after Toy.backend Toy.small 3))
      (init_image (l_cfg (Toy.locals_of Toy.backend Toy.small)))
    = Some candidate /\
    forall (k : nat) (e : float32),
      nth_error (data candidate) k = Some e ->
      Float.is_nan e = false ->
      F32.leb (clip_lo (k mod 3)) e = true /\
      F32.leb e (clip_hi (k mod 3)) = true.
Proof.
  destruct (candidate_clipped_after_update Toy.backend Toy.small
              content_weight_default style_weight_default Toy.start
              (Toy.world_of Toy.backend Toy.small)
              (Toy.locals_of Toy.backend Toy.small)
              (Toy.state_of Toy.backend Toy.small))
    as (_ & Hloop & _).
  - apply toy_setup_returns. vm_compute. reflexivity.
  - apply (Hloop 3%nat (Toy.state_after Toy.backend Toy.small 3)
             (Toy.world_after Toy.backend Toy.small 3)); [lia|].
    apply toy_after_returns. vm_compute. reflexivity.
Defined.

(** Against claim C4 as stated: on a backend whose optimizer writes NaN
    the first iteration returns, and the first element of the trainable
    image it leaves is NaN, which is neither at least the lower bound of
    its channel nor at most the upper one. *)
Lemma nan_update_passes_the_clip :
  Toy.returns (fst (Toy.after Toy.diverging_backend Toy.small 1)) = true /\
  nth_error
    (data (Toy.candidate Toy.small Toy.diverging_backend
             (Toy.world_after Toy.diverging_backend Toy.small 1))) 0
  = Some F32.nan /\
  F32.leb (clip_lo 0) F32.nan = false /\
  F32.leb F32.nan (clip_hi 0) = false.
Proof. repeat split; vm_compute; reflexivity. Qed.

Lemma style_loss_zero_on_own_gram_witness :
  style_loss {| shape := [1; 1; 2]%nat; data := [F32.of_Z 1; F32.of_Z 2] |}
    (Toy.get {| shape := []; data := [] |}
       (gram_matrix {| shape := [1; 1; 2]%nat; data := [F32.of_Z 1; F32.of_Z 2] |}))
  = Ok F32.zero.
Proof.
  destruct (style_loss_zero_on_own_gram
              {| shape := [1; 1; 2]%nat; data := [F32.of_Z 1; F32.of_Z 2] |}
              (Toy.get {| shape := []; data := [] |}
                 (gram_matrix {| shape := [1; 1; 2]%nat;
                                 data := [F32.of_Z 1; F32.of_Z 2] |})))
    as [H _].
  - vm_compute. reflexivity.
  - vm_compute. lia.
  - apply H. vm_compute. repeat constructor.
Defined.

(** Against claim C7 as stated: the style loss of a zero feature map
    against a Gram matrix that holds 2^-100 is zero, because the square
    of the difference underflows, although the Gram matrix of the
    feature map is not that target; the style loss of a feature map
    whose Gram matrix is four times 1 against the one-entry matrix that
    holds 1 is zero, because the target is broadcast; the style loss of
    the feature map that holds 2^100 against its own Gram matrix is NaN,
    because that Gram matrix is infinite; and so is the style loss of a
    feature map without channels against its own, empty, Gram matrix. *)
Lemma style_loss_zero_for_other_gram :
  (style_loss Toy.zero_feature Toy.tiny_gram = Ok F32.zero /\
   gram_matrix Toy.zero_feature
   = Ok {| shape := [1; 1]%nat; data := [F32.zero] |} /\
   gram_matrix Toy.zero_feature <> Ok Toy.tiny_gram /\
   SFeqb F32.zero Toy.tiny = false) /\
  (style_loss Toy.ones_feature Toy.one_gram = Ok F32.zero /\
   gram_matrix Toy.ones_feature
   = Ok {| shape := [2; 2]%nat; data := repeat (F32.of_Z 1) 4 |} /\
   gram_matrix Toy.ones_feature <> Ok Toy.one_gram) /\
  (gram_matrix Toy.huge_feature
   = Ok {| shape := [1; 1]%nat; data := [F32.inf] |} /\
   style_loss Toy.huge_feature {| shape := [1; 1]%nat; data := [F32.inf] |}
   = Ok F32.nan) /\
  (gram_matrix Toy.no_channels = Ok {| shape := [0; 0]%nat; data := [] |} /\
   style_loss Toy.no_channels {| shape := [0; 0]%nat; data := [] |}
   = Ok F32.nan).
Proof.
  repeat split; try (vm_compute; reflexivity); vm_compute; discriminate.
Qed.

Lemma run_on_64x64_images_witness :
  exists r w',
    run_style_transfer Toy.backend Toy.square64 content_weight_default
      style_weight_default Toy.start = (Ok r, w') /\
    forall img, r = Some img -> ushape img = [64; 64; 3]%nat.
Proof.
  destruct (run_on_64x64_images Toy.backend Toy.square64 "content.png" "style.png"
              64 content_weight_default style_weight_default Toy.start
              (Toy.solid 64 64 [200; 100; 50]) (Toy.checkerboard 64 64)
              (Toy.get [] (Toy.resize (Toy.solid 64 64 [200; 100; 50]) 64 64))
              (Toy.get [] (Toy.resize (Toy.checkerboard 64 64) 64 64))
              (Toy.layer []) (fun _ => [1; 1; 2]%nat))
    as (L & s0 & w0 & r & w' & _ & Hrun & Hshape & _).
  - reflexivity.
  - vm_compute. split; [discriminate|reflexivity].
  - reflexivity.
  - reflexivity.
  - reflexivity.
  - reflexivity.
  - apply get_returns. vm_compute. reflexivity.
  - apply get_returns. vm_compute. reflexivity.
  - reflexivity.
  - intros name x _ _. split; [discriminate|]. eexists. split; reflexivity.
  - intros f x l _. eexists. reflexivity.
  - intros o grads x. do 2 eexists. reflexivity.
  - exists r, w'. split; [exact Hrun|]. intros img Himg.
    destruct (Hshape img Himg) as [H _]. exact H.
Defined.

(** Against claim C1 as stated, on files of 64x64 and 5 iterations:
    with the bound 128 the call returns an array of shape
    [128, 128, 3]; with the bound 64 and a network whose every loss is
    NaN it returns None, no array; and with the bound 64 and greyscale
    files it raises [IndexError]. *)
Lemma run_differs_on_64x64_images :
  (exists content style,
      Image_open Toy.backend (content_path Toy.upscaled) = Ok content /\
      Image_open Toy.backend (style_path Toy.upscaled) = Ok style /\
      (width content, height content) = (64, 64)%nat /\
      (width style, height style) = (64, 64)%nat) /\
  64 <= max_dim Toy.upscaled /\
  iteration Toy.upscaled = 5 /\
  match fst (Toy.run Toy.backend Toy.upscaled) with
  | Ok (Some img) => ushape img
  | _ => []
  end = [128; 128; 3]%nat /\
  fst (Toy.run Toy.nan_backend Toy.square64) = Ok None /\
  (exists grey,
      Image_open Toy.grey64_backend (content_path Toy.square64) = Ok grey /\
      Image_open Toy.grey64_backend (style_path Toy.square64) = Ok grey /\
      (width grey, height grey, bands grey) = (64, 64, 1)%nat) /\
  fst (Toy.run Toy.grey64_backend Toy.square64) = Raise IndexError.
Proof.
  split; [do 2 eexists; repeat split; reflexivity|].
  split; [vm_compute; discriminate|]. split; [reflexivity|].
  split; [vm_compute; reflexivity|].
  split; [vm_compute; reflexivity|].
  split; [eexists; repeat split; reflexivity|].
  vm_compute. reflexivity.
Qed.
